(** * Verification of the robot controller's tick scheduler and of its
      co-processor link (transport, dispatcher, blocking helpers).

    The development is a shallow embedding of three translation units:

    - [scheduler.cpp]  (module [Scheduler]): the Timer-4 event queue,
    - [esp32.cpp]      (module [ESP32]): SPI framing and inbound hand-off,
    - [FEHESP32.cpp]   (module [FEHESP32]): the link session state, its
      dispatcher [handleMessage] and the helpers built on polling.

    Machine integers are [Z] with their width written out where it matters
    ([uint8_t] casts are [mod 256]); C arrays are lists indexed with stdpp's
    lookup and insert; static variables become fields of explicit state
    records that every operation threads through. *)

From Stdlib Require Import ZArith Lia Bool.
From stdpp Require Import base decidable numbers list sorting strings.

Set Default Proof Using "Type".

(* ===================================================================== *)
(** * scheduler.cpp *)
(* ===================================================================== *)

Module Scheduler.

(** [#define SCHEDULER_MAX_EVENTS 8] *)
Definition SCHEDULER_MAX_EVENTS : nat := 8.

(** A callback is a bare function pointer [void ( * )()]; the scheduler only
    ever compares it ([==]) and calls it, so its identity is its address. *)
Definition callback_t := nat.

(** [struct EventData { void ( *callback)(); uint16_t ticks; }] *)
Record EventData := mkEvent { callback : callback_t; ticks : Z }.

Global Instance EventData_inhabited : Inhabited EventData :=
  populate (mkEvent 0 0).

Global Instance EventData_eq_dec : EqDecision EventData.
Proof. solve_decision. Defined.

(** The Timer-4 registers the scheduler touches. *)
Record Timer4 := mkTimer {
  TCCR4A : Z;
  TCCR4B : Z;
  TIMSK4 : Z;
  TIFR4 : Z;
  OCR4A : Z;
  TCNT4 : Z
}.

(** The translation unit's static state: [eventData[SCHEDULER_MAX_EVENTS]],
    [numEventsPending], and the timer's registers.  [numEventsPending] is a
    [uint8_t] that the code keeps at or below 8, so it is a [nat] here and
    doubles as the array index bound. *)
Record State := mkState {
  eventData : list EventData;
  numEventsPending : nat;
  timer : Timer4
}.

(** The cells [eventData[0 .. numEventsPending-1]]: the queue proper.  Cells
    beyond hold stale copies that no loop condition ever lets the code read
    as events. *)
Definition pending (s : State) : list EventData :=
  take (numEventsPending s) (eventData s).

(** [bit(WGM42) | bit(CS42) | bit(CS40)] with WGM42 = 3, CS42 = 2, CS40 = 0;
    [bit(OCIE4A)] with OCIE4A = 1 (ATmega2560 register map). *)
Definition TCCR4B_CTC_DIV1024 : Z := Z.lor (Z.lor (Z.shiftl 1 3) (Z.shiftl 1 2)) (Z.shiftl 1 0).
Definition TIMSK4_OCIE4A : Z := Z.shiftl 1 1.

(** [schedulerTimerDisable]: stop the clock, mask the interrupt, acknowledge
    pending flags (writing 0xFF to TIFR4 clears every flag).  TCNT4 keeps the
    count it had reached. *)
Definition schedulerTimerDisable (s : State) : State :=
  let t := timer s in
  mkState (eventData s) (numEventsPending s)
          (mkTimer 0 0 0 0 (OCR4A t) (TCNT4 t)).

(** [schedulerTimerSetup]: with events pending, program the compare register
    with the head's tick count, unmask the interrupt, start the clock in CTC
    mode and restart the count; with none pending, touch nothing. *)
Definition schedulerTimerSetup (s : State) : State :=
  if decide (0 < numEventsPending s) then
    let t := timer s in
    mkState (eventData s) (numEventsPending s)
            (mkTimer 0 TCCR4B_CTC_DIV1024 TIMSK4_OCIE4A (TIFR4 t)
                     (ticks (eventData s !!! 0)) 0)
  else s.

(** One iteration body of the three "subtract time elapsed" loops:
    [if (e.ticks < elapsed) e.ticks = 0; else e.ticks -= elapsed;] *)
Definition elapse (elapsed : Z) (e : EventData) : EventData :=
  if (ticks e <? elapsed)%Z
  then mkEvent (callback e) 0
  else mkEvent (callback e) (ticks e - elapsed).

(** [i = i0; while (i < numEventsPending) { eventData[i] = elapse ...; i++; }]
    [todo] is the number of iterations left, [numEventsPending - i]. *)
Fixpoint subtract_loop (todo i : nat) (elapsed : Z) (a : list EventData)
  : list EventData :=
  match todo with
  | 0 => a
  | S todo' =>
      subtract_loop todo' (S i) elapsed (<[i := elapse elapsed (a !!! i)]> a)
  end.

(** The insertion loop of [scheduleEvent], indexed by [k = i + 1] so that the
    signed [int8_t i] running down to -1 stays a [nat]:
    [while (i >= 0 && eventData[i].ticks > ticks) { eventData[i+1] = eventData[i]; i--; }
     eventData[i+1] = e;] *)
Fixpoint insert_loop (k : nat) (e : EventData) (a : list EventData)
  : list EventData :=
  match k with
  | 0 => <[0 := e]> a
  | S i =>
      if (ticks e <? ticks (a !!! i))%Z
      then insert_loop i e (<[S i := a !!! i]> a)
      else <[S i := e]> a
  end.

(** The tick adjustment at the top of [scheduleEvent]:
    [if (ticks >= 1) ticks -= 1;  if (ticks == 0) ticks = 1;] *)
Definition adjust_ticks (ticks0 : Z) : Z :=
  let ticks1 := if (1 <=? ticks0)%Z then (ticks0 - 1)%Z else ticks0 in
  if (ticks1 =? 0)%Z then 1%Z else ticks1.

(** [bool scheduleEvent(void ( *callback)(), uint16_t ticks)] *)
Definition scheduleEvent (cb : callback_t) (ticks0 : Z) (s : State)
  : bool * State :=
  let ticks' := adjust_ticks ticks0 in
  if decide (SCHEDULER_MAX_EVENTS <= numEventsPending s) then (false, s)
  else
    let s1 := schedulerTimerDisable s in
    let n := numEventsPending s1 in
    let a1 := subtract_loop n 0 (TCNT4 (timer s1)) (eventData s1) in
    let a2 := insert_loop n (mkEvent cb ticks') a1 in
    (true, schedulerTimerSetup (mkState a2 (S n) (timer s1))).

(** The shift-left loop shared by the dispatcher and by [cancelEvents]:
    [j = j0; while (j < numEventsPending) { eventData[j-1] = eventData[j]; j++; }]
    with [todo = numEventsPending - j0] iterations. *)
Fixpoint shift_left (todo j : nat) (a : list EventData) : list EventData :=
  match todo with
  | 0 => a
  | S todo' => shift_left todo' (S j) (<[j - 1 := a !!! j]> a)
  end.

(** The inner loop of [cancelEvents]:
    [while (i < numEventsPending && eventData[i].callback == callback)
       { shift left from i+1; numEventsPending--; }]
    on the pair (array, count).  Each iteration lowers the count, so
    [numEventsPending - i] iterations always suffice. *)
Fixpoint cancel_inner (fuel : nat) (cb : callback_t) (i : nat)
  (an : list EventData * nat) : list EventData * nat :=
  match fuel with
  | 0 => an
  | S fuel' =>
      let '(a, n) := an in
      if decide (i < n ∧ callback (a !!! i) = cb)
      then cancel_inner fuel' cb i (shift_left (n - S i) (S i) a, n - 1)
      else an
  end.

(** The outer loop of [cancelEvents]:
    [while (i < numEventsPending) { inner loop; i++; }] *)
Fixpoint cancel_outer (fuel : nat) (cb : callback_t) (i : nat)
  (an : list EventData * nat) : list EventData * nat :=
  match fuel with
  | 0 => an
  | S fuel' =>
      if decide (i < an.2)
      then cancel_outer fuel' cb (S i) (cancel_inner (an.2 - i) cb i an)
      else an
  end.

(** [void cancelEvents(void ( *callback)())] *)
Definition cancelEvents (cb : callback_t) (s : State) : State :=
  let s1 := schedulerTimerDisable s in
  let n := numEventsPending s1 in
  let a1 := subtract_loop n 0 (TCNT4 (timer s1)) (eventData s1) in
  let '(a2, n2) := cancel_outer n cb 0 (a1, n) in
  schedulerTimerSetup (mkState a2 n2 (timer s1)).

(** [uint16_t schedulerMsToTicks(int milliseconds)]:
    [((uint32_t)milliseconds * 1000L) / 64L] truncated to 16 bits. *)
Definition schedulerMsToTicks (milliseconds : Z) : Z :=
  ((((milliseconds mod 2^32) * 1000) mod 2^32) / 64) mod 2^16.

Section Dispatch.

(** What running a callback does to the scheduler's state.  A callback is
    arbitrary code; it reaches the queue only through [scheduleEvent] and
    [cancelEvents] (the array is [static]). *)
Variable run : callback_t -> State -> State.

(** The dispatch loop of the interrupt routine:
    [while (eventData[0].ticks == 0 && numEventsPending > 0)
       { e = eventData[0]; shift left from 1; numEventsPending--; e.callback(); }]
    A callback may schedule again, so the loop is bounded by fuel; [None]
    means the fuel ran out with the loop still live.  Besides the final
    state the model returns the callbacks it called, in call order. *)
Fixpoint dispatch_loop (fuel : nat) (s : State)
  : option (list callback_t * State) :=
  if decide (ticks (eventData s !!! 0) = 0%Z ∧ 0 < numEventsPending s) then
    match fuel with
    | 0 => None
    | S fuel' =>
        let e := eventData s !!! 0 in
        let n := numEventsPending s in
        let a := shift_left (n - 1) 1 (eventData s) in
        match dispatch_loop fuel' (run (callback e) (mkState a (n - 1) (timer s))) with
        | Some (fired, s') => Some (callback e :: fired, s')
        | None => None
        end
    end
  else Some ([], s).

(** [ISR(TIMER4_COMPA_vect)] *)
Definition ISR (fuel : nat) (s : State) : option (list callback_t * State) :=
  let n := numEventsPending s in
  let a1 := subtract_loop n 0 (OCR4A (timer s)) (eventData s) in
  match dispatch_loop fuel (mkState a1 n (timer s)) with
  | Some (fired, s') => Some (fired, schedulerTimerSetup s')
  | None => None
  end.

(** [k] compare-match interrupts in a row, nothing else touching the queue
    in between; the callbacks called, in call order.  Each run of the routine
    gets [numEventsPending] rounds of fuel. *)
Fixpoint interrupts (k : nat) (s : State) : option (list callback_t * State) :=
  match k with
  | 0 => Some ([], s)
  | S k' =>
      match ISR (numEventsPending s) s with
      | Some (fired1, s1) =>
          match interrupts k' s1 with
          | Some (fired2, s2) => Some (fired1 ++ fired2, s2)
          | None => None
          end
      | None => None
      end
  end.

End Dispatch.

(** The timer is armed for the head of the queue, as [schedulerTimerSetup]
    leaves it. *)
Definition armed (s : State) : Prop :=
  0 < numEventsPending s -> OCR4A (timer s) = ticks (eventData s !!! 0).

(** The entries the dispatch loop finds due: the leading run with no ticks
    left. *)
Fixpoint due_prefix (l : list EventData) : list EventData :=
  match l with
  | [] => []
  | x :: l' => if decide (ticks x = 0%Z) then x :: due_prefix l' else []
  end.

(** The queue as it stands at the current instant: every pending entry with
    the ticks it still has to wait, the timer's running count taken off. *)
Definition queue_now (s : State) : list EventData :=
  elapse (TCNT4 (timer s)) <$> pending s.

(** Callbacks that leave the scheduler alone. *)
Definition idle (_ : callback_t) (s : State) : State := s.

(** A callback that schedules itself again, as [eventHealthCheck] does with
    [scheduleEvent(eventHealthCheck, 1563)]. *)
Definition reschedule (period : Z) (cb : callback_t) (s : State) : State :=
  (scheduleEvent cb period s).2.

(** Sample states: the zero-initialised statics, a queue at capacity while
    the timer runs, and a queue with two entries of one callback in a row. *)
Definition boot_state : State :=
  mkState (replicate SCHEDULER_MAX_EVENTS (mkEvent 0 0)) 0 (mkTimer 0 0 0 0 0 0).

Definition full_state : State :=
  mkState [mkEvent 1 10; mkEvent 2 20; mkEvent 1 30; mkEvent 3 40;
           mkEvent 4 50; mkEvent 5 60; mkEvent 6 70; mkEvent 7 80]
          8 (mkTimer 0 TCCR4B_CTC_DIV1024 TIMSK4_OCIE4A 0 10 4).

Definition busy_state : State :=
  mkState [mkEvent 1 10; mkEvent 2 20; mkEvent 2 25; mkEvent 3 40;
           mkEvent 2 90; mkEvent 0 0; mkEvent 0 0; mkEvent 0 0]
          5 (mkTimer 0 TCCR4B_CTC_DIV1024 TIMSK4_OCIE4A 0 10 4).

(** ** The queue invariant *)

Definition tick_le (e1 e2 : EventData) : Prop := (ticks e1 <= ticks e2)%Z.

Global Instance tick_le_dec e1 e2 : Decision (tick_le e1 e2).
Proof. unfold tick_le. apply _. Defined.

(** The array has its declared size, the count is within it, and the pending
    cells are sorted ascending by remaining ticks. *)
Definition queue_inv (s : State) : Prop :=
  length (eventData s) = SCHEDULER_MAX_EVENTS ∧
  numEventsPending s <= SCHEDULER_MAX_EVENTS ∧
  StronglySorted tick_le (pending s).

Global Instance queue_inv_dec s : Decision (queue_inv s).
Proof. unfold queue_inv. apply _. Defined.

(** Every modelled 16-bit quantity holds a 16-bit value: the pending tick
    counts and the two timer registers the code reads back.  Under it the
    arithmetic on [Z] below is the arithmetic of the [uint16_t] fields. *)
Definition uint16 (z : Z) : Prop := (0 <= z < 2^16)%Z.

Definition ranges_ok (s : State) : Prop :=
  Forall (λ e, uint16 (ticks e)) (pending s) ∧
  uint16 (TCNT4 (timer s)) ∧ uint16 (OCR4A (timer s)).


(** ** The array loops, read on the pending cells *)

Lemma subtract_loop_length todo i t a :
  length (subtract_loop todo i t a) = length a.
Proof.
  revert i a. induction todo as [|todo IH]; intros i a; simpl; [done|].
  by rewrite IH, length_insert.
Qed.

Lemma subtract_loop_lookup todo i t a j :
  i + todo <= length a ->
  subtract_loop todo i t a !! j =
    if decide (i <= j < i + todo) then elapse t <$> a !! j else a !! j.
Proof.
  revert i a. induction todo as [|todo IH]; intros i a Hlen; simpl.
  { case_decide; [lia|done]. }
  rewrite IH by (rewrite length_insert; lia).
  destruct (decide (j = i)) as [->|Hne].
  - rewrite list_lookup_insert_eq by lia.
    destruct (lookup_lt_is_Some_2 a i ltac:(lia)) as [x Hx].
    rewrite (list_lookup_total_correct _ _ _ Hx), Hx.
    repeat case_decide; try lia; done.
  - rewrite list_lookup_insert_ne by done.
    repeat case_decide; try lia; done.
Qed.

Lemma subtract_loop_pending n t a :
  n <= length a ->
  take n (subtract_loop n 0 t a) = elapse t <$> take n a.
Proof.
  intros Hn. apply list_eq; intros j.
  rewrite list_lookup_fmap, !lookup_take.
  case_decide; [|done].
  rewrite subtract_loop_lookup by lia.
  case_decide; [done|lia].
Qed.


Lemma insert_loop_length k e a : length (insert_loop k e a) = length a.
Proof.
  revert a. induction k as [|i IH]; intros a; simpl.
  - by rewrite length_insert.
  - case_match; [rewrite IH|]; by rewrite length_insert.
Qed.

(** The loop never writes above cell [k]. *)
Lemma insert_loop_frame k e a m :
  k < m -> insert_loop k e a !! m = a !! m.
Proof.
  revert a. induction k as [|i IH]; intros a Hm; simpl.
  - by rewrite list_lookup_insert_ne by lia.
  - case_match.
    + rewrite IH by lia. by rewrite list_lookup_insert_ne by lia.
    + by rewrite list_lookup_insert_ne by lia.
Qed.

(** Insertion as the loop performs it, on the queue read last-to-first: walk
    past every entry with more ticks than [e], then drop [e] in. *)
Fixpoint insert_rev (e : EventData) (r : list EventData) : list EventData :=
  match r with
  | [] => [e]
  | x :: r' =>
      if (ticks e <? ticks x)%Z then x :: insert_rev e r' else e :: r
  end.

Lemma insert_loop_pending k e a :
  k < length a ->
  take (S k) (insert_loop k e a) = reverse (insert_rev e (reverse (take k a))).
Proof.
  revert a. induction k as [|i IH]; intros a Hk.
  - destruct a as [|x a]; simpl in *; [lia|done].
  - destruct (lookup_lt_is_Some_2 a i ltac:(lia)) as [x Hx].
    rewrite (take_S_r a i x Hx), reverse_snoc. simpl.
    rewrite (list_lookup_total_correct _ _ _ Hx).
    destruct (ticks e <? ticks x)%Z.
    + rewrite reverse_cons.
      rewrite (take_S_r _ (S i) x).
      * rewrite IH by (rewrite length_insert; lia).
        by rewrite take_insert_ge by lia.
      * rewrite insert_loop_frame by lia.
        by rewrite list_lookup_insert_eq by lia.
    + rewrite !reverse_cons, reverse_involutive.
      rewrite (take_S_r _ (S i) e) by (by rewrite list_lookup_insert_eq by lia).
      rewrite take_insert_ge by lia.
      by rewrite (take_S_r a i x Hx).
Qed.

Lemma insert_rev_perm e r : insert_rev e r ≡ₚ e :: r.
Proof.
  induction r as [|x r IH]; simpl; [done|].
  case_match; [|done]. rewrite IH. apply Permutation_swap.
Qed.

Lemma insert_rev_sorted e r :
  StronglySorted (flip tick_le) r ->
  StronglySorted (flip tick_le) (insert_rev e r).
Proof.
  induction 1 as [|x r Hr IH Hx]; simpl.
  { repeat constructor. }
  destruct (ticks e <? ticks x)%Z eqn:Hlt.
  - constructor; [done|].
    rewrite insert_rev_perm. constructor; [|done].
    unfold flip, tick_le. lia.
  - constructor; [by constructor|].
    constructor; [unfold flip, tick_le; lia|].
    eapply Forall_impl; [exact Hx|].
    unfold flip, tick_le. intros; lia.
Qed.

Lemma StronglySorted_reverse {A} (R : relation A) l :
  StronglySorted R l -> StronglySorted (flip R) (reverse l).
Proof.
  induction 1 as [|x l Hl IH Hx]; [rewrite reverse_nil; constructor|].
  rewrite reverse_cons. apply StronglySorted_app_2; [|done|repeat constructor].
  intros x1 x2 Hx1 ->%list_elem_of_singleton.
  rewrite Forall_forall in Hx. apply Hx. by apply elem_of_reverse.
Qed.

Lemma insert_sorted e l :
  StronglySorted tick_le l ->
  StronglySorted tick_le (reverse (insert_rev e (reverse l))).
Proof.
  intros Hl.
  apply (StronglySorted_reverse (flip tick_le)).
  by apply insert_rev_sorted, StronglySorted_reverse.
Qed.

Lemma shift_left_length todo j a : length (shift_left todo j a) = length a.
Proof.
  revert j a. induction todo as [|todo IH]; intros j a; simpl; [done|].
  by rewrite IH, length_insert.
Qed.

Lemma shift_left_lookup todo j a m :
  1 <= j -> j + todo <= length a ->
  shift_left todo j a !! m =
    if decide (j - 1 <= m < j - 1 + todo) then a !! S m else a !! m.
Proof.
  revert j a. induction todo as [|todo IH]; intros j a Hj Hlen; simpl.
  { case_decide; [lia|done]. }
  rewrite IH by (rewrite ?length_insert; lia).
  destruct (lookup_lt_is_Some_2 a j ltac:(lia)) as [x Hx].
  rewrite (list_lookup_total_correct _ _ _ Hx).
  repeat case_decide; try lia.
  - by rewrite list_lookup_insert_ne by lia.
  - assert (m = j - 1) as -> by lia.
    rewrite list_lookup_insert_eq by lia.
    by replace (S (j - 1)) with j by lia.
  - by rewrite list_lookup_insert_ne by lia.
Qed.

(** Removing cell [i] of an [n]-entry queue by shifting the tail left is
    list deletion on the pending cells. *)
Lemma shift_left_pending i n a :
  i < n -> n <= length a ->
  take (n - 1) (shift_left (n - S i) (S i) a) = delete i (take n a).
Proof.
  intros Hi Hn. apply list_eq; intros m.
  rewrite list_lookup_delete, !lookup_take.
  rewrite shift_left_lookup by lia.
  repeat case_decide; try lia; done.
Qed.


(** What one run of the inner loop of [cancelEvents] removes: the leading
    run of entries whose callback is [cb]. *)
Fixpoint drop_matching (cb : callback_t) (l : list EventData) : list EventData :=
  match l with
  | [] => []
  | x :: l' => if decide (callback x = cb) then drop_matching cb l' else l
  end.

Lemma drop_matching_length cb l : length (drop_matching cb l) <= length l.
Proof. induction l as [|x l IH]; simpl; [done|]. case_decide; simpl; lia. Qed.

Lemma drop_matching_head cb l y d :
  drop_matching cb l = y :: d -> callback y <> cb.
Proof.
  induction l as [|x l IH]; simpl; [done|].
  case_decide; [done|]. by intros [= -> _].
Qed.

Lemma drop_matching_filter cb l :
  filter (λ e, callback e <> cb) (drop_matching cb l) =
  filter (λ e, callback e <> cb) l.
Proof.
  induction l as [|x l IH]; simpl; [done|].
  case_decide; [|done].
  rewrite IH. by rewrite filter_cons_False by naive_solver.
Qed.

Lemma pending_split_lookup (a : list EventData) n pre x suf :
  take n a = pre ++ x :: suf -> a !!! length pre = x.
Proof.
  intros Hsplit. apply list_lookup_total_correct.
  assert (take n a !! length pre = Some x) as Hx.
  { rewrite Hsplit. by apply list_lookup_middle. }
  by apply lookup_take_Some in Hx as [? ?].
Qed.

Lemma pending_split_count (a : list EventData) n pre suf :
  n <= length a -> take n a = pre ++ suf -> n = length pre + length suf.
Proof.
  intros Hn Hsplit. rewrite <- length_app, <- Hsplit, length_take. lia.
Qed.

Lemma cancel_inner_spec fuel cb a n pre suf :
  n <= length a -> take n a = pre ++ suf -> length suf <= fuel ->
  ∃ a' n',
    cancel_inner fuel cb (length pre) (a, n) = (a', n') ∧
    length a' = length a ∧ n' <= length a' ∧
    take n' a' = pre ++ drop_matching cb suf.
Proof.
  revert a n suf. induction fuel as [|fuel IH]; intros a n suf Hn Hsplit Hfuel.
  { destruct suf; simpl in *; [|lia]. by exists a, n. }
  pose proof (pending_split_count a n pre suf Hn Hsplit) as Hcount.
  simpl. destruct suf as [|x suf]; simpl in *.
  { rewrite decide_False by lia. by exists a, n. }
  rewrite (pending_split_lookup a n pre x suf Hsplit).
  destruct (decide (callback x = cb)) as [Hcb|Hcb].
  - rewrite decide_True by (split; [lia|done]).
    destruct (IH (shift_left (n - S (length pre)) (S (length pre)) a)
                 (n - 1) suf) as (a' & n' & Hrun & Hlen' & Hn' & Hres).
    { rewrite shift_left_length; lia. }
    { rewrite shift_left_pending by lia. rewrite Hsplit. apply delete_middle. }
    { lia. }
    rewrite shift_left_length in Hlen'. by exists a', n'.
  - rewrite decide_False by (by intros [_ ?]). by exists a, n.
Qed.

Lemma cancel_outer_done fuel cb i a n :
  n <= i -> cancel_outer fuel cb i (a, n) = (a, n).
Proof. intros Hi. destruct fuel; simpl; [done|]. by rewrite decide_False by lia. Qed.

Lemma cancel_outer_spec fuel cb a n pre suf :
  n <= length a -> take n a = pre ++ suf -> length suf <= fuel ->
  ∃ a' n',
    cancel_outer fuel cb (length pre) (a, n) = (a', n') ∧
    length a' = length a ∧ n' <= length a' ∧
    take n' a' = pre ++ filter (λ e, callback e <> cb) suf.
Proof.
  revert a n pre suf.
  induction fuel as [|fuel IH]; intros a n pre suf Hn Hsplit Hfuel.
  { destruct suf; simpl in *; [|lia]. by exists a, n. }
  pose proof (pending_split_count a n pre suf Hn Hsplit) as Hcount.
  simpl. destruct (decide (length pre < n)) as [Hlt|Hge]; last first.
  { destruct suf; simpl in *; [|lia]. by exists a, n. }
  destruct (cancel_inner_spec (n - length pre) cb a n pre suf Hn Hsplit
              ltac:(lia)) as (a1 & n1 & -> & Hlen1 & Hn1 & Hsplit1).
  rewrite <- (drop_matching_filter cb suf).
  pose proof (drop_matching_length cb suf) as Hdm.
  destruct (drop_matching cb suf) as [|y dm] eqn:Hdrop.
  - pose proof (pending_split_count a1 n1 pre [] Hn1 Hsplit1) as Hcount1.
    rewrite cancel_outer_done by (simpl in *; lia).
    exists a1, n1. repeat split; done.
  - destruct (IH a1 n1 (pre ++ [y]) dm Hn1) as (a' & n' & Hrun & Hlen' & Hn' & Hres).
    { by rewrite <- app_assoc. }
    { simpl in *. lia. }
    rewrite length_app, Nat.add_1_r in Hrun.
    exists a', n'. rewrite Hrun, Hlen', Hlen1. repeat split; try lia.
    rewrite Hres, <- app_assoc. simpl.
    by rewrite filter_cons_True by (by eapply drop_matching_head).
Qed.


(** ** Sortedness under the queue edits *)

Lemma StronglySorted_sublist {A} (R : relation A) l1 l2 :
  l1 `sublist_of` l2 -> StronglySorted R l2 -> StronglySorted R l1.
Proof.
  induction 1 as [|x l1 l2 Hsub IH|x l1 l2 Hsub IH]; intros Hs.
  - constructor.
  - apply StronglySorted_cons in Hs as [Hx Hs].
    constructor; [by apply IH|].
    rewrite Forall_forall in Hx |- *. eauto using elem_of_sublist.
  - apply StronglySorted_cons in Hs as [_ Hs]. by apply IH.
Qed.

Lemma elapse_callback t e : callback (elapse t e) = callback e.
Proof. unfold elapse. by case_match. Qed.

(** The subtraction saturates: it is [max 0 (ticks - elapsed)]. *)
Lemma elapse_ticks t e : ticks (elapse t e) = Z.max 0 (ticks e - t).
Proof. unfold elapse. destruct (Z.ltb_spec (ticks e) t); simpl; lia. Qed.

Lemma elapse_zero e : elapse 0 e = mkEvent (callback e) (Z.max 0 (ticks e)).
Proof.
  unfold elapse. destruct (Z.ltb_spec (ticks e) 0); f_equal; lia.
Qed.

Lemma elapse_mono t e1 e2 : tick_le e1 e2 -> tick_le (elapse t e1) (elapse t e2).
Proof. unfold tick_le. rewrite !elapse_ticks. lia. Qed.

Lemma elapse_sorted t l :
  StronglySorted tick_le l -> StronglySorted tick_le (elapse t <$> l).
Proof. apply StronglySorted_fmap. intros x y. apply elapse_mono. Qed.

(** ** The timer helpers leave the queue alone *)

Lemma timer_disable_queue s :
  eventData (schedulerTimerDisable s) = eventData s ∧
  numEventsPending (schedulerTimerDisable s) = numEventsPending s ∧
  TCNT4 (timer (schedulerTimerDisable s)) = TCNT4 (timer s).
Proof. done. Qed.

Lemma timer_setup_eventData s :
  eventData (schedulerTimerSetup s) = eventData s.
Proof. unfold schedulerTimerSetup. by case_decide. Qed.

Lemma timer_setup_count s :
  numEventsPending (schedulerTimerSetup s) = numEventsPending s.
Proof. unfold schedulerTimerSetup. by case_decide. Qed.

Lemma timer_setup_pending s : pending (schedulerTimerSetup s) = pending s.
Proof. unfold pending. by rewrite timer_setup_eventData, timer_setup_count. Qed.

Lemma timer_setup_inv s : queue_inv s -> queue_inv (schedulerTimerSetup s).
Proof.
  unfold queue_inv.
  by rewrite timer_setup_pending, timer_setup_eventData, timer_setup_count.
Qed.

(** ** [scheduleEvent] *)

Lemma scheduleEvent_full cb d s :
  SCHEDULER_MAX_EVENTS <= numEventsPending s ->
  scheduleEvent cb d s = (false, s).
Proof. intros Hfull. unfold scheduleEvent. by rewrite decide_True. Qed.

(** An accepted request: the pending cells become the old ones, each reduced
    by the elapsed count, with the new entry inserted from the right. *)
Lemma scheduleEvent_accepted cb d s :
  length (eventData s) = SCHEDULER_MAX_EVENTS ->
  numEventsPending s < SCHEDULER_MAX_EVENTS ->
  (scheduleEvent cb d s).1 = true ∧
  length (eventData (scheduleEvent cb d s).2) = SCHEDULER_MAX_EVENTS ∧
  numEventsPending (scheduleEvent cb d s).2 = S (numEventsPending s) ∧
  pending (scheduleEvent cb d s).2 =
    reverse (insert_rev (mkEvent cb (adjust_ticks d))
               (reverse (elapse (TCNT4 (timer s)) <$> pending s))).
Proof.
  intros Hlen Hn. unfold scheduleEvent.
  rewrite decide_False by lia. cbn [fst snd].
  rewrite timer_setup_pending, timer_setup_eventData, timer_setup_count.
  unfold pending. cbn.
  rewrite insert_loop_length, subtract_loop_length.
  repeat split; try done.
  rewrite insert_loop_pending by (rewrite subtract_loop_length; lia).
  by rewrite subtract_loop_pending by lia.
Qed.

Lemma scheduleEvent_inv cb d s :
  queue_inv s -> queue_inv (scheduleEvent cb d s).2.
Proof.
  intros (Hlen & Hn & Hsorted).
  destruct (decide (SCHEDULER_MAX_EVENTS <= numEventsPending s)) as [Hfull|Hroom].
  - by rewrite scheduleEvent_full.
  - destruct (scheduleEvent_accepted cb d s Hlen ltac:(lia))
      as (_ & Hlen' & Hn' & Hpend).
    repeat split; [done|lia|].
    rewrite Hpend. by apply insert_sorted, elapse_sorted.
Qed.

(** ** [cancelEvents] *)

Lemma cancelEvents_spec cb s :
  numEventsPending s <= length (eventData s) ->
  length (eventData (cancelEvents cb s)) = length (eventData s) ∧
  numEventsPending (cancelEvents cb s) <= numEventsPending s ∧
  pending (cancelEvents cb s) =
    filter (λ e, callback e <> cb) (elapse (TCNT4 (timer s)) <$> pending s).
Proof.
  intros Hn. unfold cancelEvents. cbn [schedulerTimerDisable eventData numEventsPending timer TCNT4].
  set (a1 := subtract_loop _ _ _ _).
  assert (length a1 = length (eventData s)) as Hlen1
    by apply subtract_loop_length.
  destruct (cancel_outer_spec (numEventsPending s) cb a1 (numEventsPending s)
              [] (take (numEventsPending s) a1))
    as (a2 & n2 & Hrun & Hlen2 & Hn2 & Hres); [lia|done|rewrite length_take; lia|].
  cbn [length] in Hrun. rewrite Hrun.
  rewrite timer_setup_pending, timer_setup_eventData, timer_setup_count.
  unfold pending. cbn [eventData numEventsPending].
  split; [lia|]. split.
  - assert (length (take n2 a2) <= numEventsPending s) as Hle.
    { rewrite Hres. cbn [app].
      etrans; [apply length_filter|]. rewrite length_take. lia. }
    rewrite length_take in Hle. lia.
  - rewrite Hres. cbn [app]. unfold a1.
    by rewrite subtract_loop_pending by lia.
Qed.

Lemma cancelEvents_inv cb s : queue_inv s -> queue_inv (cancelEvents cb s).
Proof.
  intros (Hlen & Hn & Hsorted).
  destruct (cancelEvents_spec cb s) as (Hlen' & Hn' & Hpend).
  { rewrite Hlen. done. }
  repeat split; [lia|lia|].
  rewrite Hpend.
  eapply StronglySorted_sublist; [apply sublist_filter|].
  by apply elapse_sorted.
Qed.


(** ** The interrupt routine *)

Lemma remove_head_pending s :
  0 < numEventsPending s -> numEventsPending s <= length (eventData s) ->
  pending (mkState (shift_left (numEventsPending s - 1) 1 (eventData s))
                   (numEventsPending s - 1) (timer s)) =
  delete 0 (pending s).
Proof. intros Hpos Hn. unfold pending. cbn. by apply shift_left_pending. Qed.

Lemma remove_head_inv s :
  queue_inv s -> 0 < numEventsPending s ->
  queue_inv (mkState (shift_left (numEventsPending s - 1) 1 (eventData s))
                     (numEventsPending s - 1) (timer s)).
Proof.
  intros (Hlen & Hn & Hsorted) Hpos. unfold queue_inv.
  rewrite remove_head_pending by lia. cbn.
  rewrite shift_left_length. repeat split; [done|lia|].
  eapply StronglySorted_sublist; [apply sublist_delete|done].
Qed.

Lemma subtract_all_inv t s :
  queue_inv s ->
  queue_inv (mkState (subtract_loop (numEventsPending s) 0 t (eventData s))
                     (numEventsPending s) (timer s)).
Proof.
  intros (Hlen & Hn & Hsorted). unfold queue_inv, pending. cbn.
  rewrite subtract_loop_length, subtract_loop_pending by lia.
  repeat split; [done|done|]. by apply elapse_sorted.
Qed.

Section DispatchProofs.

Variable run : callback_t -> State -> State.

Lemma dispatch_loop_inv fuel s fired s' :
  (∀ cb s0, queue_inv s0 -> queue_inv (run cb s0)) ->
  queue_inv s -> dispatch_loop run fuel s = Some (fired, s') -> queue_inv s'.
Proof.
  intros Hrun. revert s fired.
  induction fuel as [|fuel IH]; intros s fired Hinv; simpl.
  - case_decide; [done|]. by intros [= _ <-].
  - case_decide as Hdue; [|by intros [= _ <-]].
    destruct (dispatch_loop run fuel _) as [[fired' s1]|] eqn:Hloop; [|done].
    intros [= _ <-]. eapply IH; [|exact Hloop].
    apply Hrun, remove_head_inv; [done|lia].
Qed.

Lemma ISR_inv fuel s fired s' :
  (∀ cb s0, queue_inv s0 -> queue_inv (run cb s0)) ->
  queue_inv s -> ISR run fuel s = Some (fired, s') -> queue_inv s'.
Proof.
  intros Hrun Hinv. unfold ISR.
  destruct (dispatch_loop run fuel _) as [[fired' s1]|] eqn:Hloop; [|done].
  intros [= _ <-]. apply timer_setup_inv.
  eapply dispatch_loop_inv; [done| |exact Hloop].
  by apply subtract_all_inv.
Qed.

(** When no callback grows the queue, every iteration of the dispatch loop
    lowers the count: the loop is over within [numEventsPending] rounds. *)
Lemma dispatch_loop_total fuel s :
  (∀ cb s0, numEventsPending (run cb s0) <= numEventsPending s0) ->
  numEventsPending s <= fuel -> is_Some (dispatch_loop run fuel s).
Proof.
  intros Hrun. revert s. induction fuel as [|fuel IH]; intros s Hfuel; simpl.
  - rewrite decide_False by lia. by eexists.
  - case_decide as Hdue; [|by eexists].
    destruct (IH (run (callback (eventData s !!! 0))
                      (mkState (shift_left (numEventsPending s - 1) 1 (eventData s))
                               (numEventsPending s - 1) (timer s)))) as [[fired s'] ->].
    + etrans; [apply Hrun|]. cbn. lia.
    + by eexists.
Qed.

Lemma ISR_total s :
  (∀ cb s0, numEventsPending (run cb s0) <= numEventsPending s0) ->
  is_Some (ISR run (numEventsPending s) s).
Proof.
  intros Hrun. unfold ISR.
  destruct (dispatch_loop_total (numEventsPending s)
              (mkState (subtract_loop (numEventsPending s) 0 (OCR4A (timer s)) (eventData s))
                       (numEventsPending s) (timer s)) Hrun) as [[fired s'] ->];
    [done|by eexists].
Qed.

End DispatchProofs.


(** ** The 16-bit quantities stay in range *)

Lemma elapse_uint16 t e :
  (0 <= t)%Z -> uint16 (ticks e) -> uint16 (ticks (elapse t e)).
Proof. unfold uint16. rewrite elapse_ticks. lia. Qed.

Lemma adjust_ticks_uint16 d :
  uint16 d -> (1 <= adjust_ticks d)%Z ∧ uint16 (adjust_ticks d).
Proof.
  unfold uint16, adjust_ticks. intros Hd.
  destruct (Z.leb_spec 1 d);
    [destruct (Z.eqb_spec (d - 1) 0)|destruct (Z.eqb_spec d 0)]; lia.
Qed.

Lemma scheduleEvent_perm cb d s :
  length (eventData s) = SCHEDULER_MAX_EVENTS ->
  numEventsPending s < SCHEDULER_MAX_EVENTS ->
  pending (scheduleEvent cb d s).2 ≡ₚ
    mkEvent cb (adjust_ticks d) :: (elapse (TCNT4 (timer s)) <$> pending s).
Proof.
  intros Hlen Hn.
  destruct (scheduleEvent_accepted cb d s Hlen Hn) as (_ & _ & _ & ->).
  rewrite reverse_Permutation, insert_rev_perm.
  by rewrite reverse_Permutation.
Qed.

Lemma timer_setup_ranges s :
  0 < numEventsPending s <= length (eventData s) ->
  Forall (λ e, uint16 (ticks e)) (pending s) ->
  ranges_ok (schedulerTimerSetup s).
Proof.
  intros Hn Hticks. unfold ranges_ok.
  rewrite timer_setup_pending. split; [done|].
  unfold schedulerTimerSetup. rewrite decide_True by lia. cbn.
  split; [unfold uint16; lia|].
  destruct (pending s) as [|x l] eqn:Hp.
  { unfold pending in Hp.
    apply (f_equal length) in Hp. rewrite length_take in Hp. simpl in Hp. lia. }
  assert (eventData s !!! 0 = x) as ->.
  { by apply (pending_split_lookup (eventData s) (numEventsPending s) [] x l). }
  by apply Forall_cons in Hticks as [? _].
Qed.

Lemma scheduleEvent_ranges cb d s :
  queue_inv s -> ranges_ok s -> uint16 d ->
  ranges_ok (scheduleEvent cb d s).2.
Proof.
  intros (Hlen & Hn & _) (Hticks & Htcnt & Hocr) Hd.
  destruct (decide (SCHEDULER_MAX_EVENTS <= numEventsPending s)) as [Hfull|Hroom].
  { by rewrite scheduleEvent_full. }
  pose proof (scheduleEvent_perm cb d s Hlen ltac:(lia)) as Hperm.
  unfold scheduleEvent in *. rewrite decide_False in * by lia.
  cbn [snd] in *. rewrite timer_setup_pending in Hperm.
  apply timer_setup_ranges.
  { cbn. rewrite insert_loop_length, subtract_loop_length. lia. }
  rewrite Hperm. constructor; [by apply adjust_ticks_uint16|].
  apply Forall_fmap. eapply Forall_impl; [exact Hticks|].
  intros e He. apply elapse_uint16; [unfold uint16 in Htcnt; lia|done].
Qed.

Lemma cancelEvents_ranges cb s :
  queue_inv s -> ranges_ok s -> ranges_ok (cancelEvents cb s).
Proof.
  intros (Hlen & Hn & _) (Hticks & Htcnt & Hocr).
  destruct (cancelEvents_spec cb s ltac:(lia)) as (Hlen' & Hn' & Hpend).
  assert (Forall (λ e, uint16 (ticks e)) (pending (cancelEvents cb s))) as Hok.
  { rewrite Hpend. apply Forall_forall.
    intros e [_ (e0 & -> & He0)%list_elem_of_fmap]%list_elem_of_filter.
    rewrite Forall_forall in Hticks.
    apply elapse_uint16; [unfold uint16 in Htcnt; lia|by apply Hticks]. }
  split; [done|].
  unfold cancelEvents in *. destruct (cancel_outer _ _ _ _) as [a2 n2].
  unfold schedulerTimerSetup in *. cbn [numEventsPending] in *.
  case_decide as Hpos; cbn; [|done].
  split; [unfold uint16; lia|].
  destruct (timer_setup_ranges (mkState a2 n2 (timer (schedulerTimerDisable s))))
    as (_ & _ & Hocr').
  { cbn in *. lia. }
  { unfold pending in *. cbn in *. done. }
  unfold schedulerTimerSetup in Hocr'. cbn [numEventsPending] in Hocr'.
  by rewrite decide_True in Hocr' by done.
Qed.

Lemma timer_setup_ranges_any s :
  numEventsPending s <= length (eventData s) ->
  ranges_ok s -> ranges_ok (schedulerTimerSetup s).
Proof.
  intros Hn Hok. destruct (decide (0 < numEventsPending s)) as [Hpos|Hzero].
  - apply timer_setup_ranges; [lia|]. by destruct Hok.
  - unfold schedulerTimerSetup. by rewrite decide_False.
Qed.

Lemma ISR_ranges run fuel s fired s' :
  (∀ cb s0, queue_inv s0 ∧ ranges_ok s0 ->
            queue_inv (run cb s0) ∧ ranges_ok (run cb s0)) ->
  queue_inv s -> ranges_ok s ->
  ISR run fuel s = Some (fired, s') -> queue_inv s' ∧ ranges_ok s'.
Proof.
  intros Hrun Hinv Hok. unfold ISR.
  destruct (dispatch_loop run fuel _) as [[fired' s1]|] eqn:Hloop; [|done].
  intros [= _ <-].
  assert (queue_inv s1 ∧ ranges_ok s1) as [Hinv1 Hok1].
  { clear fired. revert Hloop.
    generalize (subtract_all_inv (OCR4A (timer s)) s Hinv).
    assert (ranges_ok (mkState (subtract_loop (numEventsPending s) 0
                                  (OCR4A (timer s)) (eventData s))
                               (numEventsPending s) (timer s))) as Hok0.
    { destruct Hinv as (Hlen & Hn & _), Hok as (Hticks & Htcnt & Hocr).
      split; [|done]. unfold pending. cbn.
      rewrite subtract_loop_pending by lia. apply Forall_fmap.
      eapply Forall_impl; [exact Hticks|].
      intros e He. apply elapse_uint16; [unfold uint16 in Hocr; lia|done]. }
    revert Hok0. generalize (mkState (subtract_loop (numEventsPending s) 0
                                  (OCR4A (timer s)) (eventData s))
                               (numEventsPending s) (timer s)).
    clear s Hinv Hok. revert fired'.
    induction fuel as [|fuel IH]; intros fired' s Hok Hinv; simpl.
    - case_decide; [done|]. by intros [= _ <-].
    - case_decide as Hdue; [|by intros [= _ <-]].
      destruct (dispatch_loop run fuel _) as [[fired2 s2]|] eqn:Hloop; [|done].
      intros [= _ <-].
      destruct (Hrun (callback (eventData s !!! 0))
                  (mkState (shift_left (numEventsPending s - 1) 1 (eventData s))
                           (numEventsPending s - 1) (timer s))) as [Hinv2 Hok2].
      { split; [apply remove_head_inv; [done|lia]|].
        destruct Hinv as (Hlen & Hn & _), Hok as (Hticks & Htcnt & Hocr).
        split; [|done]. rewrite remove_head_pending by lia.
        by apply Forall_delete. }
      by eapply IH. }
  split; [by apply timer_setup_inv|].
  apply timer_setup_ranges_any; [|done]. destruct Hinv1 as (-> & ? & _). done.
Qed.

(** ** Filtering and rebasing *)

Lemma filter_all_id (P : EventData -> Prop) `{!∀ x, Decision (P x)}
  (l : list EventData) :
  (∀ e, e ∈ l -> P e) -> filter P l = l.
Proof.
  induction l as [|x l IH]; intros Hall; [done|].
  rewrite filter_cons_True by (apply Hall; left).
  f_equal. apply IH. intros e He. apply Hall. by right.
Qed.

Lemma fmap_callback_filter cb (l : list EventData) :
  callback <$> filter (λ e, callback e <> cb) l =
  filter (λ c, c <> cb) (callback <$> l).
Proof.
  induction l as [|x l IH]; [done|]. cbn [fmap list_fmap].
  rewrite !filter_cons. case_decide; cbn [fmap list_fmap]; by rewrite IH.
Qed.

Lemma fmap_callback_elapse t (l : list EventData) : callback <$> (elapse t <$> l) = callback <$> l.
Proof.
  rewrite <- list_fmap_compose. apply list_fmap_ext.
  intros i e _. apply elapse_callback.
Qed.

Lemma fmap_elapse_filter t cb (l : list EventData) :
  elapse t <$> filter (λ e, callback e <> cb) l =
  filter (λ e, callback e <> cb) (elapse t <$> l).
Proof.
  induction l as [|x l IH]; [done|]. cbn [fmap list_fmap].
  rewrite !filter_cons, elapse_callback.
  case_decide; cbn [fmap list_fmap]; by rewrite IH.
Qed.

(** Taking nothing more off an entry that was already rebased changes
    nothing: its count is not negative. *)
Lemma elapse_zero_elapse t e : elapse 0 (elapse t e) = elapse t e.
Proof.
  rewrite elapse_zero, elapse_callback, elapse_ticks.
  unfold elapse. case_match; f_equal; lia.
Qed.

(** [cancelEvents] leaves the timer restarted from zero when entries remain,
    so the instantaneous view of its result is its stored cells. *)
Lemma cancelEvents_timer cb s :
  0 < numEventsPending (cancelEvents cb s) ->
  TCNT4 (timer (cancelEvents cb s)) = 0%Z.
Proof.
  unfold cancelEvents. destruct (cancel_outer _ _ _ _) as [a2 n2].
  unfold schedulerTimerSetup. cbn [numEventsPending].
  case_decide; cbn; [done|lia].
Qed.

Lemma cancelEvents_queue_now cb s :
  numEventsPending s <= length (eventData s) ->
  queue_now (cancelEvents cb s) = pending (cancelEvents cb s).
Proof.
  intros Hn. destruct (cancelEvents_spec cb s Hn) as (_ & _ & Hpend).
  destruct (decide (0 < numEventsPending (cancelEvents cb s))) as [Hpos|Hnone].
  - unfold queue_now. rewrite (cancelEvents_timer cb s Hpos), Hpend.
    rewrite fmap_elapse_filter, <- list_fmap_compose.
    f_equal. apply list_fmap_ext. intros i e _. apply elapse_zero_elapse.
  - unfold queue_now, pending.
    by replace (numEventsPending (cancelEvents cb s)) with 0 by lia.
Qed.

(** ** Interrupts with callbacks that leave the queue alone *)

Lemma pending_head s x l :
  pending s = x :: l -> eventData s !!! 0 = x ∧ 0 < numEventsPending s.
Proof.
  intros Hp. split.
  - by apply (pending_split_lookup (eventData s) (numEventsPending s) [] x l).
  - unfold pending in Hp. destruct (numEventsPending s); [done|lia].
Qed.

Lemma pending_nil s :
  numEventsPending s <= length (eventData s) -> pending s = [] ->
  numEventsPending s = 0.
Proof.
  intros Hn Hp. apply (f_equal length) in Hp.
  unfold pending in Hp. rewrite length_take in Hp. simpl in Hp. lia.
Qed.

Lemma due_prefix_take l : due_prefix l = take (length (due_prefix l)) l.
Proof.
  induction l as [|x l IH]; simpl; [done|].
  case_decide; simpl; [by rewrite <- IH|done].
Qed.

Lemma due_prefix_length l : length (due_prefix l) <= length l.
Proof. induction l as [|x l IH]; simpl; [done|]. case_decide; simpl; lia. Qed.

Lemma timer_setup_armed s : armed (schedulerTimerSetup s).
Proof.
  unfold armed, schedulerTimerSetup. case_decide; cbn; [done|lia].
Qed.

Lemma dispatch_idle fuel s :
  numEventsPending s <= length (eventData s) ->
  numEventsPending s <= fuel ->
  ∃ s',
    dispatch_loop idle fuel s = Some (callback <$> due_prefix (pending s), s') ∧
    pending s' = drop (length (due_prefix (pending s))) (pending s) ∧
    length (eventData s') = length (eventData s) ∧
    numEventsPending s' =
      numEventsPending s - length (due_prefix (pending s)).
Proof.
  unfold idle.
  revert s. induction fuel as [|fuel IH]; intros s Hn Hfuel.
  { exists s. simpl. rewrite decide_False by lia.
    assert (pending s = []) as ->; [|by rewrite Nat.sub_0_r].
    unfold pending. by replace (numEventsPending s) with 0 by lia. }
  destruct (pending s) as [|x l] eqn:Hp.
  { exists s. simpl. rewrite (pending_nil s Hn Hp).
    rewrite decide_False by lia. by rewrite Hp. }
  destruct (pending_head s x l Hp) as [Hx Hpos].
  simpl. rewrite Hx.
  destruct (decide (ticks x = 0%Z)) as [Hdue|Hlater].
  - rewrite decide_True by done.
    destruct (IH (mkState (shift_left (numEventsPending s - 1) 1 (eventData s))
                          (numEventsPending s - 1) (timer s)))
      as (s' & Hrun & Hpend & Hlen & Hcount).
    { cbn. rewrite shift_left_length. lia. }
    { cbn. lia. }
    rewrite remove_head_pending, Hp in Hrun, Hpend, Hcount by lia.
    cbn in Hrun, Hpend, Hlen, Hcount. rewrite shift_left_length in Hlen.
    exists s'. rewrite Hrun. repeat split; try done. simpl. lia.
  - rewrite decide_False by (by intros [? _]).
    exists s. rewrite Hp. simpl. by rewrite Nat.sub_0_r.
Qed.

Lemma ISR_idle s :
  numEventsPending s <= length (eventData s) ->
  ∃ s',
    ISR idle (numEventsPending s) s =
      Some (callback <$> due_prefix (elapse (OCR4A (timer s)) <$> pending s), s') ∧
    pending s' =
      drop (length (due_prefix (elapse (OCR4A (timer s)) <$> pending s)))
           (elapse (OCR4A (timer s)) <$> pending s) ∧
    length (eventData s') = length (eventData s) ∧
    numEventsPending s' =
      numEventsPending s -
      length (due_prefix (elapse (OCR4A (timer s)) <$> pending s)) ∧
    armed s'.
Proof.
  intros Hn. unfold ISR.
  destruct (dispatch_idle (numEventsPending s)
              (mkState (subtract_loop (numEventsPending s) 0 (OCR4A (timer s))
                          (eventData s))
                       (numEventsPending s) (timer s)))
    as (s1 & Hrun & Hpend & Hlen & Hcount).
  { cbn. by rewrite subtract_loop_length. }
  { done. }
  set (l1 := pending (mkState _ _ _)) in Hrun, Hpend, Hcount.
  assert (l1 = elapse (OCR4A (timer s)) <$> pending s) as Hl1.
  { unfold l1, pending. cbn. by apply subtract_loop_pending. }
  rewrite Hl1 in Hrun, Hpend, Hcount. clear l1 Hl1.
  cbn [eventData numEventsPending] in Hlen, Hcount.
  rewrite subtract_loop_length in Hlen.
  rewrite Hrun. exists (schedulerTimerSetup s1).
  rewrite timer_setup_pending, timer_setup_eventData, timer_setup_count.
  repeat split; try done. apply timer_setup_armed.
Qed.

(** An armed timer fires for the head: once the compare value is taken off,
    the head has no ticks left. *)
Lemma armed_head_due s :
  armed s -> 0 < numEventsPending s ->
  numEventsPending s <= length (eventData s) ->
  0 < length (due_prefix (elapse (OCR4A (timer s)) <$> pending s)).
Proof.
  intros Harmed Hpos Hn.
  destruct (pending s) as [|x l] eqn:Hp.
  { pose proof (pending_nil s Hn Hp). lia. }
  destruct (pending_head s x l Hp) as [Hx _].
  rewrite (Harmed Hpos), Hx. cbn.
  rewrite decide_True; [simpl; lia|].
  rewrite elapse_ticks. lia.
Qed.

(** Every pending event is called, in queue order, within as many interrupts
    as there are events. *)
Lemma interrupts_idle k s :
  armed s -> numEventsPending s <= length (eventData s) ->
  numEventsPending s <= k ->
  ∃ s', interrupts idle k s = Some (callback <$> pending s, s') ∧
        numEventsPending s' = 0.
Proof.
  revert s. induction k as [|k IH]; intros s Harmed Hn Hk.
  { exists s. simpl. split; [|lia].
    unfold pending. by replace (numEventsPending s) with 0 by lia. }
  simpl.
  destruct (ISR_idle s Hn) as (s1 & -> & Hpend1 & Hlen1 & Hcount1 & Harmed1).
  pose proof (due_prefix_length (elapse (OCR4A (timer s)) <$> pending s)) as Hdue.
  assert (numEventsPending s1 <= k) as Hk1.
  { destruct (decide (0 < numEventsPending s)) as [Hpos|Hzero]; [|lia].
    pose proof (armed_head_due s Harmed Hpos Hn). lia. }
  destruct (IH s1 Harmed1 ltac:(lia) Hk1) as (s2 & -> & Hzero).
  exists s2. split; [|done]. f_equal. f_equal.
  rewrite Hpend1, <- fmap_app.
  rewrite (due_prefix_take (elapse _ <$> pending s)) at 1.
  by rewrite take_drop, fmap_callback_elapse.
Qed.

(** ** The model run on the unit tests' scenarios *)

(** [test_2_events_different_ticks_2]: 1500 then 1000 ticks; the later
    request goes to the head, each count less the setup tick. *)
Example schedule_1500_then_1000 :
  pending (scheduleEvent 2 1000 (scheduleEvent 1 1500 boot_state).2).2 =
    [mkEvent 2 999; mkEvent 1 1499].
Proof. reflexivity. Qed.

(** [test_1_event_0_ticks]: a zero-tick request waits one tick, and the
    timer is armed for it. *)
Example schedule_zero_ticks :
  pending (scheduleEvent 1 0 boot_state).2 = [mkEvent 1 1] ∧
  OCR4A (timer (scheduleEvent 1 0 boot_state).2) = 1%Z.
Proof. split; reflexivity. Qed.

(** [test_cancel_1_event_with_2_not_cancelled], 781 ticks (50 ms) in. *)
Example cancel_middle_of_three :
  let s1 := (scheduleEvent 1 1563 boot_state).2 in
  let s2 := (scheduleEvent 2 2344 s1).2 in
  let s3 := (scheduleEvent 3 3125 s2).2 in
  let late := mkState (eventData s3) (numEventsPending s3)
                      (mkTimer 0 TCCR4B_CTC_DIV1024 TIMSK4_OCIE4A 0 1562 781) in
  pending (cancelEvents 2 late) = [mkEvent 1 781; mkEvent 3 2343].
Proof. reflexivity. Qed.

(** [test_2_events_nested_scheduling]: callback 4 schedules callback 2 in
    5000 ticks from inside the interrupt routine. *)
Example interrupt_with_scheduling_callback :
  let run := λ cb s, if decide (cb = 4) then (scheduleEvent 2 5000 s).2 else s in
  let s0 := (scheduleEvent 4 5000 (scheduleEvent 1 10000 boot_state).2).2 in
  pending s0 = [mkEvent 4 4999; mkEvent 1 9999] ∧
  (λ r, (r.1, pending r.2)) <$> ISR run 8 s0 =
    Some ([4], [mkEvent 2 4999; mkEvent 1 5000]).
Proof. split; reflexivity. Qed.

(** ** Claims about the scheduler *)

(** C5.  With 8 events pending, [scheduleEvent] returns [false] and hands back
    the very state it was given: every cell of the array (callback, tick
    count, position), the pending count and the timer are untouched, so no
    entry is overwritten. *)
Theorem scheduleEvent_rejects_at_capacity cb d s :
  numEventsPending s = SCHEDULER_MAX_EVENTS ->
  (scheduleEvent cb d s).1 = false ∧
  (scheduleEvent cb d s).2 = s ∧
  eventData (scheduleEvent cb d s).2 = eventData s ∧
  pending (scheduleEvent cb d s).2 = pending s ∧
  numEventsPending (scheduleEvent cb d s).2 = SCHEDULER_MAX_EVENTS.
Proof.
  intros Hfull.
  assert (scheduleEvent cb d s = (false, s)) as ->.
  { apply scheduleEvent_full. by rewrite Hfull. }
  by repeat split.
Qed.

Lemma scheduleEvent_rejects_at_capacity_witness :
  (scheduleEvent 9 100 full_state).1 = false ∧
  (scheduleEvent 9 100 full_state).2 = full_state ∧
  eventData (scheduleEvent 9 100 full_state).2 = eventData full_state ∧
  pending (scheduleEvent 9 100 full_state).2 = pending full_state ∧
  numEventsPending (scheduleEvent 9 100 full_state).2 = SCHEDULER_MAX_EVENTS.
Proof. apply (scheduleEvent_rejects_at_capacity 9 100 full_state). reflexivity. Defined.

(** C6.  The queue invariant (array of 8 cells, at most 8 pending, pending
    cells sorted ascending by ticks) is kept by [scheduleEvent], by
    [cancelEvents] and by the timer interrupt, whose callbacks may themselves
    edit the queue as long as they keep the invariant.  The interrupt routine
    returns whenever no callback grows the queue, and the elapsed-tick
    subtraction clamps at zero: it never leaves the range [0, ticks]. *)
Theorem queue_invariant_preserved (run : callback_t -> State -> State) s :
  (∀ cb s0, queue_inv s0 -> queue_inv (run cb s0)) ->
  queue_inv s ->
  (∀ cb d, queue_inv (scheduleEvent cb d s).2) ∧
  (∀ cb, queue_inv (cancelEvents cb s)) ∧
  (∀ fuel fired s', ISR run fuel s = Some (fired, s') -> queue_inv s') ∧
  ((∀ cb s0, numEventsPending (run cb s0) <= numEventsPending s0) ->
     is_Some (ISR run (numEventsPending s) s)) ∧
  (∀ t e, (0 <= ticks e)%Z -> (0 <= t)%Z ->
     (0 <= ticks (elapse t e) <= ticks e)%Z).
Proof.
  intros Hrun Hinv. split; [|split; [|split; [|split]]].
  - intros cb d. by apply scheduleEvent_inv.
  - intros cb. by apply cancelEvents_inv.
  - intros fuel fired s'. by apply ISR_inv.
  - apply ISR_total.
  - intros t e He Ht. rewrite elapse_ticks. lia.
Qed.

Lemma queue_invariant_preserved_witness :
  queue_inv (scheduleEvent 9 100 busy_state).2 ∧
  queue_inv (cancelEvents 2 busy_state) ∧
  (∀ fired s', ISR (reschedule 1563) 8 busy_state = Some (fired, s') ->
     queue_inv s').
Proof.
  destruct (queue_invariant_preserved (reschedule 1563) busy_state)
    as (Hsched & Hcancel & Hisr & _).
  - intros cb s0. apply scheduleEvent_inv.
  - unfold queue_inv, busy_state, pending, tick_le, SCHEDULER_MAX_EVENTS. cbn.
    split; [reflexivity|]. split; [lia|]. repeat constructor; cbn; lia.
  - split; [apply Hsched|]. split; [apply Hcancel|]. apply Hisr.
Defined.


Lemma adjust_ticks_spec d :
  (0 <= d)%Z ->
  adjust_ticks d = (if decide (d = 0%Z) then 1 else Z.max 1 (d - 1))%Z.
Proof.
  intros Hd. unfold adjust_ticks.
  destruct (Z.leb_spec 1 d); case_decide; try lia;
    destruct (Z.eqb_spec (d - 1) 0), (Z.eqb_spec d 0); lia.
Qed.

Lemma scheduleEvent_armed cb d s :
  numEventsPending s < SCHEDULER_MAX_EVENTS -> armed (scheduleEvent cb d s).2.
Proof.
  intros Hn. unfold scheduleEvent. rewrite decide_False by lia.
  apply timer_setup_armed.
Qed.







End Scheduler.

(* ===================================================================== *)
(** * UpdaterProtocol.h, ApplicationProtocol.h, esp32.h: constants *)
(* ===================================================================== *)

Module Protocol.

Local Open Scope Z_scope.

Definition UPDATER_PROTOCOL_SYNC_BYTE_1 : Z := 0xAA.
Definition UPDATER_PROTOCOL_SYNC_BYTE_2 : Z := 0x55.
Definition UPDATER_PROTOCOL_DATA_SIZE : Z := 41.
Definition UPDATER_PROTOCOL_HEADER_SIZE : Z := 4.
Definition UPDATER_PROTOCOL_MAX_PACKET_SIZE : Z := 45.

Definition ESP32_POLL_INTERVAL_MS : Z := 100.
Definition ESP32_TX_BUF_LEN : Z := 48.

Definition CMD_PING : Z := 0x01.
Definition CMD_WIFI_CONNECT : Z := 0x10.
Definition CMD_WIFI_CONNECT_FAST : Z := 0x11.

Definition RSP_ACK : Z := 0x80.
Definition RSP_PONG : Z := 0x82.
Definition NOTIFY_DEBUG : Z := 0x83.
Definition NOTIFY_WIFI_CONNECTED : Z := 0x91.
Definition NOTIFY_WIFI_FAILED : Z := 0x92.
Definition NOTIFY_WIFI_DISCONNECTED : Z := 0x93.
Definition RSP_PARTITION_VALID : Z := 0xB0.
Definition NOTIFY_FLASH_PROGRESS : Z := 0xB1.
Definition NOTIFY_FLASH_COMPLETE : Z := 0xB2.
Definition NOTIFY_FLASH_FAILED : Z := 0xB3.
Definition NOTIFY_RCS_CONNECTED : Z := 0xC0.
Definition NOTIFY_RCS_DISCONNECTED : Z := 0xC1.
Definition NOTIFY_RCS_DATA : Z := 0xC2.
Definition RSP_BLE_STATUS : Z := 0xC3.
Definition NOTIFY_BLE_CLIENT_EVENT : Z := 0xC4.

Definition BLE_STATE_OFF : Z := 0x00.
Definition BLE_STATE_ADVERTISING : Z := 0x01.
Definition BLE_STATE_CONNECTED : Z := 0x02.
Definition BLE_EVENT_CLIENT_CONNECTED : Z := 0x01.
Definition BLE_EVENT_CLIENT_DISCONNECTED : Z := 0x02.

End Protocol.

(* ===================================================================== *)
(** * esp32.cpp *)
(* ===================================================================== *)

Module ESP32.

Import Protocol.
Local Open Scope Z_scope.

(** [buf[i]] on a byte buffer.  A read past the end of the list yields 0;
    the theorems below never depend on such a read. *)
Definition rd (buf : list Z) (i : nat) : Z := default 0 (buf !! i).

(** [(uint8_t) z] *)
Definition u8 (z : Z) : Z := z mod 256.

(** [memset(buf, 0, sizeof buf)] for the two 48-byte stack buffers. *)
Definition zero_buf : list Z := replicate (Z.to_nat ESP32_TX_BUF_LEN) 0.

(** [memcpy(&dst[off], src, n)], the source holding at least [n] bytes. *)
Definition memcpy (off : nat) (src : list Z) (n : Z) (dst : list Z) : list Z :=
  list_inserts off (take (Z.to_nat n) src) dst.

(** What the code sees of the board: the millisecond clock, the three output
    pins, the frames clocked out over SPI (oldest first) and the buffers the
    peer will clock back, one per transfer. *)
Record Board := mkBoard {
  clock : Z;
  pin_CS : bool;
  pin_EN : bool;
  pin_SPARE : bool;
  spi_tx : list (list Z);
  spi_rx : list (list Z)
}.

(** [millis()]: a 32-bit count. *)
Definition millis (b : Board) : Z := clock b mod 2^32.

(** [delay(ms)] *)
Definition delay (ms : Z) (b : Board) : Board :=
  mkBoard (clock b + ms) (pin_CS b) (pin_EN b) (pin_SPARE b) (spi_tx b) (spi_rx b).

(** The receive buffer one transfer fills from what the peer clocks back:
    48 bytes, each a [uint8_t]; a shorter answer leaves zeros. *)
Definition rx_buffer (answer : list Z) : list Z :=
  u8 <$> take (Z.to_nat ESP32_TX_BUF_LEN) (answer ++ zero_buf).

(** The receive buffer of the [k]-th transfer from now. *)
Definition nth_rx (b : Board) (k : nat) : list Z :=
  rx_buffer (default [] (spi_rx b !! k)).

(** [spiTransfer(tx, rx, ESP32_TX_BUF_LEN)]: chip select low, 48 bytes
    exchanged, chip select high.  The peer's answer is the next buffer of
    [spi_rx]; with none queued the line reads zeros.  A transfer takes well
    under a millisecond and leaves the clock. *)
Definition spiTransfer (tx : list Z) (b : Board) : list Z * Board :=
  (nth_rx b 0,
   mkBoard (clock b) true (pin_EN b) (pin_SPARE b)
           (spi_tx b ++ [tx]) (tail (spi_rx b))).

(** The test [dataLen >= 2 && data[0] == SYNC_1 && data[1] == SYNC_2]: the
    caller's buffer already is a framed packet. *)
Definition prebuilt (d : list Z) (dataLen : Z) : bool :=
  (2 <=? dataLen) && (rd d 0 =? UPDATER_PROTOCOL_SYNC_BYTE_1)
                  && (rd d 1 =? UPDATER_PROTOCOL_SYNC_BYTE_2).

(** The four header bytes [SYNC SYNC CMD LEN] written over the zeroed buffer. *)
Definition tx_header (cmd dataLen : Z) : list Z :=
  <[3%nat := dataLen]>
    (<[2%nat := cmd]>
       (<[1%nat := UPDATER_PROTOCOL_SYNC_BYTE_2]>
          (<[0%nat := UPDATER_PROTOCOL_SYNC_BYTE_1]> zero_buf))).

(** The transmit buffer as [sendCommand] has filled it when it starts the
    transfer: a caller's buffer that opens with the sync bytes is copied as
    it is; otherwise header, then payload. *)
Definition tx_frame (cmd : Z) (data : option (list Z)) (dataLen : Z) : list Z :=
  match data with
  | Some d =>
      if prebuilt d dataLen
      then memcpy 0 d (Z.min dataLen (u8 ESP32_TX_BUF_LEN)) zero_buf
      else if 0 <? dataLen
           then memcpy 4 d (Z.min dataLen (u8 (ESP32_TX_BUF_LEN - 4)))
                       (tx_header cmd dataLen)
           else tx_header cmd dataLen
  | None => tx_header cmd dataLen
  end.

(** The data length [handleReceivedMessage] settles on:
    [dataLen = rxBuf[3]; if (dataLen > TX_BUF_LEN - HEADER_SIZE) dataLen = TX_BUF_LEN - HEADER_SIZE;] *)
Definition rx_dataLen (rxBuf : list Z) : Z :=
  let dataLen := rd rxBuf 3 in
  if ESP32_TX_BUF_LEN - UPDATER_PROTOCOL_HEADER_SIZE <? dataLen
  then ESP32_TX_BUF_LEN - UPDATER_PROTOCOL_HEADER_SIZE
  else dataLen.

(** [uint8_t totalLen = UPDATER_PROTOCOL_HEADER_SIZE + dataLen;] *)
Definition rx_totalLen (rxBuf : list Z) : Z :=
  u8 (UPDATER_PROTOCOL_HEADER_SIZE + rx_dataLen rxBuf).

Section Transport.

(** The state the registered message callback works on. *)
Context {C : Type}.

(** [typedef void ( *ESP32MessageCallback)(const uint8_t *msg, uint8_t len)] *)
Definition ESP32MessageCallback := list Z -> Z -> C -> C.

(** The file's statics. *)
Record Statics := mkStatics {
  s_rxCallback : option ESP32MessageCallback;
  s_lastPollTime : Z;
  s_isInitialized : bool
}.

Record Machine := mkMachine {
  board : Board;
  esp : Statics;
  client : C
}.

Definition on_board (f : Board -> Board) (m : Machine) : Machine :=
  mkMachine (f (board m)) (esp m) (client m).

(** [static void handleReceivedMessage(const uint8_t *rxBuf)] *)
Definition handleReceivedMessage (rxBuf : list Z) (m : Machine) : Machine :=
  if negb (rd rxBuf 0 =? UPDATER_PROTOCOL_SYNC_BYTE_1)
     || negb (rd rxBuf 1 =? UPDATER_PROTOCOL_SYNC_BYTE_2)
  then m
  else
    let totalLen := rx_totalLen rxBuf in
    match s_rxCallback (esp m) with
    | Some cb => mkMachine (board m) (esp m) (cb rxBuf totalLen (client m))
    | None => m
    end.

(** [void ESP32::powerOff()] *)
Definition powerOff (m : Machine) : Machine :=
  on_board (λ b, mkBoard (clock b) (pin_CS b) false false (spi_tx b) (spi_rx b)) m.

(** [void ESP32::powerOn(bool factoryReset)] *)
Definition powerOn (factoryReset : bool) (m : Machine) : Machine :=
  on_board (λ b,
    let spare1 := if factoryReset then true else pin_SPARE b in
    let b1 := delay 1500 (mkBoard (clock b) (pin_CS b) true spare1 (spi_tx b) (spi_rx b)) in
    let spare2 := if factoryReset then false else pin_SPARE b1 in
    mkBoard (clock b1) (pin_CS b1) (pin_EN b1) spare2 (spi_tx b1) (spi_rx b1)) m.

(** [void ESP32::reset(bool factoryReset)] *)
Definition reset (factoryReset : bool) (m : Machine) : Machine :=
  powerOn factoryReset (on_board (delay 100) (powerOff m)).

(** [void ESP32::init(ESP32MessageCallback messageCallback)]; [pinMode] and
    [SPI.begin] configure the peripheral and change nothing modelled here. *)
Definition init (messageCallback : option ESP32MessageCallback) (m : Machine)
  : Machine :=
  let m1 := mkMachine (board m)
                      (mkStatics messageCallback 0 (s_isInitialized (esp m)))
                      (client m) in
  let m2 := powerOff m1 in
  mkMachine (board m2)
            (mkStatics (s_rxCallback (esp m2)) (s_lastPollTime (esp m2)) true)
            (client m2).

(** [bool ESP32::sendCommand(uint8_t cmd, const uint8_t *data, uint8_t dataLen)] *)
Definition sendCommand (cmd : Z) (data : option (list Z)) (dataLen : Z)
  (m : Machine) : bool * Machine :=
  if negb (s_isInitialized (esp m)) then (false, m)
  else
    let tx := tx_frame cmd data dataLen in
    let '(rx, b) := spiTransfer tx (board m) in
    (true, handleReceivedMessage rx (mkMachine b (esp m) (client m))).

(** [void ESP32::poll()] *)
Definition poll (m : Machine) : Machine :=
  if negb (s_isInitialized (esp m)) then m
  else
    let '(rx, b) := spiTransfer zero_buf (board m) in
    handleReceivedMessage rx (mkMachine b (esp m) (client m)).

(** [void ESP32::update()] *)
Definition update (m : Machine) : Machine :=
  if negb (s_isInitialized (esp m)) then m
  else
    let now := millis (board m) in
    if ESP32_POLL_INTERVAL_MS <=? (now - s_lastPollTime (esp m)) mod 2^32
    then poll (mkMachine (board m)
                 (mkStatics (s_rxCallback (esp m)) now (s_isInitialized (esp m)))
                 (client m))
    else m.

End Transport.

Arguments Statics : clear implicits.
Arguments Machine : clear implicits.
Arguments ESP32MessageCallback : clear implicits.


(** ** Sample machines *)

(** A callback that records what it is handed. *)
Definition recorder : ESP32MessageCallback (list (list Z * Z)) :=
  λ msg len log, log ++ [(msg, len)].

(** An initialised transport with the recorder registered and a quiet peer. *)
Definition recording_machine : Machine (list (list Z * Z)) :=
  mkMachine (mkBoard 0 true true false [] []) (mkStatics (Some recorder) 0 true) [].

(** A 45-byte payload, one more than a frame has room for. *)
Definition payload_45 : list Z := replicate 45 0x11.

(** A received buffer whose length byte claims 44 payload bytes. *)
Definition rx_len_44 : list Z :=
  rx_buffer ([0xAA; 0x55; NOTIFY_DEBUG; 44] ++ replicate 44 0x21).

(** ** Framing *)

Lemma zero_buf_length : length zero_buf = 48%nat.
Proof. reflexivity. Qed.

Lemma tx_header_length cmd dataLen : length (tx_header cmd dataLen) = 48%nat.
Proof. unfold tx_header. by rewrite !length_insert. Qed.

Lemma tx_header_len_field cmd dataLen : rd (tx_header cmd dataLen) 3 = dataLen.
Proof. reflexivity. Qed.

Lemma memcpy_length off src n dst : length (memcpy off src n dst) = length dst.
Proof. apply length_inserts. Qed.

Lemma memcpy_below off src n dst j :
  (j < off)%nat -> rd (memcpy off src n dst) j = rd dst j.
Proof.
  intros Hj. unfold rd, memcpy. by rewrite list_lookup_inserts_lt.
Qed.

(** A copy that runs to the end of the destination: the tail is the source. *)
Lemma memcpy_tail off (src : list Z) n dst :
  (off + Z.to_nat n = length dst)%nat -> (Z.to_nat n <= length src)%nat ->
  drop off (memcpy off src n dst) = take (Z.to_nat n) src.
Proof.
  intros Hfit Hsrc. unfold memcpy.
  assert (length (take (Z.to_nat n) src) = Z.to_nat n) as Hk
    by (rewrite length_take; lia).
  apply list_eq; intros j. rewrite lookup_drop.
  destruct (decide (j < Z.to_nat n)%nat) as [Hj|Hj].
  - rewrite list_lookup_inserts by lia. f_equal. lia.
  - rewrite list_lookup_inserts_ge by lia.
    rewrite (lookup_ge_None_2 dst) by lia.
    by rewrite lookup_ge_None_2 by lia.
Qed.

Lemma handleReceivedMessage_board {C} rx (m : Machine C) :
  board (handleReceivedMessage rx m) = board m ∧
  esp (handleReceivedMessage rx m) = esp m.
Proof.
  unfold handleReceivedMessage. case_match; [done|]. by case_match.
Qed.

Lemma sendCommand_frame {C} cmd data dataLen (m : Machine C) :
  s_isInitialized (esp m) = true ->
  (sendCommand cmd data dataLen m).1 = true ∧
  spi_tx (board (sendCommand cmd data dataLen m).2) =
    spi_tx (board m) ++ [tx_frame cmd data dataLen].
Proof.
  intros Hinit. unfold sendCommand. rewrite Hinit. cbn.
  split; [done|].
  by rewrite (proj1 (handleReceivedMessage_board _ _)).
Qed.

(** C1.  For a data buffer longer than the 44 bytes a frame has room for
    (and not itself a pre-built packet), the frame [sendCommand] clocks out
    carries the caller's original length in its LEN byte, while only the
    first 44 payload bytes are in the frame: the LEN field is not the clamped
    length. *)
Theorem sendCommand_len_field_unclamped {C} cmd d dataLen (m : Machine C) :
  s_isInitialized (esp m) = true ->
  ESP32_TX_BUF_LEN - UPDATER_PROTOCOL_HEADER_SIZE < dataLen ->
  Z.of_nat (length d) = dataLen ->
  prebuilt d dataLen = false ->
  ∃ frame,
    spi_tx (board (sendCommand cmd (Some d) dataLen m).2) =
      spi_tx (board m) ++ [frame] ∧
    length frame = 48%nat ∧
    rd frame 3 = dataLen ∧
    drop 4 frame = take 44 d ∧
    rd frame 3 <> Z.of_nat (length (drop 4 frame)).
Proof.
  intros Hinit Hbig Hlen Hplain.
  exists (tx_frame cmd (Some d) dataLen).
  split; [by apply sendCommand_frame|].
  unfold tx_frame. rewrite Hplain.
  unfold ESP32_TX_BUF_LEN, UPDATER_PROTOCOL_HEADER_SIZE in *.
  destruct (Z.ltb_spec 0 dataLen); [|lia].
  change (u8 (48 - 4)) with 44. rewrite Z.min_r by lia.
  assert (drop 4 (memcpy 4 d 44 (tx_header cmd dataLen)) = take 44 d) as Htail.
  { apply (memcpy_tail 4 d 44); [by rewrite tx_header_length|lia]. }
  split; [by rewrite memcpy_length, tx_header_length|].
  split; [by rewrite memcpy_below by lia|].
  split; [done|].
  rewrite memcpy_below by lia. rewrite Htail, length_take.
  rewrite tx_header_len_field. lia.
Qed.

Lemma sendCommand_len_field_unclamped_witness :
  ∃ frame,
    spi_tx (board (sendCommand 0x42 (Some payload_45) 45 recording_machine).2) =
      [frame] ∧
    length frame = 48%nat ∧
    rd frame 3 = 45 ∧
    drop 4 frame = take 44 payload_45 ∧
    rd frame 3 <> Z.of_nat (length (drop 4 frame)).
Proof.
  apply (sendCommand_len_field_unclamped 0x42 payload_45 45 recording_machine);
    [reflexivity|reflexivity|reflexivity|reflexivity].
Defined.

(** ** Inbound hand-off *)

Lemma rx_dataLen_min rxBuf :
  rx_dataLen rxBuf = Z.min (rd rxBuf 3) 44.
Proof.
  unfold rx_dataLen, ESP32_TX_BUF_LEN, UPDATER_PROTOCOL_HEADER_SIZE.
  destruct (Z.ltb_spec (48 - 4) (rd rxBuf 3)); lia.
Qed.

Lemma rx_totalLen_value rxBuf :
  0 <= rd rxBuf 3 -> rx_totalLen rxBuf = 4 + Z.min (rd rxBuf 3) 44.
Proof.
  intros Hbyte. unfold rx_totalLen, u8, UPDATER_PROTOCOL_HEADER_SIZE.
  rewrite rx_dataLen_min. apply Z.mod_small. lia.
Qed.

(** C4 as the code has it.  A received buffer that bears the sync marker is
    handed to the registered callback with length [4 + min(LEN, 44)]: the
    length byte is clamped to the buffer capacity less the header, 44, so
    the total handed on never exceeds the 48-byte buffer. *)
Theorem handleReceivedMessage_clamps_to_buffer {C}
  (cb : ESP32MessageCallback C) rxBuf (m : Machine C) :
  rd rxBuf 0 = UPDATER_PROTOCOL_SYNC_BYTE_1 ->
  rd rxBuf 1 = UPDATER_PROTOCOL_SYNC_BYTE_2 ->
  0 <= rd rxBuf 3 ->
  s_rxCallback (esp m) = Some cb ->
  handleReceivedMessage rxBuf m =
    mkMachine (board m) (esp m) (cb rxBuf (rx_totalLen rxBuf) (client m)) ∧
  rx_totalLen rxBuf = UPDATER_PROTOCOL_HEADER_SIZE + rx_dataLen rxBuf ∧
  rx_dataLen rxBuf = Z.min (rd rxBuf 3) (ESP32_TX_BUF_LEN - UPDATER_PROTOCOL_HEADER_SIZE) ∧
  rx_dataLen rxBuf <= ESP32_TX_BUF_LEN - UPDATER_PROTOCOL_HEADER_SIZE ∧
  rx_totalLen rxBuf <= ESP32_TX_BUF_LEN.
Proof.
  intros Hs1 Hs2 Hbyte Hcb.
  pose proof (rx_dataLen_min rxBuf) as Hmin.
  pose proof (rx_totalLen_value rxBuf Hbyte) as Htot.
  unfold ESP32_TX_BUF_LEN, UPDATER_PROTOCOL_HEADER_SIZE.
  split; [|lia].
  unfold handleReceivedMessage. rewrite Hs1, Hs2, Hcb.
  by rewrite !Z.eqb_refl.
Qed.

Lemma handleReceivedMessage_clamps_to_buffer_witness :
  client (handleReceivedMessage rx_len_44 recording_machine) = [(rx_len_44, 48)].
Proof.
  destruct (handleReceivedMessage_clamps_to_buffer recorder rx_len_44
              recording_machine) as (-> & _);
    [reflexivity|reflexivity|vm_compute; discriminate|reflexivity|].
  reflexivity.
Defined.

(** C4 as stated fails: a buffer with the sync marker and length byte 44 is
    handed on with total length 48, that is 44 payload bytes, more than the
    41 the protocol allows. *)
Lemma handleReceivedMessage_passes_44_payload_bytes :
  rd rx_len_44 0 = UPDATER_PROTOCOL_SYNC_BYTE_1 ∧
  rd rx_len_44 1 = UPDATER_PROTOCOL_SYNC_BYTE_2 ∧
  snd <$> client (handleReceivedMessage rx_len_44 recording_machine) = [48] ∧
  UPDATER_PROTOCOL_DATA_SIZE < 48 - UPDATER_PROTOCOL_HEADER_SIZE ∧
  ~ (rx_dataLen rx_len_44 <= UPDATER_PROTOCOL_DATA_SIZE).
Proof.
  repeat split; try reflexivity. vm_compute. intros H. by apply H.
Qed.

End ESP32.

(* ===================================================================== *)
(** * FEHESP32.cpp *)
(* ===================================================================== *)

Module FEHESP32.

Import Protocol.
Import ESP32.
Local Open Scope Z_scope.

(** [struct ESP32Version] *)
Record ESP32Version := mkVersion {
  major : Z;
  minor : Z;
  patch : Z;
  partition : Z
}.

(** The class's private statics: the link session state.  The RCS callback
    is a function pointer, kept as the address registered ([None] for
    [nullptr]). *)
Record Link := mkLink {
  s_version : ESP32Version;
  s_connected : bool;
  s_flashing : bool;
  s_flashComplete : bool;
  s_flashError : bool;
  s_flashErrorCode : Z;
  s_flashBytes : Z;
  s_flashTotal : Z;
  s_partitionValid : bool;
  s_validatedPartition : Z;
  s_lastAckedCmd : Z;
  s_wifiConnectResult : bool;
  s_wifiConnectSuccess : bool;
  s_rcsConnected : bool;
  s_rcsCallback : option nat;
  s_bleState : Z
}.

(** The static initializers at the top of the file. *)
Definition initial_link : Link :=
  mkLink (mkVersion 0 0 0 0xFF) false false false false 0 0 0 false 0xFF 0x00
         false false false None BLE_STATE_OFF.

(** What the driver does besides updating its statics: text on the serial
    port, and calls of the registered RCS callback. *)
Inductive Effect :=
| SerialPrint (text : string)
| SerialWrite (bytes : list Z)
| SerialPrintln (bytes : list Z)
| RcsCallback (fn : nat) (data : list Z) (len : Z).

Record Driver := mkDriver {
  link : Link;
  trace : list Effect
}.

Definition on_link (f : Link -> Link) (d : Driver) : Driver :=
  mkDriver (f (link d)) (trace d).

Definition emit (e : Effect) (d : Driver) : Driver :=
  mkDriver (link d) (trace d ++ [e]).

(** Field assignments. *)
Definition set_version v (l : Link) : Link :=
  mkLink v (s_connected l) (s_flashing l) (s_flashComplete l) (s_flashError l)
    (s_flashErrorCode l) (s_flashBytes l) (s_flashTotal l) (s_partitionValid l)
    (s_validatedPartition l) (s_lastAckedCmd l) (s_wifiConnectResult l)
    (s_wifiConnectSuccess l) (s_rcsConnected l) (s_rcsCallback l) (s_bleState l).
Definition set_connected v (l : Link) : Link :=
  mkLink (s_version l) v (s_flashing l) (s_flashComplete l) (s_flashError l)
    (s_flashErrorCode l) (s_flashBytes l) (s_flashTotal l) (s_partitionValid l)
    (s_validatedPartition l) (s_lastAckedCmd l) (s_wifiConnectResult l)
    (s_wifiConnectSuccess l) (s_rcsConnected l) (s_rcsCallback l) (s_bleState l).
Definition set_flashing v (l : Link) : Link :=
  mkLink (s_version l) (s_connected l) v (s_flashComplete l) (s_flashError l)
    (s_flashErrorCode l) (s_flashBytes l) (s_flashTotal l) (s_partitionValid l)
    (s_validatedPartition l) (s_lastAckedCmd l) (s_wifiConnectResult l)
    (s_wifiConnectSuccess l) (s_rcsConnected l) (s_rcsCallback l) (s_bleState l).
Definition set_flashComplete v (l : Link) : Link :=
  mkLink (s_version l) (s_connected l) (s_flashing l) v (s_flashError l)
    (s_flashErrorCode l) (s_flashBytes l) (s_flashTotal l) (s_partitionValid l)
    (s_validatedPartition l) (s_lastAckedCmd l) (s_wifiConnectResult l)
    (s_wifiConnectSuccess l) (s_rcsConnected l) (s_rcsCallback l) (s_bleState l).
Definition set_flashError v (l : Link) : Link :=
  mkLink (s_version l) (s_connected l) (s_flashing l) (s_flashComplete l) v
    (s_flashErrorCode l) (s_flashBytes l) (s_flashTotal l) (s_partitionValid l)
    (s_validatedPartition l) (s_lastAckedCmd l) (s_wifiConnectResult l)
    (s_wifiConnectSuccess l) (s_rcsConnected l) (s_rcsCallback l) (s_bleState l).
Definition set_flashErrorCode v (l : Link) : Link :=
  mkLink (s_version l) (s_connected l) (s_flashing l) (s_flashComplete l)
    (s_flashError l) v (s_flashBytes l) (s_flashTotal l) (s_partitionValid l)
    (s_validatedPartition l) (s_lastAckedCmd l) (s_wifiConnectResult l)
    (s_wifiConnectSuccess l) (s_rcsConnected l) (s_rcsCallback l) (s_bleState l).
Definition set_flashBytes v (l : Link) : Link :=
  mkLink (s_version l) (s_connected l) (s_flashing l) (s_flashComplete l)
    (s_flashError l) (s_flashErrorCode l) v (s_flashTotal l) (s_partitionValid l)
    (s_validatedPartition l) (s_lastAckedCmd l) (s_wifiConnectResult l)
    (s_wifiConnectSuccess l) (s_rcsConnected l) (s_rcsCallback l) (s_bleState l).
Definition set_flashTotal v (l : Link) : Link :=
  mkLink (s_version l) (s_connected l) (s_flashing l) (s_flashComplete l)
    (s_flashError l) (s_flashErrorCode l) (s_flashBytes l) v (s_partitionValid l)
    (s_validatedPartition l) (s_lastAckedCmd l) (s_wifiConnectResult l)
    (s_wifiConnectSuccess l) (s_rcsConnected l) (s_rcsCallback l) (s_bleState l).
Definition set_partitionValid v (l : Link) : Link :=
  mkLink (s_version l) (s_connected l) (s_flashing l) (s_flashComplete l)
    (s_flashError l) (s_flashErrorCode l) (s_flashBytes l) (s_flashTotal l) v
    (s_validatedPartition l) (s_lastAckedCmd l) (s_wifiConnectResult l)
    (s_wifiConnectSuccess l) (s_rcsConnected l) (s_rcsCallback l) (s_bleState l).
Definition set_validatedPartition v (l : Link) : Link :=
  mkLink (s_version l) (s_connected l) (s_flashing l) (s_flashComplete l)
    (s_flashError l) (s_flashErrorCode l) (s_flashBytes l) (s_flashTotal l)
    (s_partitionValid l) v (s_lastAckedCmd l) (s_wifiConnectResult l)
    (s_wifiConnectSuccess l) (s_rcsConnected l) (s_rcsCallback l) (s_bleState l).
Definition set_lastAckedCmd v (l : Link) : Link :=
  mkLink (s_version l) (s_connected l) (s_flashing l) (s_flashComplete l)
    (s_flashError l) (s_flashErrorCode l) (s_flashBytes l) (s_flashTotal l)
    (s_partitionValid l) (s_validatedPartition l) v (s_wifiConnectResult l)
    (s_wifiConnectSuccess l) (s_rcsConnected l) (s_rcsCallback l) (s_bleState l).
Definition set_wifiConnectResult v (l : Link) : Link :=
  mkLink (s_version l) (s_connected l) (s_flashing l) (s_flashComplete l)
    (s_flashError l) (s_flashErrorCode l) (s_flashBytes l) (s_flashTotal l)
    (s_partitionValid l) (s_validatedPartition l) (s_lastAckedCmd l) v
    (s_wifiConnectSuccess l) (s_rcsConnected l) (s_rcsCallback l) (s_bleState l).
Definition set_wifiConnectSuccess v (l : Link) : Link :=
  mkLink (s_version l) (s_connected l) (s_flashing l) (s_flashComplete l)
    (s_flashError l) (s_flashErrorCode l) (s_flashBytes l) (s_flashTotal l)
    (s_partitionValid l) (s_validatedPartition l) (s_lastAckedCmd l)
    (s_wifiConnectResult l) v (s_rcsConnected l) (s_rcsCallback l) (s_bleState l).
Definition set_rcsConnected v (l : Link) : Link :=
  mkLink (s_version l) (s_connected l) (s_flashing l) (s_flashComplete l)
    (s_flashError l) (s_flashErrorCode l) (s_flashBytes l) (s_flashTotal l)
    (s_partitionValid l) (s_validatedPartition l) (s_lastAckedCmd l)
    (s_wifiConnectResult l) (s_wifiConnectSuccess l) v (s_rcsCallback l) (s_bleState l).
Definition set_rcsCallback v (l : Link) : Link :=
  mkLink (s_version l) (s_connected l) (s_flashing l) (s_flashComplete l)
    (s_flashError l) (s_flashErrorCode l) (s_flashBytes l) (s_flashTotal l)
    (s_partitionValid l) (s_validatedPartition l) (s_lastAckedCmd l)
    (s_wifiConnectResult l) (s_wifiConnectSuccess l) (s_rcsConnected l) v (s_bleState l).
Definition set_bleState v (l : Link) : Link :=
  mkLink (s_version l) (s_connected l) (s_flashing l) (s_flashComplete l)
    (s_flashError l) (s_flashErrorCode l) (s_flashBytes l) (s_flashTotal l)
    (s_partitionValid l) (s_validatedPartition l) (s_lastAckedCmd l)
    (s_wifiConnectResult l) (s_wifiConnectSuccess l) (s_rcsConnected l)
    (s_rcsCallback l) v.

(** [memcpy(&word, &data[k], 4)] into a [uint32_t] on the little-endian AVR. *)
Definition le32 (msg : list Z) (k : nat) : Z :=
  rd msg k + 2^8 * rd msg (k + 1) + 2^16 * rd msg (k + 2) + 2^24 * rd msg (k + 3).

(** [data[i]] with [data = &msg[4]]. *)
Definition data_at (msg : list Z) (i : nat) : Z := rd msg (4 + i).

(** The bytes [data[0 .. dataLen-1]] the debug and RCS handlers pass on
    ([dataLen] is the raw length byte [msg[3]], not the clamped one).  A
    length byte above 44 points past the end of the 48-byte buffer: what the
    code finds there is not modelled (the list reads 0), and no theorem
    speaks of those bytes. *)
Definition data_bytes (msg : list Z) (dataLen : Z) : list Z :=
  data_at msg <$> seq 0 (Z.to_nat dataLen).

(** [void FEHESP32::handleMessage(const uint8_t *msg, uint8_t len)] *)
Definition handleMessage (msg : list Z) (len : Z) (d : Driver) : Driver :=
  if len <? 4 then d
  else
    let cmd := rd msg 2 in
    if cmd =? RSP_ACK then
      if 5 <=? len then on_link (set_lastAckedCmd (data_at msg 0)) d else d
    else if cmd =? RSP_PONG then
      if 8 <=? len then
        on_link (set_version (mkVersion (data_at msg 0) (data_at msg 1)
                                        (data_at msg 2) (data_at msg 3))) d
      else d
    else if cmd =? NOTIFY_DEBUG then
      if 4 <? len then
        emit (SerialPrintln [])
          (emit (SerialWrite (data_bytes msg (rd msg 3)))
             (emit (SerialPrint "ESP32 DEBUG: "%string) d))
      else d
    else if cmd =? NOTIFY_WIFI_CONNECTED then
      on_link (λ l, set_wifiConnectSuccess true
                      (set_wifiConnectResult true (set_connected true l))) d
    else if (cmd =? NOTIFY_WIFI_DISCONNECTED) || (cmd =? NOTIFY_WIFI_FAILED) then
      on_link (λ l, set_wifiConnectSuccess false
                      (set_wifiConnectResult true (set_connected false l))) d
    else if cmd =? NOTIFY_RCS_CONNECTED then
      on_link (set_rcsConnected true) d
    else if cmd =? NOTIFY_RCS_DISCONNECTED then
      on_link (set_rcsConnected false) d
    else if cmd =? NOTIFY_RCS_DATA then
      match s_rcsCallback (link d) with
      | Some fn =>
          if 4 <? len
          then emit (RcsCallback fn (data_bytes msg (rd msg 3)) (rd msg 3)) d
          else d
      | None => d
      end
    else if cmd =? NOTIFY_FLASH_PROGRESS then
      if 12 <=? len then
        on_link (λ l, set_flashing true
                        (set_flashTotal (le32 msg 8)
                           (set_flashBytes (le32 msg 4) l))) d
      else d
    else if cmd =? NOTIFY_FLASH_COMPLETE then
      on_link (λ l, set_flashComplete true (set_flashing false l)) d
    else if cmd =? NOTIFY_FLASH_FAILED then
      let d1 := on_link (λ l, set_flashError true (set_flashing false l)) d in
      if 5 <=? len then on_link (set_flashErrorCode (data_at msg 0)) d1 else d1
    else if cmd =? RSP_PARTITION_VALID then
      if 5 <=? len then
        on_link (λ l, set_validatedPartition (data_at msg 0)
                        (set_partitionValid true l)) d
      else d
    else if cmd =? RSP_BLE_STATUS then
      if 5 <=? len then on_link (set_bleState (data_at msg 0)) d else d
    else if cmd =? NOTIFY_BLE_CLIENT_EVENT then
      if 5 <=? len then
        if data_at msg 0 =? BLE_EVENT_CLIENT_CONNECTED
        then on_link (set_bleState BLE_STATE_CONNECTED) d
        else if data_at msg 0 =? BLE_EVENT_CLIENT_DISCONNECTED
        then on_link (set_bleState BLE_STATE_ADVERTISING) d
        else d
      else d
    else d.

Definition Machine := ESP32.Machine Driver.

Definition on_driver (f : Driver -> Driver) (m : Machine) : Machine :=
  mkMachine (board m) (esp m) (f (client m)).

(** [void FEHESP32::init()] *)
Definition init (m : Machine) : Machine := ESP32.init (Some handleMessage) m.

(** [void FEHESP32::begin()] *)
Definition begin (m : Machine) : Machine := ESP32.powerOn false m.

(** [void FEHESP32::poll()] *)
Definition poll (m : Machine) : Machine := ESP32.poll m.

(** [bool FEHESP32::ping()] *)
Definition ping (m : Machine) : bool * Machine :=
  ESP32.sendCommand CMD_PING None 0 m.

(** [strlen] of a C string given by its bytes up to the terminator, as the
    code keeps it: narrowed to [uint8_t]. *)
Definition strlen8 (s : list Z) : Z := u8 (Z.of_nat (length s)).

(** The local [buf[34]] of [connectWifi] as filled before the send:
    [buf[0] = ssidLen; memcpy(&buf[1], ssid, ssidLen); buf[1 + ssidLen] = passLen;
     if (passLen > 0) memcpy(&buf[2 + ssidLen], password, passLen);] *)
Definition connectWifi_buf (ssid password : list Z) : list Z :=
  let ssidLen := strlen8 ssid in
  let passLen := strlen8 password in
  let buf := replicate 34 0 in
  let buf := <[0%nat := ssidLen]> buf in
  let buf := memcpy 1 ssid ssidLen buf in
  let buf := <[Z.to_nat (1 + ssidLen) := passLen]> buf in
  if 0 <? passLen
  then memcpy (Z.to_nat (2 + ssidLen)) password passLen buf
  else buf.

(** [bool FEHESP32::connectWifi(const char *ssid, const char *password)] *)
Definition connectWifi (ssid password : list Z) (m : Machine)
  : bool * Machine :=
  let ssidLen := strlen8 ssid in
  let passLen := strlen8 password in
  if (16 <? ssidLen) || (16 <? passLen) then (false, m)
  else
    ESP32.sendCommand CMD_WIFI_CONNECT (Some (connectWifi_buf ssid password))
                      (u8 (2 + ssidLen + passLen)) m.

(** The local [buf[41]] and the final [pos] of [connectWifiFast]:
    SSID and password as above, then the 6-byte BSSID and the channel. *)
Definition connectWifiFast_buf (ssid password mac : list Z) (channel : Z)
  : list Z * Z :=
  let ssidLen := strlen8 ssid in
  let passLen := strlen8 password in
  let buf := replicate 41 0 in
  let pos := 0 in
  let buf := <[Z.to_nat pos := ssidLen]> buf in
  let pos := pos + 1 in
  let buf := memcpy (Z.to_nat pos) ssid ssidLen buf in
  let pos := pos + ssidLen in
  let buf := <[Z.to_nat pos := passLen]> buf in
  let pos := pos + 1 in
  let '(buf, pos) :=
    if 0 <? passLen
    then (memcpy (Z.to_nat pos) password passLen buf, pos + passLen)
    else (buf, pos) in
  let buf := memcpy (Z.to_nat pos) mac 6 buf in
  let pos := pos + 6 in
  let buf := <[Z.to_nat pos := channel]> buf in
  let pos := pos + 1 in
  (buf, u8 pos).

(** [bool FEHESP32::connectWifiFast(ssid, password, bssid, channel)];
    [bssid = None] is the null pointer. *)
Definition connectWifiFast (ssid password : list Z) (bssid : option (list Z))
  (channel : Z) (m : Machine) : bool * Machine :=
  let ssidLen := strlen8 ssid in
  let passLen := strlen8 password in
  match bssid with
  | None => (false, m)
  | Some mac =>
      if (16 <? ssidLen) || (16 <? passLen) then (false, m)
      else
        let '(buf, pos) := connectWifiFast_buf ssid password mac channel in
        let m1 := on_driver (λ d,
                    emit (SerialPrintln ssid)
                      (emit (SerialPrint "FEHESP32::connectWifiFast called with SSID: "%string) d)) m in
        ESP32.sendCommand CMD_WIFI_CONNECT_FAST (Some buf) pos m1
  end.

(** [void FEHESP32::reset(bool factoryReset)] *)
Definition reset (factoryReset : bool) (m : Machine) : Machine :=
  let m1 := ESP32.reset factoryReset m in
  on_driver (on_link (λ l,
    set_bleState BLE_STATE_OFF
      (set_rcsConnected false
         (set_wifiConnectSuccess false
            (set_wifiConnectResult false
               (set_lastAckedCmd 0x00
                  (set_validatedPartition 0xFF
                     (set_partitionValid false
                        (set_flashError false
                           (set_flashComplete false
                              (set_flashing false
                                 (set_connected false
                                    (set_version (mkVersion 0 0 0 0xFF) l))))))))))))) m1.

(** The loop of [waitForAck]:
    [while (millis() - startTime < timeoutMs)
       { poll(); if (s_lastAckedCmd == cmdId) return true; delay(10); }
     return false;]
    [None] when the fuel ends with the loop still live. *)
Fixpoint waitForAck_loop (fuel : nat) (cmdId startTime timeoutMs : Z)
  (m : Machine) : option (bool * Machine) :=
  if (millis (board m) - startTime) mod 2^32 <? timeoutMs then
    match fuel with
    | O => None
    | S fuel' =>
        let m1 := poll m in
        if s_lastAckedCmd (link (client m1)) =? cmdId then Some (true, m1)
        else waitForAck_loop fuel' cmdId startTime timeoutMs
               (on_board (delay 10) m1)
    end
  else Some (false, m).

(** [bool FEHESP32::waitForAck(uint8_t cmdId, uint32_t timeoutMs)] *)
Definition waitForAck (fuel : nat) (cmdId timeoutMs : Z) (m : Machine)
  : option (bool * Machine) :=
  let m0 := on_driver (on_link (set_lastAckedCmd 0x00)) m in
  let startTime := millis (board m0) in
  waitForAck_loop fuel cmdId startTime timeoutMs m0.


(** ** Sample machines *)

(** The statics as the C++ runtime zero- or constant-initialises them. *)
Definition power_on : Machine :=
  mkMachine (mkBoard 0 true false false [] []) (mkStatics None 0 false)
            (mkDriver initial_link []).

(** After [FEHESP32::init()] and [FEHESP32::begin()], with the peer's coming
    answers queued. *)
Definition ready (answers : list (list Z)) : Machine :=
  on_board (λ b, mkBoard (clock b) (pin_CS b) (pin_EN b) (pin_SPARE b)
                         (spi_tx b) answers)
           (begin (init power_on)).

(** Frames a peer can send. *)
Definition frame_ack (cmdId : Z) : list Z := [0xAA; 0x55; RSP_ACK; 1; cmdId].
Definition frame_flash_progress_100_of_1000 : list Z :=
  [0xAA; 0x55; NOTIFY_FLASH_PROGRESS; 8; 100; 0; 0; 0; 0xE8; 0x03; 0; 0].
Definition frame_flash_failed (code : Z) : list Z :=
  [0xAA; 0x55; NOTIFY_FLASH_FAILED; 1; code].
Definition frame_flash_failed_no_code : list Z :=
  [0xAA; 0x55; NOTIFY_FLASH_FAILED; 0].

(** A session in which a download went to 100 of 1000 bytes and then failed
    with error code 5. *)
Definition after_failed_flash : Machine :=
  poll (poll (ready [frame_flash_progress_100_of_1000; frame_flash_failed 5])).

(** ** [reset] *)

Lemma reset_link factoryReset m :
  link (client (reset factoryReset m)) =
    mkLink (mkVersion 0 0 0 0xFF) false false false false
           (s_flashErrorCode (link (client m)))
           (s_flashBytes (link (client m)))
           (s_flashTotal (link (client m)))
           false 0xFF 0x00 false false false
           (s_rcsCallback (link (client m))) BLE_STATE_OFF.
Proof. reflexivity. Qed.

(** C2 on the code.  [reset] restores twelve fields to their initial values
    but assigns neither the flash byte counter, nor the flash total, nor the
    flash error code: they keep whatever the session had put there (as does
    the registered RCS callback, which is configuration).  After a
    download that failed at 100 of 1000 bytes with code 5, the state after
    [reset(false)] still reads 100, 1000 and 5, and is not the initial
    state. *)
Theorem reset_keeps_flash_counters :
  (∀ factoryReset m,
     link (client (reset factoryReset m)) =
       set_rcsCallback (s_rcsCallback (link (client m)))
         (set_flashTotal (s_flashTotal (link (client m)))
            (set_flashBytes (s_flashBytes (link (client m)))
               (set_flashErrorCode (s_flashErrorCode (link (client m)))
                  initial_link))) ∧
     s_flashBytes (link (client (reset factoryReset m))) =
       s_flashBytes (link (client m)) ∧
     s_flashTotal (link (client (reset factoryReset m))) =
       s_flashTotal (link (client m)) ∧
     s_flashErrorCode (link (client (reset factoryReset m))) =
       s_flashErrorCode (link (client m))) ∧
  s_flashBytes (link (client (reset false after_failed_flash))) = 100 ∧
  s_flashTotal (link (client (reset false after_failed_flash))) = 1000 ∧
  s_flashErrorCode (link (client (reset false after_failed_flash))) = 5 ∧
  s_flashBytes initial_link = 0 ∧
  s_flashTotal initial_link = 0 ∧
  s_flashErrorCode initial_link = 0 ∧
  link (client (reset false after_failed_flash)) <> initial_link.
Proof.
  split.
  { intros factoryReset m. by rewrite reset_link. }
  rewrite reset_link.
  assert (s_flashBytes (link (client after_failed_flash)) = 100) as Hb
    by reflexivity.
  repeat split; try reflexivity.
  intros Heq. apply (f_equal s_flashBytes) in Heq. cbn in Heq.
  rewrite Hb in Heq. discriminate.
Qed.

(** ** [handleMessage] on short messages *)

(** The total length ([len], header included) each handler asks for before
    it reads payload bytes; [None] for the commands whose handler reads
    none. *)
Definition decoded_len (cmd : Z) : option Z :=
  if cmd =? RSP_ACK then Some 5
  else if cmd =? RSP_PONG then Some 8
  else if cmd =? NOTIFY_DEBUG then Some 5
  else if cmd =? NOTIFY_RCS_DATA then Some 5
  else if cmd =? NOTIFY_FLASH_PROGRESS then Some 12
  else if cmd =? NOTIFY_FLASH_FAILED then Some 5
  else if cmd =? RSP_PARTITION_VALID then Some 5
  else if cmd =? RSP_BLE_STATUS then Some 5
  else if cmd =? NOTIFY_BLE_CLIENT_EVENT then Some 5
  else None.

Lemma handleMessage_below_header msg len d :
  len < 4 -> handleMessage msg len d = d.
Proof.
  intros Hlen. unfold handleMessage.
  by destruct (Z.ltb_spec len 4); [|lia].
Qed.

Lemma handleMessage_short msg len d need :
  4 <= len -> decoded_len (rd msg 2) = Some need -> len < need ->
  handleMessage msg len d =
    if rd msg 2 =? NOTIFY_FLASH_FAILED
    then on_link (λ l, set_flashError true (set_flashing false l)) d
    else d.
Proof.
  intros Hhdr Hneed Hshort. unfold handleMessage, decoded_len in *.
  destruct (Z.ltb_spec len 4); [lia|].
  destruct (Z.eqb_spec (rd msg 2) RSP_ACK) as [->|?].
  { injection Hneed as <-. cbn. by destruct (Z.leb_spec 5 len); [lia|]. }
  destruct (Z.eqb_spec (rd msg 2) RSP_PONG) as [->|?].
  { injection Hneed as <-. cbn. by destruct (Z.leb_spec 8 len); [lia|]. }
  destruct (Z.eqb_spec (rd msg 2) NOTIFY_DEBUG) as [->|?].
  { injection Hneed as <-. cbn. by destruct (Z.ltb_spec 4 len); [lia|]. }
  destruct (Z.eqb_spec (rd msg 2) NOTIFY_WIFI_CONNECTED) as [Heq|?].
  { by rewrite Heq in Hneed. }
  destruct (Z.eqb_spec (rd msg 2) NOTIFY_WIFI_DISCONNECTED) as [Heq|?].
  { by rewrite Heq in Hneed. }
  destruct (Z.eqb_spec (rd msg 2) NOTIFY_WIFI_FAILED) as [Heq|?].
  { by rewrite Heq in Hneed. }
  cbn [orb].
  destruct (Z.eqb_spec (rd msg 2) NOTIFY_RCS_CONNECTED) as [Heq|?].
  { by rewrite Heq in Hneed. }
  destruct (Z.eqb_spec (rd msg 2) NOTIFY_RCS_DISCONNECTED) as [Heq|?].
  { by rewrite Heq in Hneed. }
  destruct (Z.eqb_spec (rd msg 2) NOTIFY_RCS_DATA) as [->|?].
  { injection Hneed as <-. cbn.
    destruct (s_rcsCallback (link d)); [|done].
    by destruct (Z.ltb_spec 4 len); [lia|]. }
  destruct (Z.eqb_spec (rd msg 2) NOTIFY_FLASH_PROGRESS) as [->|?].
  { injection Hneed as <-. cbn. by destruct (Z.leb_spec 12 len); [lia|]. }
  destruct (Z.eqb_spec (rd msg 2) NOTIFY_FLASH_COMPLETE) as [Heq|?].
  { by rewrite Heq in Hneed. }
  destruct (Z.eqb_spec (rd msg 2) NOTIFY_FLASH_FAILED) as [Heq|?].
  { cbn in Hneed. injection Hneed as <-.
    by destruct (Z.leb_spec 5 len); [lia|]. }
  destruct (Z.eqb_spec (rd msg 2) RSP_PARTITION_VALID) as [Heq|?].
  { cbn in Hneed. injection Hneed as <-.
    by destruct (Z.leb_spec 5 len); [lia|]. }
  destruct (Z.eqb_spec (rd msg 2) RSP_BLE_STATUS) as [Heq|?].
  { cbn in Hneed. injection Hneed as <-.
    by destruct (Z.leb_spec 5 len); [lia|]. }
  destruct (Z.eqb_spec (rd msg 2) NOTIFY_BLE_CLIENT_EVENT) as [Heq|?].
  { cbn in Hneed. injection Hneed as <-.
    by destruct (Z.leb_spec 5 len); [lia|]. }
  done.
Qed.


(** C3 on the code.  A message shorter than the 4-byte header, or shorter
    than the length its handler asks for before reading payload bytes, leaves
    the driver state (statics and emitted effects) exactly as it was, with
    one exception: a flash-failed notification without its error-code byte
    still clears the flashing flag and raises the flash-error flag; it leaves
    the error code and every other field alone. *)
Theorem handleMessage_underlength msg len d need :
  len < 4 ∨ (decoded_len (rd msg 2) = Some need ∧ len < need) ->
  (len < 4 ∨ rd msg 2 <> NOTIFY_FLASH_FAILED -> handleMessage msg len d = d) ∧
  (4 <= len ∧ rd msg 2 = NOTIFY_FLASH_FAILED ->
     handleMessage msg len d =
       on_link (λ l, set_flashError true (set_flashing false l)) d ∧
     s_flashErrorCode (link (handleMessage msg len d)) =
       s_flashErrorCode (link d) ∧
     trace (handleMessage msg len d) = trace d).
Proof.
  intros Hshort.
  destruct (Z.lt_ge_cases len 4) as [Hhdr|Hhdr].
  { split; [intros _; by apply handleMessage_below_header|intros [? _]; lia]. }
  destruct Hshort as [?|[Hneed Hlen]]; [lia|].
  rewrite (handleMessage_short msg len d need) by (done || lia).
  split.
  - intros [?|Hcmd]; [lia|]. by destruct (Z.eqb_spec (rd msg 2) NOTIFY_FLASH_FAILED).
  - intros [_ ->]. done.
Qed.

Lemma handleMessage_underlength_witness :
  handleMessage [0xAA; 0x55; RSP_ACK; 0] 4 (mkDriver initial_link []) =
    mkDriver initial_link [] ∧
  handleMessage frame_flash_progress_100_of_1000 11 (mkDriver initial_link []) =
    mkDriver initial_link [].
Proof.
  split.
  - apply (handleMessage_underlength [0xAA; 0x55; RSP_ACK; 0] 4
             (mkDriver initial_link []) 5);
      [right; split; [reflexivity|lia] | right; discriminate].
  - apply (handleMessage_underlength frame_flash_progress_100_of_1000 11
             (mkDriver initial_link []) 12);
      [right; split; [reflexivity|lia] | right; discriminate].
Defined.

(** C3 as stated fails: the flash-failed notification with no payload is
    under-length for the error code it is meant to carry, and the dispatcher
    still changes the state. *)
Lemma handleMessage_short_flash_failed_updates :
  decoded_len (rd frame_flash_failed_no_code 2) = Some 5 ∧
  s_flashError (link (mkDriver initial_link [])) = false ∧
  s_flashError
    (link (handleMessage frame_flash_failed_no_code 4 (mkDriver initial_link [])))
    = true ∧
  handleMessage frame_flash_failed_no_code 4 (mkDriver initial_link []) <>
    mkDriver initial_link [].
Proof. repeat split; try reflexivity. discriminate. Qed.


(** ** [waitForAck] *)

(** The received buffer is an acknowledgement that carries [cmdId]: sync
    marker, [RSP_ACK], at least one payload byte, and that byte is [cmdId]. *)
Definition is_ack_for (cmdId : Z) (rx : list Z) : bool :=
  (rd rx 0 =? UPDATER_PROTOCOL_SYNC_BYTE_1) &&
  (rd rx 1 =? UPDATER_PROTOCOL_SYNC_BYTE_2) &&
  (rd rx 2 =? RSP_ACK) && (1 <=? rd rx 3) && (rd rx 4 =? cmdId).

(** The driver is initialised and its dispatcher is the transport's
    callback, as [FEHESP32::init] leaves things. *)
Definition linked (m : Machine) : Prop :=
  s_isInitialized (esp m) = true ∧ s_rxCallback (esp m) = Some handleMessage.

Lemma rd_rx_buffer_range answer i : 0 <= rd (rx_buffer answer) i < 256.
Proof.
  unfold rd, rx_buffer. rewrite list_lookup_fmap.
  destruct (_ !! i) as [z|]; [|cbn; lia].
  change (0 <= z mod 256 < 256). apply Z.mod_pos_bound. lia.
Qed.

Lemma handleMessage_slot msg len d :
  s_lastAckedCmd (link (handleMessage msg len d)) =
    if (4 <=? len) && (rd msg 2 =? RSP_ACK) && (5 <=? len)
    then data_at msg 0 else s_lastAckedCmd (link d).
Proof.
  unfold handleMessage.
  destruct (Z.ltb_spec len 4), (Z.leb_spec 4 len); try lia; [done|].
  cbv zeta. cbn [andb].
  destruct (Z.eqb_spec (rd msg 2) RSP_ACK) as [Heq|Hcmd]; cbn [andb].
  { by destruct (5 <=? len). }
  repeat case_match; reflexivity.
Qed.

Lemma poll_linked m :
  linked m ->
  linked (poll m) ∧
  clock (board (poll m)) = clock (board m) ∧
  spi_rx (board (poll m)) = tail (spi_rx (board m)) ∧
  s_lastAckedCmd (link (client (poll m))) =
    if is_ack_for (rd (nth_rx (board m) 0) 4) (nth_rx (board m) 0)
    then rd (nth_rx (board m) 0) 4
    else s_lastAckedCmd (link (client m)).
Proof.
  intros [Hinit Hcb]. unfold poll, ESP32.poll, linked. rewrite Hinit.
  cbn [negb spiTransfer].
  set (rx := nth_rx (board m) 0).
  pose proof (rd_rx_buffer_range (default [] (spi_rx (board m) !! 0%nat)) 3)
    as Hbyte. fold (nth_rx (board m) 0) in Hbyte. fold rx in Hbyte.
  unfold handleReceivedMessage, is_ack_for. cbn [esp board client].
  rewrite Z.eqb_refl, andb_true_r.
  destruct (Z.eqb_spec (rd rx 0) UPDATER_PROTOCOL_SYNC_BYTE_1);
    destruct (Z.eqb_spec (rd rx 1) UPDATER_PROTOCOL_SYNC_BYTE_2);
    cbn [negb orb andb]; try done.
  rewrite Hcb. cbn [esp board client]. repeat split; try done.
  rewrite handleMessage_slot, rx_totalLen_value by lia.
  unfold data_at. cbn [Nat.add].
  destruct (Z.eqb_spec (rd rx 2) RSP_ACK); cbn [andb];
    [|by rewrite andb_false_r].
  destruct (Z.leb_spec 1 (rd rx 3)), (Z.leb_spec 4 (4 + Z.min (rd rx 3) 44)),
    (Z.leb_spec 5 (4 + Z.min (rd rx 3) 44)); try lia; done.
Qed.

Lemma is_ack_for_carries cmdId rx :
  is_ack_for cmdId rx = true <->
  is_ack_for (rd rx 4) rx = true ∧ rd rx 4 = cmdId.
Proof.
  unfold is_ack_for. rewrite !andb_true_iff, !Z.eqb_eq. split.
  - intros ((((? & ?) & ?) & ?) & ?). by repeat split.
  - intros [((((? & ?) & ?) & ?) & _) ?]. by repeat split.
Qed.

Lemma elapsed_ms c0 j timeout :
  0 <= timeout <= 2^32 - 10 -> 0 <= 10 * j < timeout + 10 ->
  (((c0 + 10 * j) mod 2^32 - c0 mod 2^32) mod 2^32) = 10 * j.
Proof.
  intros Ht Hj. rewrite <- Zminus_mod.
  replace (c0 + 10 * j - c0) with (10 * j) by lia.
  apply Z.mod_small. lia.
Qed.

Lemma nth_rx_after_poll m k :
  linked m ->
  nth_rx (board (on_board (delay 10) (poll m))) k = nth_rx (board m) (S k).
Proof.
  intros Hm. destruct (poll_linked m Hm) as (_ & _ & Hrx & _).
  unfold nth_rx. cbn. rewrite Hrx. by rewrite lookup_tail.
Qed.

(** The loop, entered for the [j]-th time at clock [c0 + 10 j] with the slot
    not holding [cmdId]: it returns, and returns [true] exactly when one of
    the polls still to come before the deadline brings an ack for [cmdId]. *)
Lemma waitForAck_loop_spec fuel cmdId c0 timeout (j : nat) m :
  linked m ->
  s_lastAckedCmd (link (client m)) <> cmdId ->
  0 <= timeout <= 2^32 - 10 ->
  clock (board m) = c0 + 10 * Z.of_nat j ->
  10 * Z.of_nat j < timeout + 10 ->
  timeout <= 10 * (Z.of_nat j + Z.of_nat fuel) ->
  ∃ b m',
    waitForAck_loop fuel cmdId (c0 mod 2^32) timeout m = Some (b, m') ∧
    (b = true <->
     ∃ k : nat, 10 * (Z.of_nat j + Z.of_nat k) < timeout ∧
                is_ack_for cmdId (nth_rx (board m) k) = true) ∧
    (b = true -> s_lastAckedCmd (link (client m')) = cmdId).
Proof.
  revert j m. induction fuel as [|fuel IH];
    intros j m Hm Hslot Ht Hclock Hj Hfuel.
  - exists false, m. cbn [waitForAck_loop]. unfold millis. rewrite Hclock.
    rewrite (elapsed_ms c0 (Z.of_nat j) timeout) by lia.
    destruct (Z.ltb_spec (10 * Z.of_nat j) timeout); [lia|].
    split; [done|]. split; [|done].
    split; [done|]. intros (k & Hk & _). lia.
  - cbn [waitForAck_loop]. unfold millis. rewrite Hclock.
    rewrite (elapsed_ms c0 (Z.of_nat j) timeout) by lia.
    destruct (Z.ltb_spec (10 * Z.of_nat j) timeout) as [Hin|Hout]; last first.
    { exists false, m. split; [done|]. split; [|done].
      split; [done|]. intros (k & Hk & _). lia. }
    destruct (poll_linked m Hm) as (Hm1 & Hclock1 & Hrx1 & Hslot1).
    destruct (Z.eqb_spec (s_lastAckedCmd (link (client (poll m)))) cmdId)
      as [Hhit|Hmiss].
    + exists true, (poll m). split; [done|]. split; [|done].
      split; [|done]. intros _. exists 0%nat. split; [lia|].
      rewrite Hslot1 in Hhit.
      destruct (is_ack_for (rd (nth_rx (board m) 0) 4) (nth_rx (board m) 0))
        eqn:Hack; [|done].
      by apply is_ack_for_carries.
    + destruct (IH (S j) (on_board (delay 10) (poll m)))
        as (b & m' & Hrun & Hiff & Hres); try done; try lia.
      { cbn. rewrite Hclock1, Hclock. lia. }
      exists b, m'. split; [done|]. split; [|done].
      rewrite Hiff. split.
      * intros (k & Hk & Hack). exists (S k). split; [lia|].
        by rewrite <- nth_rx_after_poll.
      * intros (k & Hk & Hack). destruct k as [|k].
        { exfalso. apply Hmiss. rewrite Hslot1.
          apply is_ack_for_carries in Hack as [-> ->]. done. }
        exists k. split; [lia|]. by rewrite nth_rx_after_poll.
Qed.


Lemma waitForAck_ignores_stale_slot fuel cmdId timeout stale m :
  waitForAck fuel cmdId timeout
    (on_driver (on_link (set_lastAckedCmd stale)) m) =
  waitForAck fuel cmdId timeout m.
Proof. reflexivity. Qed.

(** C9 on the code.  For a command id other than 0x00 and a driver set up by
    [init], [waitForAck] returns (within [timeout / 10 + 1] rounds), and it
    returns [true] exactly when one of the polls it makes before the deadline
    (poll [k] happens [10 k] ms after entry, while [10 k < timeout]) receives
    an ack that carries [cmdId].  It clears the slot on entry: whatever the
    slot held before the call has no influence on the result, and a zero
    timeout yields [false]. *)
Theorem waitForAck_true_iff_ack_polled cmdId timeout m :
  linked m ->
  cmdId <> 0x00 ->
  0 <= timeout <= 2^32 - 10 ->
  ∃ b m',
    waitForAck (Z.to_nat (timeout / 10 + 1)) cmdId timeout m = Some (b, m') ∧
    (b = true <->
     ∃ k : nat, 10 * Z.of_nat k < timeout ∧
                is_ack_for cmdId (nth_rx (board m) k) = true) ∧
    (b = true -> s_lastAckedCmd (link (client m')) = cmdId) ∧
    (timeout = 0 -> b = false) ∧
    (∀ stale,
       waitForAck (Z.to_nat (timeout / 10 + 1)) cmdId timeout
         (on_driver (on_link (set_lastAckedCmd stale)) m) = Some (b, m')).
Proof.
  intros Hm Hcmd Ht. unfold waitForAck.
  set (m0 := on_driver (on_link (set_lastAckedCmd 0)) m).
  destruct (waitForAck_loop_spec (Z.to_nat (timeout / 10 + 1)) cmdId
              (clock (board m)) timeout 0 m0)
    as (b & m' & Hrun & Hiff & Hres).
  { exact Hm. }
  { cbn. congruence. }
  { exact Ht. }
  { cbn. lia. }
  { lia. }
  { rewrite Z2Nat.id by (apply Z.add_nonneg_nonneg; [apply Z.div_pos|]; lia).
    pose proof (Z.mul_succ_div_gt timeout 10 ltac:(lia)). lia. }
  exists b, m'. split; [exact Hrun|]. split; [|split; [|split]].
  - rewrite Hiff. split; intros (k & Hk & Hack); exists k; (split; [lia|done]).
  - exact Hres.
  - intros ->. destruct b; [|done].
    destruct (proj1 Hiff eq_refl) as (k & Hk & _). lia.
  - intros stale. exact Hrun.
Qed.

Lemma waitForAck_true_iff_ack_polled_witness :
  ∃ m',
    waitForAck 101 0x31 1000 (ready [[]; frame_ack 0x10; frame_ack 0x31]) =
      Some (true, m').
Proof.
  destruct (waitForAck_true_iff_ack_polled 0x31 1000
              (ready [[]; frame_ack 0x10; frame_ack 0x31]))
    as (b & m' & Hrun & Hiff & _).
  - split; reflexivity.
  - discriminate.
  - lia.
  - exists m'. change (Z.to_nat (1000 / 10 + 1)) with 101%nat in Hrun.
    rewrite Hrun. do 2 f_equal. apply Hiff. exists 2%nat.
    split; [lia|reflexivity].
Defined.

(** With a silent peer the call polls once every 10 ms for the whole
    timeout and returns [false]; an ack recorded by an earlier exchange does
    not count. *)
Example waitForAck_times_out :
  (λ r, (r.1, length (spi_tx (board r.2)), clock (board r.2))) <$>
    waitForAck 101 0x31 1000 (ready []) = Some (false, 100%nat, 2500).
Proof. vm_compute. reflexivity. Qed.

Example waitForAck_stale_ack_ignored :
  let m := poll (ready [frame_ack 0x31]) in
  s_lastAckedCmd (link (client m)) = 0x31 ∧
  fst <$> waitForAck 101 0x31 1000 m = Some false.
Proof. vm_compute. split; reflexivity. Qed.

(** C9 as stated fails for the id 0x00: the slot is reset to 0x00 on entry,
    so with a silent peer (no ack is ever received) the first poll already
    leaves the slot equal to [cmdId] and the call returns [true]. *)
Lemma waitForAck_zero_id_matches_without_ack :
  spi_rx (board (ready [])) = [] ∧
  is_ack_for 0x00 (nth_rx (board (ready [])) 0) = false ∧
  fst <$> waitForAck 101 0x00 1000 (ready []) = Some true.
Proof. repeat split; vm_compute; reflexivity. Qed.


(** ** [connectWifi], [connectWifiFast] *)

(** "NET", "PW", an access point's address, and a 256-character SSID. *)
Definition ssid_NET : list Z := [0x4E; 0x45; 0x54].
Definition pass_PW : list Z := [0x50; 0x57].
Definition bssid_sample : list Z := [0xDE; 0xAD; 0xBE; 0xEF; 0x00; 0x01].
Definition ssid_256 : list Z := replicate 256 0x41.

Lemma strlen8_short s :
  (length s < 256)%nat -> strlen8 s = Z.of_nat (length s).
Proof. intros Hs. unfold strlen8, u8. apply Z.mod_small. lia. Qed.

(** The length test is made on the narrowed lengths. *)
Lemma connectWifi_rejects ssid password m :
  16 < strlen8 ssid ∨ 16 < strlen8 password ->
  connectWifi ssid password m = (false, m).
Proof.
  intros Hlong. unfold connectWifi.
  destruct (Z.ltb_spec 16 (strlen8 ssid)), (Z.ltb_spec 16 (strlen8 password));
    cbn [orb]; try done. lia.
Qed.

Lemma connectWifi_buf_head ssid password :
  rd (connectWifi_buf ssid password) 0 = strlen8 ssid.
Proof.
  unfold connectWifi_buf.
  assert (0 <= strlen8 ssid) as Hs0
    by (unfold strlen8, u8; apply Z.mod_pos_bound; lia).
  case_match; rewrite ?memcpy_below by lia.
  - unfold rd. rewrite list_lookup_insert_ne by lia.
    fold (rd (memcpy 1 ssid (strlen8 ssid) (<[0%nat:=strlen8 ssid]> (replicate 34 0))) 0).
    by rewrite memcpy_below by lia.
  - unfold rd. rewrite list_lookup_insert_ne by lia.
    fold (rd (memcpy 1 ssid (strlen8 ssid) (<[0%nat:=strlen8 ssid]> (replicate 34 0))) 0).
    by rewrite memcpy_below by lia.
Qed.

Lemma connectWifi_sends ssid password m :
  s_isInitialized (esp m) = true ->
  strlen8 ssid <= 16 -> strlen8 password <= 16 ->
  ∃ frame,
    (connectWifi ssid password m).1 = true ∧
    spi_tx (board (connectWifi ssid password m).2) =
      spi_tx (board m) ++ [frame] ∧
    rd frame 2 = CMD_WIFI_CONNECT.
Proof.
  intros Hinit Hs Hp. unfold connectWifi.
  destruct (Z.ltb_spec 16 (strlen8 ssid)), (Z.ltb_spec 16 (strlen8 password));
    try lia. cbn [orb].
  eexists. split; [by apply sendCommand_frame|].
  split; [by apply sendCommand_frame|].
  unfold tx_frame, prebuilt. rewrite connectWifi_buf_head.
  destruct (Z.eqb_spec (strlen8 ssid) UPDATER_PROTOCOL_SYNC_BYTE_1) as [Heq|_].
  { unfold UPDATER_PROTOCOL_SYNC_BYTE_1 in Heq. lia. }
  rewrite andb_false_r. cbn [andb].
  case_match; [by rewrite memcpy_below by lia|reflexivity].
Qed.

(** The literal exchange of the interface description: SSID "NET",
    password "PW". *)
Example connectWifi_NET_PW_frame :
  spi_tx (board (connectWifi ssid_NET pass_PW (ready [])).2) =
    [[0xAA; 0x55; 0x10; 0x07; 0x03; 0x4E; 0x45; 0x54; 0x02; 0x50; 0x57]
       ++ replicate 37 0].
Proof. reflexivity. Qed.

(** C10 on the code.  The two connect commands measure [ssid] and
    [password] with [strlen] narrowed to [uint8_t].  A 256-character SSID
    measures 0: the length test passes, and both commands return [true] and
    clock one connect frame out, although the SSID is far longer than 16
    bytes.  (With the same arguments but an SSID of 17 characters both
    return [false] and send nothing.) *)
Theorem connectWifi_accepts_256_byte_ssid :
  Z.of_nat (length ssid_256) = 256 ∧
  strlen8 ssid_256 = 0 ∧
  (connectWifi ssid_256 pass_PW (ready [])).1 = true ∧
  length (spi_tx (board (connectWifi ssid_256 pass_PW (ready [])).2)) = 1%nat ∧
  (connectWifiFast ssid_256 pass_PW (Some bssid_sample) 6 (ready [])).1 = true ∧
  length (spi_tx (board
    (connectWifiFast ssid_256 pass_PW (Some bssid_sample) 6 (ready [])).2)) = 1%nat ∧
  connectWifi (replicate 17 0x41) pass_PW (ready []) = (false, ready []) ∧
  connectWifiFast (replicate 17 0x41) pass_PW (Some bssid_sample) 6 (ready []) =
    (false, ready []).
Proof.
  assert (strlen8 ssid_256 = 0) as Hwrap by reflexivity.
  split; [reflexivity|]. split; [exact Hwrap|].
  destruct (connectWifi_sends ssid_256 pass_PW (ready []))
    as (frame & Hok & Htx & _); [reflexivity|rewrite Hwrap; lia|vm_compute; discriminate|].
  split; [exact Hok|]. split; [by rewrite Htx|].
  split; [reflexivity|]. split; [reflexivity|].
  split; [apply connectWifi_rejects; left; vm_compute; reflexivity|reflexivity].
Qed.

End FEHESP32.

(* ===================================================================== *)
(** * scheduler.cpp: further properties of the queue *)
(* ===================================================================== *)

Module SchedulerFacts.

Import Scheduler.

(** ** Millisecond conversion *)

(** X1.  [schedulerMsToTicks] is exact for every delay the 16-bit timer can
    hold: for 0 to 4194 ms it returns [ms * 1000 / 64] with no truncation,
    the largest number of 64-microsecond ticks not longer than the delay. *)
Theorem schedulerMsToTicks_exact ms :
  (0 <= ms <= 4194)%Z ->
  schedulerMsToTicks ms = (ms * 1000 / 64)%Z ∧
  uint16 (schedulerMsToTicks ms) ∧
  (64 * schedulerMsToTicks ms <= 1000 * ms < 64 * schedulerMsToTicks ms + 64)%Z.
Proof.
  intros Hms. unfold schedulerMsToTicks, uint16.
  rewrite (Z.mod_small ms) by lia.
  rewrite (Z.mod_small (ms * 1000)) by lia.
  assert (0 <= ms * 1000 / 64 < 2 ^ 16)%Z as Hq.
  { split; [apply Z.div_pos; lia|].
    apply Z.div_lt_upper_bound; lia. }
  rewrite Z.mod_small by exact Hq.
  split; [done|]. split; [exact Hq|].
  pose proof (Z.mul_div_le (ms * 1000) 64 ltac:(lia)).
  pose proof (Z.mul_succ_div_gt (ms * 1000) 64 ltac:(lia)). lia.
Qed.

Lemma schedulerMsToTicks_exact_witness :
  schedulerMsToTicks 100 = 1562%Z ∧ schedulerMsToTicks 4194 = 65531%Z.
Proof.
  split.
  - destruct (schedulerMsToTicks_exact 100) as [-> _]; [lia|reflexivity].
  - destruct (schedulerMsToTicks_exact 4194) as [-> _]; [lia|reflexivity].
Defined.

(** One millisecond more and the 16-bit result wraps. *)
Example schedulerMsToTicks_wraps_at_4195 : schedulerMsToTicks 4195 = 10%Z.
Proof. reflexivity. Qed.

(** ** Where a new event lands *)

Lemma insert_rev_split e r :
  StronglySorted (flip tick_le) r ->
  ∃ r2 r1,
    r = r2 ++ r1 ∧ insert_rev e r = r2 ++ e :: r1 ∧
    Forall (λ x, (ticks e < ticks x)%Z) r2 ∧
    Forall (λ x, (ticks x <= ticks e)%Z) r1.
Proof.
  induction 1 as [|x r Hr IH Hx]; simpl.
  { by exists [], []. }
  destruct (Z.ltb_spec (ticks e) (ticks x)) as [Hlt|Hge].
  - destruct IH as (r2 & r1 & -> & -> & H2 & H1).
    exists (x :: r2), r1. repeat split; try done. by constructor.
  - exists [], (x :: r). repeat split; try done.
    constructor; [done|].
    eapply Forall_impl; [exact Hx|]. unfold flip, tick_le. intros; lia.
Qed.

(** X2.  An accepted event is placed behind every pending entry whose
    (rebased) count is not larger than its own and in front of every entry
    with a larger count: entries with equal counts keep their scheduling
    order. *)
Theorem scheduleEvent_lands_after_equal_counts cb d s :
  queue_inv s ->
  numEventsPending s < SCHEDULER_MAX_EVENTS ->
  ∃ before after,
    elapse (TCNT4 (timer s)) <$> pending s = before ++ after ∧
    pending (scheduleEvent cb d s).2 =
      before ++ mkEvent cb (adjust_ticks d) :: after ∧
    Forall (λ e, (ticks e <= adjust_ticks d)%Z) before ∧
    Forall (λ e, (adjust_ticks d < ticks e)%Z) after.
Proof.
  intros (Hlen & _ & Hsorted) Hn.
  destruct (scheduleEvent_accepted cb d s Hlen Hn) as (_ & _ & _ & ->).
  destruct (insert_rev_split (mkEvent cb (adjust_ticks d))
              (reverse (elapse (TCNT4 (timer s)) <$> pending s)))
    as (r2 & r1 & Hsplit & -> & H2 & H1).
  { by apply StronglySorted_reverse, elapse_sorted. }
  exists (reverse r1), (reverse r2).
  rewrite reverse_app, reverse_cons, <- app_assoc. cbn.
  split; [|split; [done|]].
  - by rewrite <- reverse_app, <- Hsplit, reverse_involutive.
  - by rewrite !Forall_reverse.
Qed.

Lemma scheduleEvent_lands_after_equal_counts_witness :
  ∃ before after,
    elapse 4 <$> pending busy_state = before ++ after ∧
    pending (scheduleEvent 9 17 busy_state).2 =
      before ++ mkEvent 9 16 :: after ∧
    Forall (λ e, (ticks e <= 16)%Z) before ∧
    Forall (λ e, (16 < ticks e)%Z) after.
Proof.
  apply (scheduleEvent_lands_after_equal_counts 9 17 busy_state);
    [|vm_compute; lia].
  unfold queue_inv, busy_state, pending, tick_le, SCHEDULER_MAX_EVENTS. cbn.
  split; [reflexivity|]. split; [lia|]. repeat constructor; cbn; lia.
Defined.

(** The tie in the sample queue: the new event with 16 ticks goes behind the
    pending one that has 16 ticks left. *)
Example tie_goes_behind :
  pending (scheduleEvent 9 17 busy_state).2 =
    [mkEvent 1 6; mkEvent 2 16; mkEvent 9 16; mkEvent 2 21; mkEvent 3 36;
     mkEvent 2 86].
Proof. reflexivity. Qed.

Lemma busy_state_inv : queue_inv busy_state.
Proof.
  unfold queue_inv, busy_state, pending, tick_le, SCHEDULER_MAX_EVENTS. cbn.
  split; [reflexivity|]. split; [lia|]. repeat constructor; cbn; lia.
Qed.

(** ** What the timer is armed for *)

Lemma sorted_head_least l x l' :
  StronglySorted tick_le l -> l = x :: l' ->
  Forall (λ e, (ticks x <= ticks e)%Z) l.
Proof.
  intros Hs ->. apply StronglySorted_cons in Hs as [Hx _].
  constructor; [lia|done].
Qed.

Lemma armed_for_least s :
  queue_inv s -> armed s -> 0 < numEventsPending s ->
  Forall (λ e, (OCR4A (timer s) <= ticks e)%Z) (pending s) ∧
  ∃ e, e ∈ pending s ∧ ticks e = OCR4A (timer s).
Proof.
  intros (Hlen & Hn & Hsorted) Harmed Hpos.
  destruct (pending s) as [|x l] eqn:Hp.
  { pose proof (pending_nil s ltac:(lia) Hp). lia. }
  destruct (pending_head s x l Hp) as [Hx _].
  rewrite (Harmed Hpos), Hx. split.
  - by eapply sorted_head_least.
  - exists x. split; [left|done].
Qed.

(** X3.  After an accepted [scheduleEvent] the timer runs from zero in CTC
    mode with its compare interrupt enabled, and the compare register holds
    the smallest count in the queue: no pending entry is due before the next
    interrupt, and some entry is due exactly at it. *)
Theorem scheduleEvent_arms_timer_for_earliest cb d s :
  queue_inv s ->
  numEventsPending s < SCHEDULER_MAX_EVENTS ->
  TCNT4 (timer (scheduleEvent cb d s).2) = 0%Z ∧
  TCCR4B (timer (scheduleEvent cb d s).2) = TCCR4B_CTC_DIV1024 ∧
  TIMSK4 (timer (scheduleEvent cb d s).2) = TIMSK4_OCIE4A ∧
  Forall (λ e, (OCR4A (timer (scheduleEvent cb d s).2) <= ticks e)%Z)
         (pending (scheduleEvent cb d s).2) ∧
  (OCR4A (timer (scheduleEvent cb d s).2) <= adjust_ticks d)%Z ∧
  ∃ e, e ∈ pending (scheduleEvent cb d s).2 ∧
       ticks e = OCR4A (timer (scheduleEvent cb d s).2).
Proof.
  intros Hinv Hn.
  pose proof (scheduleEvent_inv cb d s Hinv) as Hinv'.
  pose proof (scheduleEvent_armed cb d s Hn) as Harmed.
  destruct Hinv as (Hlen & _ & _).
  destruct (scheduleEvent_accepted cb d s Hlen Hn) as (_ & _ & Hcount & _).
  destruct (armed_for_least _ Hinv' Harmed ltac:(lia)) as [Hleast Hhit].
  assert (mkEvent cb (adjust_ticks d) ∈ pending (scheduleEvent cb d s).2) as Hin.
  { rewrite (scheduleEvent_perm cb d s Hlen Hn). left. }
  repeat split; try done.
  - unfold scheduleEvent, schedulerTimerSetup. rewrite decide_False by lia.
    cbn. by rewrite decide_True by lia.
  - unfold scheduleEvent, schedulerTimerSetup. rewrite decide_False by lia.
    cbn. by rewrite decide_True by lia.
  - unfold scheduleEvent, schedulerTimerSetup. rewrite decide_False by lia.
    cbn. by rewrite decide_True by lia.
  - rewrite Forall_forall in Hleast. apply (Hleast _ Hin).
Qed.

Lemma scheduleEvent_arms_timer_for_earliest_witness :
  OCR4A (timer (scheduleEvent 9 3 busy_state).2) = 2%Z ∧
  OCR4A (timer (scheduleEvent 9 100 busy_state).2) = 6%Z.
Proof.
  split.
  - destruct (scheduleEvent_arms_timer_for_earliest 9 3 busy_state)
      as (_ & _ & _ & _ & Hle & _);
      [apply busy_state_inv|vm_compute; lia|]. reflexivity.
  - destruct (scheduleEvent_arms_timer_for_earliest 9 100 busy_state)
      as (_ & _ & _ & _ & Hle & _);
      [apply busy_state_inv|vm_compute; lia|]. reflexivity.
Defined.

(** ** One interrupt *)

Lemma filter_none (P : EventData -> Prop) `{!∀ x, Decision (P x)}
  (l : list EventData) :
  Forall (λ e, ¬ P e) l -> filter P l = [].
Proof.
  induction 1 as [|x l Hx _ IH]; [done|].
  by rewrite filter_cons_False.
Qed.

Lemma sorted_due_prefix t l :
  StronglySorted tick_le l ->
  due_prefix (elapse t <$> l) =
    elapse t <$> filter (λ e, (ticks e <= t)%Z) l ∧
  drop (length (due_prefix (elapse t <$> l))) (elapse t <$> l) =
    elapse t <$> filter (λ e, (t < ticks e)%Z) l ∧
  l = filter (λ e, (ticks e <= t)%Z) l ++ filter (λ e, (t < ticks e)%Z) l.
Proof.
  induction 1 as [|x l Hl IH Hx]; [done|].
  destruct IH as (IH1 & IH2 & IH3).
  cbn [fmap list_fmap due_prefix]. rewrite elapse_ticks.
  destruct (decide (ticks x <= t)%Z) as [Hdue|Hlater].
  - rewrite decide_True by lia.
    rewrite filter_cons_True, (filter_cons_False (λ e, (t < ticks e)%Z))
      by lia.
    cbn [length drop fmap list_fmap app].
    change (list_fmap EventData EventData (elapse t) l) with (elapse t <$> l).
    rewrite IH1, <- IH2, <- IH3. by rewrite <- IH1.
  - rewrite decide_False by lia.
    assert (Forall (λ e, (t < ticks e)%Z) l) as Hall.
    { eapply Forall_impl; [exact Hx|]. unfold tick_le. intros; lia. }
    rewrite filter_cons_False, (filter_cons_True (λ e, (t < ticks e)%Z))
      by lia.
    rewrite (filter_none (λ e, (ticks e <= t)%Z))
      by (eapply Forall_impl; [exact Hall|]; intros ? ?; cbn in *; lia).
    rewrite (filter_all_id (λ e, (t < ticks e)%Z))
      by (by apply Forall_forall).
    done.
Qed.

Lemma idle_inv cb s : queue_inv s -> queue_inv (idle cb s).
Proof. done. Qed.

(** X4.  With callbacks that leave the queue alone, one run of the interrupt
    routine calls exactly the pending entries whose count does not exceed the
    compare value, in queue order, and keeps the others, each with the
    compare value taken off its count. *)
Theorem ISR_calls_exactly_the_due s :
  queue_inv s ->
  ∃ s',
    ISR idle (numEventsPending s) s =
      Some (callback <$>
              filter (λ e, (ticks e <= OCR4A (timer s))%Z) (pending s), s') ∧
    pending s' =
      (λ e, mkEvent (callback e) (ticks e - OCR4A (timer s))) <$>
        filter (λ e, (OCR4A (timer s) < ticks e)%Z) (pending s) ∧
    queue_inv s' ∧ armed s'.
Proof.
  intros Hinv. pose proof Hinv as (Hlen & Hn & Hsorted).
  destruct (ISR_idle s ltac:(lia)) as (s' & Hrun & Hpend & _ & _ & Harmed).
  destruct (sorted_due_prefix (OCR4A (timer s)) (pending s) Hsorted)
    as (Hdue & Hrest & _).
  exists s'. rewrite Hrun, Hpend, Hrest, Hdue.
  split; [by rewrite fmap_callback_elapse|].
  split; [|split; [|done]].
  - apply list_fmap_ext. intros i e [He _]%list_elem_of_lookup_2%list_elem_of_filter.
    unfold elapse. by destruct (Z.ltb_spec (ticks e) (OCR4A (timer s))); [lia|].
  - eapply ISR_inv; [|exact Hinv|exact Hrun]. intros cb s0. apply idle_inv.
Qed.

Lemma ISR_calls_exactly_the_due_witness :
  ∃ s',
    ISR idle 5 busy_state = Some ([1], s') ∧
    pending s' = [mkEvent 2 10; mkEvent 2 15; mkEvent 3 30; mkEvent 2 80].
Proof.
  destruct (ISR_calls_exactly_the_due busy_state busy_state_inv)
    as (s' & Hrun & Hpend & _).
  exists s'. split; [exact Hrun|exact Hpend].
Defined.

(** ** When each event is called *)

(** [k] interrupts in a row with the clock kept beside them: the timer counts
    from zero to the compare value between two runs of the routine, so a run
    entered from state [s] happens [OCR4A] ticks after the instant [now] at
    which [s] was armed.  Every call is listed with its instant. *)
Fixpoint fire_times (k : nat) (now : Z) (s : State)
  : option (list (callback_t * Z)) :=
  match k with
  | 0 => Some []
  | S k' =>
      let at_match := (now + OCR4A (timer s))%Z in
      match ISR idle (numEventsPending s) s with
      | Some (fired1, s1) =>
          match fire_times k' at_match s1 with
          | Some fired2 => Some (((λ c, (c, at_match)) <$> fired1) ++ fired2)
          | None => None
          end
      | None => None
      end
  end.

Lemma pending_length s :
  numEventsPending s <= length (eventData s) ->
  length (pending s) = numEventsPending s.
Proof. intros Hn. unfold pending. rewrite length_take. lia. Qed.

Lemma armed_due_exact s :
  queue_inv s -> armed s ->
  Forall (λ e, (ticks e <= OCR4A (timer s) -> ticks e = OCR4A (timer s))%Z)
         (pending s).
Proof.
  intros Hinv Harmed. pose proof Hinv as (Hlen & Hn & _).
  destruct (decide (0 < numEventsPending s)) as [Hpos|Hnone].
  - destruct (armed_for_least s Hinv Harmed Hpos) as [Hleast _].
    eapply Forall_impl; [exact Hleast|]. intros e He ?. cbn in *. lia.
  - unfold pending. by replace (numEventsPending s) with 0 by lia.
Qed.

(** X5.  Left to the timer, every pending event is called exactly when its
    count runs out: the compare values programmed from now until the call of
    an entry add up to that entry's count, whatever else is queued. *)
Theorem events_fire_on_time k now s :
  queue_inv s -> armed s -> numEventsPending s <= k ->
  fire_times k now s =
    Some ((λ e, (callback e, (now + ticks e)%Z)) <$> pending s).
Proof.
  revert now s. induction k as [|k IH]; intros now s Hinv Harmed Hk.
  { cbn. unfold pending. by replace (numEventsPending s) with 0 by lia. }
  pose proof Hinv as (Hlen & Hn & Hsorted).
  cbn [fire_times].
  destruct (ISR_idle s ltac:(lia)) as (s1 & Hrun & Hpend & Hlen1 & Hcount & Harmed1).
  destruct (sorted_due_prefix (OCR4A (timer s)) (pending s) Hsorted)
    as (Hdue & Hrest & Hsplit).
  assert (queue_inv s1) as Hinv1.
  { eapply ISR_inv; [|exact Hinv|exact Hrun]. intros cb s0. apply idle_inv. }
  assert (numEventsPending s1 <= k) as Hk1.
  { destruct (decide (0 < numEventsPending s)) as [Hpos|Hzero]; [|lia].
    pose proof (armed_head_due s Harmed Hpos ltac:(lia)). lia. }
  rewrite Hrun, (IH _ s1 Hinv1 Harmed1 Hk1), Hpend, Hrest, Hdue.
  f_equal. rewrite Hsplit at 3. rewrite fmap_app. f_equal.
  - rewrite <- !list_fmap_compose. apply list_fmap_ext.
    intros i e [Hdue_e Hin]%list_elem_of_lookup_2%list_elem_of_filter. cbn.
    pose proof (armed_due_exact s Hinv Harmed) as Hexact.
    rewrite Forall_forall in Hexact.
    by rewrite elapse_callback, (Hexact e Hin Hdue_e).
  - rewrite <- !list_fmap_compose. apply list_fmap_ext.
    intros i e [Hlater _]%list_elem_of_lookup_2%list_elem_of_filter. cbn.
    rewrite elapse_callback, elapse_ticks. f_equal. lia.
Qed.

Lemma events_fire_on_time_witness :
  fire_times 5 1000 (schedulerTimerSetup busy_state) =
    Some [(1, 1010%Z); (2, 1020%Z); (2, 1025%Z); (3, 1040%Z); (2, 1090%Z)].
Proof.
  apply (events_fire_on_time 5 1000 (schedulerTimerSetup busy_state)).
  - apply timer_setup_inv, busy_state_inv.
  - apply timer_setup_armed.
  - vm_compute. lia.
Defined.

(** ** Cancelling *)

Lemma cancelEvents_armed cb s : armed (cancelEvents cb s).
Proof.
  unfold cancelEvents. destruct (cancel_outer _ _ _ _) as [a2 n2].
  apply timer_setup_armed.
Qed.

(** X6.  A cancelled callback is never called again: after
    [cancelEvents cb], the interrupts that empty the queue call the callbacks
    of the other entries, in their queue order, and [cb] is not among them. *)
Theorem cancelled_callback_never_fires cb s :
  queue_inv s ->
  ∃ s',
    interrupts idle (numEventsPending s) (cancelEvents cb s) =
      Some (filter (λ c, c <> cb) (callback <$> pending s), s') ∧
    (cb ∉ filter (λ c, c <> cb) (callback <$> pending s)) ∧
    numEventsPending s' = 0.
Proof.
  intros (Hlen & Hn & _).
  destruct (cancelEvents_spec cb s ltac:(lia)) as (Hlen' & Hn' & Hpend).
  destruct (interrupts_idle (numEventsPending s) (cancelEvents cb s))
    as (s' & Hrun & Hzero);
    [apply cancelEvents_armed|lia|lia|].
  exists s'. rewrite Hrun, Hpend.
  rewrite fmap_callback_filter, fmap_callback_elapse.
  split; [done|]. split; [|done].
  by intros [? _]%list_elem_of_filter.
Qed.

Lemma cancelled_callback_never_fires_witness :
  ∃ s', interrupts idle 5 (cancelEvents 2 busy_state) = Some ([1; 3], s') ∧
        (2 ∉ [1; 3]) ∧ numEventsPending s' = 0.
Proof.
  apply (cancelled_callback_never_fires 2 busy_state busy_state_inv).
Defined.

Lemma filter_filter_comm (P Q : EventData -> Prop)
  `{!∀ x, Decision (P x)} `{!∀ x, Decision (Q x)} (l : list EventData) :
  filter P (filter Q l) = filter Q (filter P l).
Proof.
  induction l as [|x l IH]; [done|].
  destruct (decide (P x)), (decide (Q x));
    repeat first [rewrite filter_cons_True by done
                 |rewrite filter_cons_False by done];
    by rewrite IH.
Qed.

Lemma cancelEvents_twice a b s :
  numEventsPending s <= length (eventData s) ->
  pending (cancelEvents a (cancelEvents b s)) =
    filter (λ e, callback e <> a)
      (filter (λ e, callback e <> b) (queue_now s)).
Proof.
  intros Hn.
  destruct (cancelEvents_spec b s Hn) as (Hlen1 & Hn1 & Hpend1).
  destruct (cancelEvents_spec a (cancelEvents b s) ltac:(lia))
    as (_ & _ & Hpend2).
  rewrite Hpend2.
  change (elapse (TCNT4 (timer (cancelEvents b s))) <$> pending (cancelEvents b s))
    with (queue_now (cancelEvents b s)).
  by rewrite cancelEvents_queue_now, Hpend1 by lia.
Qed.

(** X7.  Cancelling is idempotent and order-independent on the queue: a
    second [cancelEvents] of the same callback changes neither the pending
    entries nor their count, and cancelling two callbacks in either order
    leaves the same pending entries. *)
Theorem cancelEvents_idempotent_and_commutes a b s :
  numEventsPending s <= length (eventData s) ->
  pending (cancelEvents a (cancelEvents a s)) = pending (cancelEvents a s) ∧
  numEventsPending (cancelEvents a (cancelEvents a s)) =
    numEventsPending (cancelEvents a s) ∧
  pending (cancelEvents a (cancelEvents b s)) =
    pending (cancelEvents b (cancelEvents a s)).
Proof.
  intros Hn.
  destruct (cancelEvents_spec a s Hn) as (Hlen1 & Hn1 & Hpend1).
  destruct (cancelEvents_spec a (cancelEvents a s) ltac:(lia))
    as (Hlen2 & Hn2 & _).
  assert (pending (cancelEvents a (cancelEvents a s)) = pending (cancelEvents a s))
    as Hsame.
  { rewrite cancelEvents_twice, Hpend1 by done.
    apply filter_all_id. by intros e [? _]%list_elem_of_filter. }
  split; [done|]. split.
  - apply (f_equal length) in Hsame.
    rewrite !pending_length in Hsame by lia. done.
  - rewrite !cancelEvents_twice by done. apply filter_filter_comm.
Qed.

Lemma cancelEvents_idempotent_and_commutes_witness :
  pending (cancelEvents 2 (cancelEvents 2 busy_state)) =
    [mkEvent 1 6; mkEvent 3 36] ∧
  pending (cancelEvents 1 (cancelEvents 3 busy_state)) =
    pending (cancelEvents 3 (cancelEvents 1 busy_state)).
Proof.
  destruct (cancelEvents_idempotent_and_commutes 2 2 busy_state) as (H1 & _ & _);
    [vm_compute; lia|].
  destruct (cancelEvents_idempotent_and_commutes 1 3 busy_state) as (_ & _ & H2);
    [vm_compute; lia|].
  split; [rewrite H1; reflexivity|exact H2].
Defined.

(** ** Periodic events *)

(** The number of entries that have no ticks left. *)
Definition due_count (l : list EventData) : nat :=
  length (filter (λ e, ticks e = 0%Z) l).

(** What the dispatch loop relies on between two callbacks. *)
Definition loop_inv (s : State) : Prop :=
  queue_inv s ∧ (0 <= TCNT4 (timer s))%Z ∧
  Forall (λ e, (0 <= ticks e)%Z) (pending s).

Lemma adjust_ticks_pos d : (0 <= d)%Z -> (1 <= adjust_ticks d)%Z.
Proof. intros Hd. rewrite adjust_ticks_spec by done. case_decide; lia. Qed.

Lemma elapse_nonneg t l :
  Forall (λ e, (0 <= ticks e)%Z) (elapse t <$> l).
Proof.
  apply Forall_fmap, Forall_true. intros e. cbn. rewrite elapse_ticks. lia.
Qed.

Lemma elapse_zero_id (l : list EventData) :
  Forall (λ e, (0 <= ticks e)%Z) l -> elapse 0 <$> l = l.
Proof.
  induction 1 as [|[c t] l Hx _ IH]; [done|]. cbn in Hx.
  cbn [fmap list_fmap]. rewrite elapse_zero. cbn.
  rewrite Z.max_r by lia. f_equal. exact IH.
Qed.

Lemma due_count_cons x l :
  due_count (x :: l) =
    (if decide (ticks x = 0%Z) then S (due_count l) else due_count l).
Proof. unfold due_count. rewrite filter_cons. by case_decide. Qed.

Lemma due_count_perm l1 l2 : l1 ≡ₚ l2 -> due_count l1 = due_count l2.
Proof. intros Hp. unfold due_count. by rewrite Hp. Qed.

Lemma scheduleEvent_restarts cb d s :
  numEventsPending s < SCHEDULER_MAX_EVENTS ->
  TCNT4 (timer (scheduleEvent cb d s).2) = 0%Z.
Proof.
  intros Hn. unfold scheduleEvent, schedulerTimerSetup.
  rewrite decide_False by lia. cbn. by rewrite decide_True by lia.
Qed.

(** One turn of the dispatch loop with a self-rescheduling callback: the head
    goes out and comes back in with a positive count. *)
Lemma reschedule_turn p s x l :
  (0 <= p)%Z -> loop_inv s -> pending s = x :: l -> ticks x = 0%Z ->
  let s2 := reschedule p (callback x)
              (mkState (shift_left (numEventsPending s - 1) 1 (eventData s))
                       (numEventsPending s - 1) (timer s)) in
  loop_inv s2 ∧
  numEventsPending s2 = numEventsPending s ∧
  callback <$> pending s2 ≡ₚ callback <$> pending s ∧
  S (due_count (queue_now s2)) = due_count (queue_now s).
Proof.
  intros Hp (Hinv & Ht & Hpos) Hpend Hx. pose proof Hinv as (Hlen & Hn & _).
  destruct (pending_head s x l Hpend) as [_ Hn0].
  set (s1 := mkState _ _ _). intros s2.
  assert (queue_inv s1) as Hinv1 by (by apply remove_head_inv).
  assert (pending s1 = l) as Hpend1.
  { unfold s1. rewrite remove_head_pending, Hpend by lia. done. }
  assert (numEventsPending s1 < SCHEDULER_MAX_EVENTS) as Hroom by (cbn; lia).
  pose proof Hinv1 as (Hlen1 & _ & _).
  destruct (scheduleEvent_accepted (callback x) p s1 Hlen1 Hroom)
    as (_ & _ & Hcount & _).
  pose proof (scheduleEvent_perm (callback x) p s1 Hlen1 Hroom) as Hperm.
  rewrite Hpend1 in Hperm.
  change (timer s1) with (timer s) in Hperm.
  fold (reschedule p (callback x) s1) in Hperm, Hcount. fold s2 in Hperm, Hcount.
  assert (TCNT4 (timer s2) = 0%Z) as Hzero
    by (by apply scheduleEvent_restarts).
  assert (Forall (λ e, (0 <= ticks e)%Z) (pending s2)) as Hpos2.
  { rewrite Hperm. constructor; [cbn; pose proof (adjust_ticks_pos p Hp); lia|].
    apply elapse_nonneg. }
  split; [|split; [|split]].
  - split; [by apply scheduleEvent_inv|]. split; [lia|done].
  - rewrite Hcount. cbn. lia.
  - rewrite Hperm, Hpend. cbn [fmap list_fmap]. by rewrite fmap_callback_elapse.
  - unfold queue_now. rewrite Hzero, (elapse_zero_id _ Hpos2), Hpend.
    rewrite (due_count_perm _ _ Hperm). cbn [fmap list_fmap].
    rewrite !due_count_cons. cbn [ticks].
    rewrite decide_False by (pose proof (adjust_ticks_pos p Hp); lia).
    rewrite decide_True; [done|]. rewrite elapse_ticks. lia.
Qed.

Lemma due_count_head_nonzero x l :
  StronglySorted tick_le (x :: l) -> Forall (λ e, (0 <= ticks e)%Z) (x :: l) ->
  ticks x <> 0%Z -> Forall (λ e, (1 <= ticks e)%Z) (x :: l).
Proof.
  intros Hs Hpos Hx. apply Forall_cons in Hpos as [Hx0 _].
  eapply Forall_impl; [by eapply sorted_head_least|]. intros e ?. cbn in *. lia.
Qed.

Lemma dispatch_reschedule p fuel s :
  (0 <= p)%Z -> loop_inv s -> due_count (queue_now s) <= fuel ->
  ∃ fired s',
    dispatch_loop (reschedule p) fuel s = Some (fired, s') ∧
    loop_inv s' ∧
    numEventsPending s' = numEventsPending s ∧
    callback <$> pending s' ≡ₚ callback <$> pending s ∧
    Forall (λ e, (1 <= ticks e)%Z) (pending s').
Proof.
  intros Hp. revert s.
  assert (∀ s, loop_inv s ->
            ¬ (ticks (eventData s !!! 0) = 0%Z ∧ 0 < numEventsPending s) ->
            Forall (λ e, (1 <= ticks e)%Z) (pending s)) as Hstop.
  { intros s ((Hlen & Hn & Hsorted) & _ & Hpos) Hno.
    destruct (pending s) as [|x l] eqn:Hpend; [done|].
    destruct (pending_head s x l Hpend) as [Hx Hn0].
    apply due_count_head_nonzero; [done|done|].
    intros Hzero. apply Hno. by rewrite Hx. }
  induction fuel as [|fuel IH]; intros s Hinv Hfuel.
  - cbn [dispatch_loop].
    destruct (decide (ticks (eventData s !!! 0) = 0%Z ∧ 0 < numEventsPending s))
      as [[Hdue Hn0]|Hno].
    + exfalso. pose proof Hinv as ((Hlen & Hn & _) & Ht & Hpos).
      destruct (pending s) as [|x l] eqn:Hpend.
      { pose proof (pending_nil s ltac:(lia) Hpend). lia. }
      destruct (pending_head s x l Hpend) as [Hx _].
      unfold queue_now in Hfuel. rewrite Hpend in Hfuel.
      cbn [fmap list_fmap] in Hfuel. rewrite due_count_cons in Hfuel.
      rewrite decide_True in Hfuel; [lia|].
      rewrite elapse_ticks, <- Hx, Hdue. lia.
    + exists [], s. repeat split; try done; try apply Hinv. by apply Hstop.
  - cbn [dispatch_loop].
    destruct (decide (ticks (eventData s !!! 0) = 0%Z ∧ 0 < numEventsPending s))
      as [[Hdue Hn0]|Hno].
    + pose proof Hinv as ((Hlen & Hn & _) & _ & _).
      destruct (pending s) as [|x l] eqn:Hpend.
      { pose proof (pending_nil s ltac:(lia) Hpend). lia. }
      destruct (pending_head s x l Hpend) as [Hx _].
      rewrite Hx in Hdue |- *.
      destruct (reschedule_turn p s x l Hp Hinv Hpend Hdue)
        as (Hinv2 & Hcount2 & Hperm2 & Hdue2).
      destruct (IH _ Hinv2 ltac:(lia)) as (fired & s' & Hrun & Hinv' & Hcount' & Hperm' & Hpos').
      rewrite Hrun. exists (callback x :: fired), s'.
      split; [done|]. split; [done|]. split; [lia|]. split; [|done].
      by rewrite Hperm', Hperm2, Hpend.
    + exists [], s. repeat split; try done; try apply Hinv. by apply Hstop.
Qed.

(** X8.  Events whose callbacks schedule themselves again, as the firmware's
    periodic events do, survive the interrupt routine: whatever the counter
    reads on entry, the routine returns, leaves as many entries pending as it
    found, for the same callbacks, and none of them is left due. *)
Theorem ISR_keeps_periodic_events p s :
  (0 <= p)%Z -> queue_inv s -> (0 <= TCNT4 (timer s))%Z ->
  ∃ fired s',
    ISR (reschedule p) (numEventsPending s) s = Some (fired, s') ∧
    queue_inv s' ∧
    numEventsPending s' = numEventsPending s ∧
    callback <$> pending s' ≡ₚ callback <$> pending s ∧
    Forall (λ e, (1 <= ticks e)%Z) (pending s').
Proof.
  intros Hp Hinv Ht. pose proof Hinv as (Hlen & Hn & Hsorted).
  unfold ISR.
  set (s1 := mkState (subtract_loop _ _ _ _) _ _).
  assert (pending s1 = elapse (OCR4A (timer s)) <$> pending s) as Hpend1.
  { unfold s1, pending. cbn. apply subtract_loop_pending. lia. }
  assert (loop_inv s1) as Hinv1.
  { split; [by apply subtract_all_inv|]. split; [done|].
    rewrite Hpend1. apply elapse_nonneg. }
  assert (due_count (queue_now s1) <= numEventsPending s) as Hfuel.
  { unfold due_count, queue_now.
    etrans; [apply length_filter|]. rewrite length_fmap, Hpend1, length_fmap.
    rewrite pending_length; lia. }
  destruct (dispatch_reschedule p (numEventsPending s) s1 Hp Hinv1 Hfuel)
    as (fired & s' & Hrun & (Hinv' & _) & Hcount & Hperm & Hpos).
  rewrite Hrun. exists fired, (schedulerTimerSetup s').
  rewrite timer_setup_pending, timer_setup_count.
  split; [done|]. split; [by apply timer_setup_inv|]. split; [done|].
  split; [|done]. by rewrite Hperm, Hpend1, fmap_callback_elapse.
Qed.

Lemma ISR_keeps_periodic_events_witness :
  ∃ fired s',
    ISR (reschedule 781) 5 busy_state = Some (fired, s') ∧
    queue_inv s' ∧
    numEventsPending s' = 5 ∧
    callback <$> pending s' ≡ₚ [1; 2; 2; 3; 2] ∧
    Forall (λ e, (1 <= ticks e)%Z) (pending s').
Proof.
  apply (ISR_keeps_periodic_events 781 busy_state);
    [lia|apply busy_state_inv|vm_compute; discriminate].
Defined.

Example periodic_event_goes_to_the_back :
  (λ r, (r.1, pending r.2)) <$>
    ISR (reschedule 781) 5 (schedulerTimerSetup busy_state) =
    Some ([1], [mkEvent 2 10; mkEvent 2 15; mkEvent 3 30; mkEvent 2 80;
                mkEvent 1 780]).
Proof. reflexivity. Qed.

(** ** Scheduling and cancelling together *)

Lemma insert_rev_filter (P : EventData -> Prop) `{!∀ x, Decision (P x)} e r :
  ¬ P e -> filter P (insert_rev e r) = filter P r.
Proof.
  intros He. induction r as [|x r IH]; cbn [insert_rev].
  - by rewrite filter_cons_False.
  - case_match.
    + rewrite !filter_cons. case_decide; by rewrite IH.
    + by rewrite filter_cons_False.
Qed.

(** X26.  Scheduling an event and cancelling its callback right away comes
    to cancelling alone: the pending entries are those of the old queue, as
    it stood at the call, without the entries of that callback - in
    particular the old queue itself when the callback was not in it. *)
Theorem schedule_then_cancel_leaves_queue cb d s :
  queue_inv s -> numEventsPending s < SCHEDULER_MAX_EVENTS ->
  pending (cancelEvents cb (scheduleEvent cb d s).2) = pending (cancelEvents cb s) ∧
  pending (cancelEvents cb (scheduleEvent cb d s).2) =
    filter (λ e, callback e <> cb) (queue_now s) ∧
  (cb ∉ callback <$> pending s ->
   pending (cancelEvents cb (scheduleEvent cb d s).2) = queue_now s).
Proof.
  intros Hinv Hroom. pose proof Hinv as (Hlen & Hn & _).
  destruct (scheduleEvent_accepted cb d s Hlen Hroom) as (_ & Hlen' & Hn' & Hpend').
  destruct (cancelEvents_spec cb s ltac:(lia)) as (_ & _ & Hcancel).
  destruct (cancelEvents_spec cb (scheduleEvent cb d s).2 ltac:(lia))
    as (_ & _ & ->).
  rewrite (scheduleEvent_restarts cb d s Hroom), Hpend'.
  assert (filter (λ e, callback e <> cb)
            (elapse 0 <$> reverse (insert_rev (mkEvent cb (adjust_ticks d))
               (reverse (elapse (TCNT4 (timer s)) <$> pending s)))) =
          filter (λ e, callback e <> cb) (queue_now s)) as Hsame.
  { rewrite <- fmap_elapse_filter, filter_reverse.
    rewrite insert_rev_filter by (cbn; intros Hne; by apply Hne).
    rewrite <- filter_reverse, reverse_involutive, fmap_elapse_filter.
    unfold queue_now. f_equal.
    rewrite <- list_fmap_compose. apply list_fmap_ext.
    intros i e _. apply elapse_zero_elapse. }
  rewrite Hsame. split; [by rewrite Hcancel|]. split; [done|].
  intros Hfresh. apply filter_all_id. intros e He Heq.
  apply Hfresh. unfold queue_now in He.
  apply list_elem_of_fmap in He as (e0 & -> & He0).
  rewrite elapse_callback in Heq. subst cb.
  apply list_elem_of_fmap. by exists e0.
Qed.

Lemma schedule_then_cancel_leaves_queue_witness :
  pending (cancelEvents 9 (scheduleEvent 9 17 busy_state).2) =
    [mkEvent 1 6; mkEvent 2 16; mkEvent 2 21; mkEvent 3 36; mkEvent 2 86].
Proof.
  destruct (schedule_then_cancel_leaves_queue 9 17 busy_state)
    as (_ & _ & Hfresh); [apply busy_state_inv|vm_compute; lia|].
  rewrite Hfresh; [reflexivity|].
  cbn. intros Hin.
  repeat (apply elem_of_cons in Hin as [Hin|Hin]; [discriminate Hin|]).
  by apply elem_of_nil in Hin.
Defined.

End SchedulerFacts.

(* ===================================================================== *)
(** * esp32.cpp: further properties of the transport *)
(* ===================================================================== *)

Module ESP32Facts.

Import Protocol.
Import ESP32.
Local Open Scope Z_scope.

(** A byte buffer: every cell holds a [uint8_t] value. *)
Definition bytes (l : list Z) : Prop := Forall (λ z, 0 <= z < 256) l.

(** The received buffer opens with the sync marker. *)
Definition has_sync (rx : list Z) : bool :=
  (rd rx 0 =? UPDATER_PROTOCOL_SYNC_BYTE_1) &&
  (rd rx 1 =? UPDATER_PROTOCOL_SYNC_BYTE_2).

(** [k] calls of [ESP32::poll()] in a row. *)
Definition polls {C} (k : nat) (m : Machine C) : Machine C := Nat.iter k poll m.

(** What the registered callback makes of one received buffer. *)
Definition deliver {C} (cb : ESP32MessageCallback C) (c : C) (rx : list Z) : C :=
  if has_sync rx then cb rx (rx_totalLen rx) c else c.

(** A transport whose peer will answer [answers]. *)
Definition recording_with (answers : list (list Z))
  : Machine (list (list Z * Z)) :=
  mkMachine (mkBoard 0 true true false [] answers)
            (mkStatics (Some recorder) 0 true) [].

(** A copy that stays inside both buffers, written out. *)
Lemma memcpy_explicit off (src : list Z) n dst :
  (off + Z.to_nat n <= length dst)%nat -> (Z.to_nat n <= length src)%nat ->
  memcpy off src n dst =
    take off dst ++ take (Z.to_nat n) src ++ drop (off + Z.to_nat n) dst.
Proof.
  intros Hdst Hsrc. unfold memcpy.
  rewrite <- (take_drop off dst) at 1.
  replace off with (length (take off dst) + 0)%nat at 1
    by (rewrite length_take; lia).
  rewrite list_inserts_app_r. f_equal.
  rewrite <- (take_drop (Z.to_nat n) (drop off dst)) at 1.
  rewrite list_inserts_0_r by (rewrite !length_take, length_drop; lia).
  by rewrite drop_drop.
Qed.


Lemma rx_buffer_length answer : length (rx_buffer answer) = 48%nat.
Proof.
  unfold rx_buffer. rewrite length_fmap, length_take, length_app, zero_buf_length.
  unfold ESP32_TX_BUF_LEN. lia.
Qed.


Lemma poll_board {C} (m : Machine C) :
  s_isInitialized (esp m) = true ->
  board (poll m) =
    mkBoard (clock (board m)) true (pin_EN (board m)) (pin_SPARE (board m))
            (spi_tx (board m) ++ [replicate 48 0]) (tail (spi_rx (board m))) ∧
  esp (poll m) = esp m.
Proof.
  intros Hinit. unfold poll. rewrite Hinit. cbn [negb spiTransfer].
  by rewrite (proj1 (handleReceivedMessage_board _ _)),
             (proj2 (handleReceivedMessage_board _ _)).
Qed.

Lemma tail_drop {A} k (l : list A) : tail (drop k l) = drop (S k) l.
Proof.
  revert l. induction k as [|k IH]; intros [|x l]; cbn; done.
Qed.

Lemma rd_zero_buf i : rd zero_buf i = 0.
Proof.
  unfold rd, zero_buf. destruct (replicate _ _ !! i) as [z|] eqn:Hz; [|done].
  by apply lookup_replicate in Hz as [-> _].
Qed.

Lemma rd_tx_header_tail cmd dataLen i :
  (4 <= i)%nat -> rd (tx_header cmd dataLen) i = 0.
Proof.
  intros Hi. unfold rd, tx_header.
  rewrite !list_lookup_insert_ne by lia. apply rd_zero_buf.
Qed.

(** X9.  What [sendCommand] puts on the wire, for every command byte and
    every buffer that holds the [dataLen] bytes it is said to hold: the frame
    opens with the sync marker - written by the function, or copied with a
    pre-built packet - so a command is never mistaken for the all-zero poll
    frame; and every cell of the 48 from [4 + min(dataLen, 44)] on is zero:
    what lies behind the data is the cleared buffer, never what the stack
    held. *)
Theorem command_frames_marked_and_padded cmd data dataLen :
  0 <= dataLen < 256 ->
  (∀ d, data = Some d -> (Z.to_nat dataLen <= length d)%nat) ->
  has_sync (tx_frame cmd data dataLen) = true ∧
  has_sync zero_buf = false ∧
  (∀ i, (4 + Z.to_nat (Z.min dataLen 44) <= i < 48)%nat ->
        rd (tx_frame cmd data dataLen) i = 0).
Proof.
  intros Hlen Hbuf. split; [|split; [done|]].
  - unfold tx_frame. destruct data as [d|]; [|done].
    specialize (Hbuf d eq_refl).
    destruct (prebuilt d dataLen) eqn:Hpre.
    + unfold prebuilt in Hpre.
      apply andb_true_iff in Hpre as [[H2 H0]%andb_true_iff H1].
      apply Z.leb_le in H2.
      change (u8 ESP32_TX_BUF_LEN) with 48.
      assert (∀ j, (j < 2)%nat ->
                rd (memcpy 0 d (Z.min dataLen 48) zero_buf) j = rd d j) as Hcopy.
      { intros j Hj. unfold rd, memcpy.
        rewrite list_lookup_inserts
          by (rewrite ?zero_buf_length, ?length_take; lia).
        rewrite lookup_take_lt by lia. do 2 f_equal. lia. }
      unfold has_sync. by rewrite !Hcopy, H0, H1 by lia.
    + unfold has_sync. case_match; [|done].
      by rewrite !memcpy_below by lia.
  - intros i Hi. unfold tx_frame. destruct data as [d|];
      [|apply rd_tx_header_tail; lia].
    specialize (Hbuf d eq_refl).
    destruct (prebuilt d dataLen).
    + change (u8 ESP32_TX_BUF_LEN) with 48.
      unfold rd, memcpy. rewrite list_lookup_inserts_ge
        by (rewrite length_take; lia).
      apply rd_zero_buf.
    + case_match; [|apply rd_tx_header_tail; lia].
      change (u8 (ESP32_TX_BUF_LEN - 4)) with 44.
      unfold rd, memcpy. rewrite list_lookup_inserts_ge
        by (rewrite length_take; lia).
      apply rd_tx_header_tail. lia.
Qed.

Lemma command_frames_marked_and_padded_witness :
  has_sync (tx_frame 0x42 (Some payload_45) 45) = true ∧
  rd (tx_frame 0x42 (Some [1; 2; 3]) 3) 7 = 0.
Proof.
  destruct (command_frames_marked_and_padded 0x42 (Some payload_45) 45)
    as (Hsync & _); [lia|intros d [= <-]; cbn; lia|].
  destruct (command_frames_marked_and_padded 0x42 (Some [1; 2; 3]) 3)
    as (_ & _ & Hpad); [lia|intros d [= <-]; cbn; lia|].
  split; [exact Hsync|]. apply Hpad. cbn. lia.
Defined.

Lemma plain_frame cmd d :
  (0 < length d <= 44)%nat -> prebuilt d (Z.of_nat (length d)) = false ->
  tx_frame cmd (Some d) (Z.of_nat (length d)) =
    [UPDATER_PROTOCOL_SYNC_BYTE_1; UPDATER_PROTOCOL_SYNC_BYTE_2; cmd;
     Z.of_nat (length d)] ++ d ++ replicate (44 - length d) 0.
Proof.
  intros Hlen Hplain. unfold tx_frame. rewrite Hplain.
  destruct (Z.ltb_spec 0 (Z.of_nat (length d))); [|lia].
  change (u8 (ESP32_TX_BUF_LEN - 4)) with 44. rewrite Z.min_l by lia.
  rewrite memcpy_explicit
    by (rewrite ?tx_header_length, Nat2Z.id; lia).
  rewrite Nat2Z.id, firstn_all.
  change (tx_header cmd (Z.of_nat (length d))) with
    ([UPDATER_PROTOCOL_SYNC_BYTE_1; UPDATER_PROTOCOL_SYNC_BYTE_2; cmd;
      Z.of_nat (length d)] ++ replicate 44 0).
  rewrite take_app_length' by done.
  rewrite drop_app_ge by (cbn; lia).
  cbn [length]. replace (4 + length d - 4)%nat with (length d) by lia.
  by rewrite drop_replicate.
Qed.



(** X11.  A caller's buffer that itself opens with the sync bytes is not
    framed: it goes out as it is, zero-padded to 48 bytes, and the command
    byte given to [sendCommand] appears nowhere - cell 2 of the frame is the
    buffer's own third byte. *)
Theorem prebuilt_buffer_sent_verbatim cmd d :
  prebuilt d (Z.of_nat (length d)) = true -> (length d <= 48)%nat ->
  tx_frame cmd (Some d) (Z.of_nat (length d)) =
    d ++ replicate (48 - length d) 0 ∧
  (∀ cmd', tx_frame cmd' (Some d) (Z.of_nat (length d)) =
           tx_frame cmd (Some d) (Z.of_nat (length d))) ∧
  rd (tx_frame cmd (Some d) (Z.of_nat (length d))) 2 = rd d 2.
Proof.
  intros Hpre Hlen.
  assert (∀ c, tx_frame c (Some d) (Z.of_nat (length d)) =
               d ++ replicate (48 - length d) 0) as Hall.
  { intros c. unfold tx_frame. rewrite Hpre.
    change (u8 ESP32_TX_BUF_LEN) with 48. rewrite Z.min_l by lia.
    rewrite memcpy_explicit by (rewrite ?zero_buf_length, Nat2Z.id; lia).
    rewrite Nat2Z.id, firstn_all. cbn [take app Nat.add].
    unfold zero_buf. change (Z.to_nat ESP32_TX_BUF_LEN) with 48%nat.
    by rewrite drop_replicate. }
  split; [apply Hall|]. split; [intros; by rewrite !Hall|].
  rewrite Hall. unfold prebuilt in Hpre.
  destruct d as [|a [|b [|c d]]]; try done.
  all: cbn in Hpre; rewrite ?andb_false_r in Hpre; done.
Qed.

Lemma prebuilt_buffer_sent_verbatim_witness :
  tx_frame 0x42 (Some [0xAA; 0x55; 0x77; 1; 9]) 5 =
    [0xAA; 0x55; 0x77; 1; 9] ++ replicate 43 0.
Proof.
  apply (prebuilt_buffer_sent_verbatim 0x42 [0xAA; 0x55; 0x77; 1; 9]);
    [reflexivity|cbn; lia].
Defined.

Lemma poll_step {C} (cb : ESP32MessageCallback C) (m : Machine C) :
  s_isInitialized (esp m) = true -> s_rxCallback (esp m) = Some cb ->
  client (poll m) = deliver cb (client m) (nth_rx (board m) 0).
Proof.
  intros Hinit Hcb. unfold poll. rewrite Hinit. cbn [negb spiTransfer].
  unfold handleReceivedMessage, deliver, has_sync. cbn [esp client].
  rewrite Hcb.
  destruct (rd (nth_rx (board m) 0) 0 =? UPDATER_PROTOCOL_SYNC_BYTE_1),
    (rd (nth_rx (board m) 0) 1 =? UPDATER_PROTOCOL_SYNC_BYTE_2); done.
Qed.

(** X12.  Polling delivers the peer's answers in the order they were queued:
    after [k] polls the callback has been run, in order, on exactly those of
    the first [k] received buffers that open with the sync marker, [k] empty
    frames have gone out, and [k] answers have been consumed. *)
Theorem polls_deliver_in_order {C} (cb : ESP32MessageCallback C) k (m : Machine C) :
  s_isInitialized (esp m) = true -> s_rxCallback (esp m) = Some cb ->
  client (polls k m) =
    foldl (deliver cb) (client m) (nth_rx (board m) <$> seq 0 k) ∧
  spi_tx (board (polls k m)) = spi_tx (board m) ++ replicate k (replicate 48 0) ∧
  spi_rx (board (polls k m)) = drop k (spi_rx (board m)) ∧
  esp (polls k m) = esp m.
Proof.
  intros Hinit Hcb. induction k as [|k (IHc & IHtx & IHrx & IHesp)].
  { cbn. by rewrite app_nil_r, drop_0. }
  change (polls (S k) m) with (poll (polls k m)).
  assert (s_isInitialized (esp (polls k m)) = true) as Hinit'
    by (by rewrite IHesp).
  destruct (poll_board (polls k m) Hinit') as (Hb & He).
  assert (nth_rx (board (polls k m)) 0 = nth_rx (board m) k) as Hrx.
  { unfold nth_rx. by rewrite IHrx, lookup_drop, Nat.add_0_r. }
  split; [|split; [|split]].
  - rewrite (poll_step cb) by (by rewrite ?IHesp).
    rewrite seq_S, fmap_app, foldl_app. cbn. by rewrite IHc, Hrx.
  - rewrite Hb. cbn [spi_tx]. rewrite IHtx, <- app_assoc. f_equal.
    replace (S k) with (k + 1)%nat by lia. by rewrite replicate_add.
  - rewrite Hb. cbn [spi_rx]. rewrite IHrx. apply tail_drop.
  - by rewrite He.
Qed.

Lemma polls_deliver_in_order_witness :
  snd <$> client (polls 3 (recording_with [[0xAA; 0x55; 0x80; 1; 7]; [];
                                           [0xAA; 0x55; 0xC1; 0]])) = [5; 4].
Proof.
  rewrite (proj1 (polls_deliver_in_order recorder 3
                    (recording_with [[0xAA; 0x55; 0x80; 1; 7]; [];
                                     [0xAA; 0x55; 0xC1; 0]]) eq_refl eq_refl)).
  reflexivity.
Defined.

Lemma elapsed_since c d :
  0 <= d < 2^32 -> ((c + d) mod 2^32 - c mod 2^32) mod 2^32 = d.
Proof.
  intros Hd. rewrite <- Zminus_mod.
  replace (c + d - c) with d by lia. by apply Z.mod_small.
Qed.

(** X13.  [update] polls at most once per 100 ms, and the 32-bit millisecond
    counter may wrap in between: [d] ms after a poll made by [update]
    ([d] below 2^32), a call of [update] does nothing at all when [d < 100],
    and otherwise stamps the current time and polls once; after such a poll
    the stamp again equals the current time. *)
Theorem update_polls_once_per_interval {C} d (m : Machine C) :
  s_isInitialized (esp m) = true ->
  s_lastPollTime (esp m) = millis (board m) ->
  0 <= d < 2^32 ->
  let m1 := on_board (delay d) m in
  update m1 =
    (if d <? ESP32_POLL_INTERVAL_MS then m1
     else poll (mkMachine (board m1)
                          (mkStatics (s_rxCallback (esp m)) (millis (board m1)) true)
                          (client m))) ∧
  (ESP32_POLL_INTERVAL_MS <= d ->
   s_lastPollTime (esp (update m1)) = millis (board (update m1)) ∧
   spi_tx (board (update m1)) = spi_tx (board m) ++ [replicate 48 0]).
Proof.
  intros Hinit Hlast Hd m1.
  assert (update m1 =
    (if d <? ESP32_POLL_INTERVAL_MS then m1
     else poll (mkMachine (board m1)
                          (mkStatics (s_rxCallback (esp m)) (millis (board m1)) true)
                          (client m)))) as Hrun.
  { unfold update, m1. cbn [on_board esp board client]. rewrite Hinit, Hlast.
    cbn [negb]. unfold millis, delay. cbn [clock].
    rewrite elapsed_since by done.
    unfold ESP32_POLL_INTERVAL_MS.
    by destruct (Z.leb_spec 100 d), (Z.ltb_spec d 100); try lia. }
  split; [exact Hrun|]. intros Hdue. rewrite Hrun.
  unfold ESP32_POLL_INTERVAL_MS in *.
  destruct (Z.ltb_spec d 100); [lia|].
  destruct (poll_board (mkMachine (board m1)
              (mkStatics (s_rxCallback (esp m)) (millis (board m1)) true)
              (client m)) eq_refl) as [-> ->].
  done.
Qed.

Lemma update_polls_once_per_interval_witness :
  update (on_board (delay 99) recording_machine) =
    on_board (delay 99) recording_machine ∧
  spi_tx (board (update (on_board (delay 100) recording_machine))) =
    [replicate 48 0].
Proof.
  destruct (update_polls_once_per_interval 99 recording_machine)
    as [H99 _]; [reflexivity|reflexivity|lia|].
  destruct (update_polls_once_per_interval 100 recording_machine)
    as [_ H100]; [reflexivity|reflexivity|lia|].
  split; [exact H99|]. apply H100. unfold ESP32_POLL_INTERVAL_MS. lia.
Defined.

(** The stamp is compared modulo 2^32: the interval is kept across the
    counter's wrap-around. *)
Example update_across_wrap :
  let m := mkMachine (mkBoard (2^32 - 40) true true false [] [])
                     (mkStatics (Some recorder) (2^32 - 40) true) [] in
  length (spi_tx (board (update (on_board (delay 99) m)))) = 0%nat ∧
  length (spi_tx (board (update (on_board (delay 100) m)))) = 1%nat ∧
  s_lastPollTime (esp (update (on_board (delay 100) m))) = 60.
Proof. repeat split; reflexivity. Qed.

End ESP32Facts.

(* ===================================================================== *)
(** * FEHESP32.cpp: the dispatcher and the remaining commands *)
(* ===================================================================== *)

Module FEHESP32Facts.

Import Protocol.
Import ESP32.
Import ESP32Facts.
Import FEHESP32.
Local Open Scope Z_scope.

(** Command ids of ApplicationProtocol.h and UpdaterProtocol.h used by the
    commands below. *)
Definition CMD_SET_DEBUG_LEVEL : Z := 0x02.
Definition CMD_RCS_DISCONNECT : Z := 0x31.
Definition CMD_BLE_START : Z := 0x40.
Definition CMD_BLE_STOP : Z := 0x41.
Definition CMD_BLE_SEND_LOG : Z := 0x42.
Definition CMD_BLE_SET_NAME : Z := 0x43.
Definition CMD_DOWNLOAD_AND_FLASH : Z := 0x30.
Definition CMD_SET_BOOT_PARTITION : Z := 0x31.
Definition CMD_VALIDATE_PARTITION : Z := 0x32.

(** The command bytes [handleMessage] has a case for. *)
Definition handled : list Z :=
  [RSP_ACK; RSP_PONG; NOTIFY_DEBUG; NOTIFY_WIFI_CONNECTED;
   NOTIFY_WIFI_DISCONNECTED; NOTIFY_WIFI_FAILED; NOTIFY_RCS_CONNECTED;
   NOTIFY_RCS_DISCONNECTED; NOTIFY_RCS_DATA; NOTIFY_FLASH_PROGRESS;
   NOTIFY_FLASH_COMPLETE; NOTIFY_FLASH_FAILED; RSP_PARTITION_VALID;
   RSP_BLE_STATUS; NOTIFY_BLE_CLIENT_EVENT].

Ltac dispatch_facts :=
  repeat match goal with
    | H : (_ =? _) = true |- _ => apply Z.eqb_eq in H
    | H : (_ <=? _) = true |- _ => apply Z.leb_le in H
    | H : (_ <? _) = true |- _ => apply Z.ltb_lt in H
    | H : (_ <? _) = false |- _ => apply Z.ltb_ge in H
    | H : (_ || _) = true |- _ => apply orb_true_iff in H as [H|H]
    end.

Ltac dispatch_cases :=
  unfold handleMessage; repeat case_match; cbn;
  first [by left | right; dispatch_facts; (split; [tauto|lia]) || tauto].

(** X14.  Which message may change which field.  Whatever the message,
    [handleMessage] never changes the registered RCS callback, and it changes
    - the version only for a pong of at least 8 bytes,
    - the acknowledged-command slot only for an ack of at least 5 bytes,
    - the flash error code only for a flash-failed notice of at least 5,
    - the validated partition only for a partition response of at least 5,
    - the BLE state only for a BLE status or client event of at least 5,
    - the WiFi connection flag only for one of the three WiFi notices,
    - the RCS connection flag only for an RCS connect or disconnect notice,
    - the serial port and the RCS callback see output only for a debug or
      RCS-data message of at least 5 bytes;
    and a message whose command byte has no case changes nothing at all. *)
Theorem handleMessage_field_ownership msg len d :
  s_rcsCallback (link (handleMessage msg len d)) = s_rcsCallback (link d) ∧
  (s_version (link (handleMessage msg len d)) = s_version (link d) ∨
   (rd msg 2 = RSP_PONG ∧ 8 <= len)) ∧
  (s_lastAckedCmd (link (handleMessage msg len d)) = s_lastAckedCmd (link d) ∨
   (rd msg 2 = RSP_ACK ∧ 5 <= len)) ∧
  (s_flashErrorCode (link (handleMessage msg len d)) = s_flashErrorCode (link d) ∨
   (rd msg 2 = NOTIFY_FLASH_FAILED ∧ 5 <= len)) ∧
  (s_validatedPartition (link (handleMessage msg len d)) =
     s_validatedPartition (link d) ∨
   (rd msg 2 = RSP_PARTITION_VALID ∧ 5 <= len)) ∧
  (s_bleState (link (handleMessage msg len d)) = s_bleState (link d) ∨
   ((rd msg 2 = RSP_BLE_STATUS ∨ rd msg 2 = NOTIFY_BLE_CLIENT_EVENT) ∧ 5 <= len)) ∧
  (s_connected (link (handleMessage msg len d)) = s_connected (link d) ∨
   (rd msg 2 = NOTIFY_WIFI_CONNECTED ∨ rd msg 2 = NOTIFY_WIFI_DISCONNECTED ∨
    rd msg 2 = NOTIFY_WIFI_FAILED)) ∧
  (s_rcsConnected (link (handleMessage msg len d)) = s_rcsConnected (link d) ∨
   (rd msg 2 = NOTIFY_RCS_CONNECTED ∨ rd msg 2 = NOTIFY_RCS_DISCONNECTED)) ∧
  (trace (handleMessage msg len d) = trace d ∨
   ((rd msg 2 = NOTIFY_DEBUG ∨ rd msg 2 = NOTIFY_RCS_DATA) ∧ 5 <= len)) ∧
  (handleMessage msg len d = d ∨ rd msg 2 ∈ handled).
Proof.
  split; [unfold handleMessage; by repeat case_match|].
  repeat split; try dispatch_cases.
  unfold handleMessage, handled; repeat case_match; try (by left);
    right; dispatch_facts;
    repeat match goal with
      | H : rd msg 2 = _ |- _ => rewrite H; clear H
      end; unfold elem_of; repeat first [by left | right].
Qed.

(** ** From the wire to the statics *)

(** A 32-bit value as the peer lays it out: four bytes, least significant
    first. *)
Definition le32_bytes (n : Z) : list Z :=
  [n mod 256; (n / 2^8) mod 256; (n / 2^16) mod 256; (n / 2^24) mod 256].

(** [NOTIFY_FLASH_PROGRESS]: bytes written, then total bytes. *)
Definition frame_flash_progress (written total : Z) : list Z :=
  [0xAA; 0x55; NOTIFY_FLASH_PROGRESS; 8] ++ le32_bytes written ++ le32_bytes total.

Lemma rx_buffer_pad answer :
  (length answer <= 48)%nat -> bytes answer ->
  rx_buffer answer = answer ++ replicate (48 - length answer) 0.
Proof.
  intros Hlen Hbytes. unfold rx_buffer.
  change (Z.to_nat ESP32_TX_BUF_LEN) with 48%nat.
  rewrite take_app_ge by lia. rewrite fmap_app. f_equal.
  - induction Hbytes as [|z l Hz _ IH]; [done|].
    cbn [fmap list_fmap]. f_equal; [unfold u8; apply Z.mod_small; lia|].
    apply IH. cbn in Hlen. lia.
  - unfold zero_buf. change (Z.to_nat ESP32_TX_BUF_LEN) with 48%nat.
    rewrite take_replicate, fmap_replicate. f_equal. lia.
Qed.

Lemma le32_bytes_bytes n : bytes (le32_bytes n).
Proof.
  unfold bytes, le32_bytes. repeat constructor; apply Z.mod_pos_bound; lia.
Qed.

Lemma le32_round_trip n pre post :
  0 <= n < 2^32 ->
  le32 (pre ++ le32_bytes n ++ post) (length pre) = n.
Proof.
  intros Hn.
  assert (∀ j, rd (pre ++ le32_bytes n ++ post) (length pre + j) =
               rd (le32_bytes n ++ post) j) as Hrd.
  { intros j. unfold rd. rewrite lookup_app_r by lia. do 2 f_equal. lia. }
  unfold le32. rewrite <- (Nat.add_0_r (length pre)) at 1.
  rewrite !Hrd. unfold rd. cbn [le32_bytes app lookup list_lookup default].
  unfold id.
  change (2^8) with 256. change (2^16) with 65536. change (2^24) with 16777216.
  change (2^32) with 4294967296 in Hn.
  replace (n / 65536) with (n / 256 / 256)
    by (by rewrite Z.div_div by lia).
  replace (n / 16777216) with (n / 256 / 256 / 256)
    by (by rewrite !Z.div_div by lia).
  Z.div_mod_to_equations. lia.
Qed.

Lemma poll_delivers m :
  linked m ->
  client (FEHESP32.poll m) = deliver handleMessage (client m) (nth_rx (board m) 0) ∧
  linked (FEHESP32.poll m).
Proof.
  intros [Hinit Hcb]. split.
  - by apply poll_step.
  - destruct (poll_board m Hinit) as [_ Hesp].
    unfold linked, FEHESP32.poll. by rewrite Hesp.
Qed.

(** X15.  A flash-progress notification read by [poll] ends up in the
    statics decoded: for all 32-bit [written] and [total], after the poll
    [s_flashBytes = written], [s_flashTotal = total] and [s_flashing] is set;
    no other field changes and nothing is printed. *)
Theorem poll_decodes_flash_progress written total rest m :
  linked m ->
  0 <= written < 2^32 -> 0 <= total < 2^32 ->
  spi_rx (board m) = frame_flash_progress written total :: rest ->
  client (FEHESP32.poll m) =
    on_link (λ l, set_flashing true
                    (set_flashTotal total (set_flashBytes written l))) (client m) ∧
  spi_rx (board (FEHESP32.poll m)) = rest.
Proof.
  intros Hm Hw Ht Hrx. pose proof Hm as [Hinit _].
  destruct (poll_delivers m Hm) as [-> _].
  destruct (poll_board m Hinit) as [Hb _].
  split; [|unfold FEHESP32.poll; by rewrite Hb, Hrx].
  unfold nth_rx. rewrite Hrx.
  change (default [] ((frame_flash_progress written total :: rest) !! 0%nat))
    with (frame_flash_progress written total).
  rewrite rx_buffer_pad.
  2: { cbn. lia. }
  2: { unfold frame_flash_progress, bytes. rewrite !Forall_app.
       split; [repeat constructor; unfold NOTIFY_FLASH_PROGRESS; lia|].
       split; apply le32_bytes_bytes. }
  set (msg := frame_flash_progress written total ++ _).
  assert (le32 msg 4 = written) as Hbytes.
  { unfold msg, frame_flash_progress. rewrite <- !app_assoc.
    apply (le32_round_trip written [0xAA; 0x55; NOTIFY_FLASH_PROGRESS; 8]). done. }
  assert (le32 msg 8 = total) as Htotal.
  { unfold msg, frame_flash_progress.
    rewrite (app_assoc _ (le32_bytes written)), <- (app_assoc _ (le32_bytes total)).
    apply (le32_round_trip total
             ([0xAA; 0x55; NOTIFY_FLASH_PROGRESS; 8] ++ le32_bytes written)). done. }
  unfold deliver.
  assert (has_sync msg = true) as -> by reflexivity.
  assert (rx_totalLen msg = 12) as -> by reflexivity.
  unfold handleMessage.
  assert (rd msg 2 = NOTIFY_FLASH_PROGRESS) as -> by reflexivity.
  clearbody msg. cbn -[le32]. by rewrite Hbytes, Htotal.
Qed.

Lemma poll_decodes_flash_progress_witness :
  s_flashBytes (link (client (FEHESP32.poll
                                (ready [frame_flash_progress 70000 1000000])))) = 70000 ∧
  s_flashTotal (link (client (FEHESP32.poll
                                (ready [frame_flash_progress 70000 1000000])))) = 1000000.
Proof.
  destruct (poll_decodes_flash_progress 70000 1000000 []
              (ready [frame_flash_progress 70000 1000000])) as [-> _];
    [split; reflexivity|lia|lia|reflexivity|].
  split; reflexivity.
Defined.

(** ** [waitForWifiConnect] *)

(** The loop of [waitForWifiConnect]:
    [while (millis() - startTime < timeoutMs)
       { poll(); if (s_wifiConnectResult) return s_wifiConnectSuccess; delay(10); }
     return false;]
    [None] when the fuel ends with the loop still live. *)
Fixpoint waitForWifiConnect_loop (fuel : nat) (startTime timeoutMs : Z)
  (m : Machine) : option (bool * Machine) :=
  if (millis (board m) - startTime) mod 2^32 <? timeoutMs then
    match fuel with
    | O => None
    | S fuel' =>
        let m1 := FEHESP32.poll m in
        if s_wifiConnectResult (link (client m1))
        then Some (s_wifiConnectSuccess (link (client m1)), m1)
        else waitForWifiConnect_loop fuel' startTime timeoutMs
               (on_board (delay 10) m1)
    end
  else Some (false, m).

(** [bool FEHESP32::waitForWifiConnect(uint32_t timeoutMs)] *)
Definition waitForWifiConnect (fuel : nat) (timeoutMs : Z) (m : Machine)
  : option (bool * Machine) :=
  let m0 := on_driver (on_link (λ l, set_wifiConnectSuccess false
                                       (set_wifiConnectResult false l))) m in
  let startTime := millis (board m0) in
  waitForWifiConnect_loop fuel startTime timeoutMs m0.


Definition frame_wifi (cmd : Z) : list Z := [0xAA; 0x55; cmd; 0].

Ltac bool_facts :=
  repeat match goal with
    | H : (_ =? _) = true |- _ => apply Z.eqb_eq in H
    | H : (_ =? _) = false |- _ => apply Z.eqb_neq in H
    | H : (_ <=? _) = true |- _ => apply Z.leb_le in H
    | H : (_ <=? _) = false |- _ => apply Z.leb_gt in H
    | H : (_ <? _) = true |- _ => apply Z.ltb_lt in H
    | H : (_ <? _) = false |- _ => apply Z.ltb_ge in H
    | H : (_ || _) = true |- _ => apply orb_true_iff in H as [H|H]
    | H : (_ || _) = false |- _ => apply orb_false_iff in H as [? ?]
    | H : (_ && _) = true |- _ => apply andb_true_iff in H as [? ?]
    end.

Ltac unfold_ids :=
  unfold RSP_ACK, RSP_PONG, NOTIFY_DEBUG, NOTIFY_WIFI_CONNECTED,
    NOTIFY_WIFI_FAILED, NOTIFY_WIFI_DISCONNECTED, RSP_PARTITION_VALID,
    NOTIFY_FLASH_PROGRESS, NOTIFY_FLASH_COMPLETE, NOTIFY_FLASH_FAILED,
    NOTIFY_RCS_CONNECTED, NOTIFY_RCS_DISCONNECTED, NOTIFY_RCS_DATA,
    RSP_BLE_STATUS, NOTIFY_BLE_CLIENT_EVENT in *.


Lemma rx_totalLen_ge answer : 4 <= rx_totalLen (rx_buffer answer).
Proof.
  pose proof (rd_rx_buffer_range answer 3).
  rewrite rx_totalLen_value by lia. lia.
Qed.






(** A disconnect notice that arrives first decides the call, whatever
    follows. *)
Example waitForWifiConnect_stale_disconnect :
  fst <$> waitForWifiConnect 1001 10000
            (ready [frame_wifi NOTIFY_WIFI_DISCONNECTED;
                    frame_wifi NOTIFY_WIFI_CONNECTED]) = Some false.
Proof. vm_compute. reflexivity. Qed.

(** ** Commands that build a payload *)

(** A framed command whose payload is the first [n] bytes of the caller's
    buffer. *)
Lemma plain_frame_prefix cmd buf n :
  0 < n <= 44 -> (Z.to_nat n <= length buf)%nat -> prebuilt buf n = false ->
  tx_frame cmd (Some buf) n =
    [UPDATER_PROTOCOL_SYNC_BYTE_1; UPDATER_PROTOCOL_SYNC_BYTE_2; cmd; n]
      ++ take (Z.to_nat n) buf ++ replicate (44 - Z.to_nat n) 0.
Proof.
  intros Hn Hbuf Hplain. unfold tx_frame. rewrite Hplain.
  destruct (Z.ltb_spec 0 n); [|lia].
  change (u8 (ESP32_TX_BUF_LEN - 4)) with 44. rewrite Z.min_l by lia.
  rewrite memcpy_explicit by (rewrite ?tx_header_length; lia).
  change (tx_header cmd n) with
    ([UPDATER_PROTOCOL_SYNC_BYTE_1; UPDATER_PROTOCOL_SYNC_BYTE_2; cmd; n]
       ++ replicate 44 0).
  rewrite take_app_length' by done.
  rewrite drop_app_ge by (cbn; lia).
  cbn [length]. rewrite drop_replicate. do 3 f_equal. lia.
Qed.

Lemma sendCommand_linked cmd data dataLen (m : Machine) :
  linked m ->
  (ESP32.sendCommand cmd data dataLen m).1 = true ∧
  linked (ESP32.sendCommand cmd data dataLen m).2 ∧
  clock (board (ESP32.sendCommand cmd data dataLen m).2) = clock (board m) ∧
  spi_tx (board (ESP32.sendCommand cmd data dataLen m).2) =
    spi_tx (board m) ++ [tx_frame cmd data dataLen] ∧
  spi_rx (board (ESP32.sendCommand cmd data dataLen m).2) = tail (spi_rx (board m)) ∧
  client (ESP32.sendCommand cmd data dataLen m).2 =
    deliver handleMessage (client m) (nth_rx (board m) 0).
Proof.
  intros [Hinit Hcb]. unfold ESP32.sendCommand, linked. rewrite Hinit.
  cbn [negb spiTransfer fst snd].
  rewrite (proj1 (handleReceivedMessage_board _ _)),
          (proj2 (handleReceivedMessage_board _ _)).
  cbn [board esp clock spi_tx spi_rx]. repeat split; try done.
  unfold handleReceivedMessage, deliver, has_sync. cbn [esp client].
  rewrite Hcb.
  destruct (rd (nth_rx (board m) 0) 0 =? UPDATER_PROTOCOL_SYNC_BYTE_1),
    (rd (nth_rx (board m) 0) 1 =? UPDATER_PROTOCOL_SYNC_BYTE_2); done.
Qed.

Lemma strlen8_range s : 0 <= strlen8 s < 256 ∧ (Z.to_nat (strlen8 s) <= length s)%nat.
Proof.
  unfold strlen8, u8.
  pose proof (Z.mod_pos_bound (Z.of_nat (length s)) 256 ltac:(lia)).
  pose proof (Z.mod_le (Z.of_nat (length s)) 256 ltac:(lia) ltac:(lia)).
  lia.
Qed.

(** The local [buf[33]] of [downloadAndFlash]:
    [buf[0] = urlLen; memcpy(&buf[1], url, urlLen);] *)
Definition downloadAndFlash_buf (url : list Z) : list Z :=
  let urlLen := strlen8 url in
  memcpy 1 url urlLen (<[0%nat := urlLen]> (replicate 33 0)).

(** The five assignments [downloadAndFlash] makes before it sends. *)
Definition flash_started (l : Link) : Link :=
  set_flashTotal 0
    (set_flashBytes 0
       (set_flashError false (set_flashComplete false (set_flashing true l)))).

(** [bool FEHESP32::downloadAndFlash(const char *url)] *)
Definition downloadAndFlash (url : list Z) (m : Machine) : bool * Machine :=
  let urlLen := strlen8 url in
  if 32 <? urlLen then (false, m)
  else
    let buf := downloadAndFlash_buf url in
    let m1 := on_driver (on_link flash_started) m in
    ESP32.sendCommand CMD_DOWNLOAD_AND_FLASH (Some buf) (u8 (1 + urlLen)) m1.

Definition url_sample : list Z := [0x66; 0x77; 0x2E; 0x62; 0x69; 0x6E].

(** X17.  [downloadAndFlash] with a URL the length test lets through: on a
    driver set up by [init] it returns [true] and clocks out one frame
    [AA 55 30 n+1 n url...], zero-padded, with the flash flags reset before
    the transfer's answer is dispatched; on a transport that was never
    initialised it returns [false] and sends nothing, yet leaves
    [s_flashing] set.  Neither way touches the flash error code. *)
Theorem downloadAndFlash_frame_and_flags url m :
  strlen8 url <= 32 ->
  (linked m ->
   (downloadAndFlash url m).1 = true ∧
   spi_tx (board (downloadAndFlash url m).2) =
     spi_tx (board m) ++
       [[0xAA; 0x55; CMD_DOWNLOAD_AND_FLASH; 1 + strlen8 url; strlen8 url]
          ++ take (Z.to_nat (strlen8 url)) url
          ++ replicate (43 - Z.to_nat (strlen8 url)) 0] ∧
   client (downloadAndFlash url m).2 =
     deliver handleMessage (on_link flash_started (client m))
             (nth_rx (board m) 0)) ∧
  (s_isInitialized (esp m) = false ->
   downloadAndFlash url m = (false, on_driver (on_link flash_started) m) ∧
   s_flashing (link (client (downloadAndFlash url m).2)) = true ∧
   spi_tx (board (downloadAndFlash url m).2) = spi_tx (board m)) ∧
  s_flashErrorCode (flash_started (link (client m))) =
    s_flashErrorCode (link (client m)).
Proof.
  intros Hshort. destruct (strlen8_range url) as [Hn Hsrc].
  unfold downloadAndFlash. destruct (Z.ltb_spec 32 (strlen8 url)); [lia|].
  cbv zeta.
  assert (u8 (1 + strlen8 url) = 1 + strlen8 url) as ->
    by (unfold u8; apply Z.mod_small; lia).
  split; [|split; [|done]].
  - intros Hm.
    destruct (sendCommand_linked CMD_DOWNLOAD_AND_FLASH
                (Some (downloadAndFlash_buf url)) (1 + strlen8 url)
                (on_driver (on_link flash_started) m) Hm)
      as (Hok & _ & _ & Htx & _ & Hclient).
    split; [exact Hok|]. split; [|exact Hclient].
    refine (eq_trans Htx _). cbn [on_driver board]. do 2 f_equal.
    assert (downloadAndFlash_buf url =
              [strlen8 url] ++ take (Z.to_nat (strlen8 url)) url
                ++ replicate (32 - Z.to_nat (strlen8 url)) 0) as Hbuf.
    { unfold downloadAndFlash_buf.
      rewrite memcpy_explicit by (rewrite ?length_insert, ?length_replicate; lia).
      change (<[0%nat:=strlen8 url]> (replicate 33 0)) with
        ([strlen8 url] ++ replicate 32 0).
      rewrite take_app_length' by done.
      rewrite drop_app_ge by (cbn; lia).
      cbn [length]. rewrite drop_replicate. do 3 f_equal. lia. }
    rewrite plain_frame_prefix.
    + rewrite Hbuf. cbn [app]. do 4 f_equal.
      replace (Z.to_nat (1 + strlen8 url)) with (S (Z.to_nat (strlen8 url))) by lia.
      cbn [take]. f_equal. rewrite take_app_length'
        by (rewrite length_take; lia).
      cbn [app]. do 2 f_equal.
    + lia.
    + rewrite Hbuf, !length_app, length_take, length_replicate. cbn. lia.
    + assert (rd (downloadAndFlash_buf url) 0 = strlen8 url) as Hhead
        by (by rewrite Hbuf).
      unfold prebuilt. rewrite Hhead.
      destruct (Z.eqb_spec (strlen8 url) UPDATER_PROTOCOL_SYNC_BYTE_1) as [Heq|_];
        [unfold UPDATER_PROTOCOL_SYNC_BYTE_1 in Heq; lia|].
      by rewrite andb_false_r.
  - intros Hoff. unfold ESP32.sendCommand. cbn [on_driver esp].
    by rewrite Hoff.
Qed.

Lemma downloadAndFlash_frame_and_flags_witness :
  spi_tx (board (downloadAndFlash url_sample (ready [])).2) =
    [[0xAA; 0x55; 0x30; 7; 6; 0x66; 0x77; 0x2E; 0x62; 0x69; 0x6E]
       ++ replicate 37 0] ∧
  (downloadAndFlash url_sample power_on).1 = false ∧
  s_flashing (link (client (downloadAndFlash url_sample power_on).2)) = true.
Proof.
  destruct (downloadAndFlash_frame_and_flags url_sample (ready []))
    as ((_ & Htx & _) & _); [vm_compute; discriminate|split; reflexivity|].
  destruct (downloadAndFlash_frame_and_flags url_sample power_on)
    as (_ & Hoff & _); [vm_compute; discriminate|].
  destruct (Hoff eq_refl) as (Hres & Hflag & _).
  split; [exact Htx|]. split; [by rewrite Hres|exact Hflag].
Defined.









(** ** [validatePartition] and its answer *)

(** [bool FEHESP32::validatePartition()] *)
Definition validatePartition (m : Machine) : bool * Machine :=
  let m1 := on_driver (on_link (λ l, set_validatedPartition 0xFF
                                       (set_partitionValid false l))) m in
  ESP32.sendCommand CMD_VALIDATE_PARTITION None 0 m1.

(** The received buffer is a partition-valid response with its payload
    byte. *)
Definition is_partition_response (rx : list Z) : bool :=
  has_sync rx && (rd rx 2 =? RSP_PARTITION_VALID) && (1 <=? rd rx 3).

Definition frame_partition_valid (p : Z) : list Z :=
  [0xAA; 0x55; RSP_PARTITION_VALID; 1; p].

Lemma handleMessage_partition msg len d :
  4 <= len ->
  s_partitionValid (link (handleMessage msg len d)) =
    s_partitionValid (link d) || ((rd msg 2 =? RSP_PARTITION_VALID) && (5 <=? len)).
Proof.
  intros Hlen. unfold handleMessage.
  destruct (Z.ltb_spec len 4); [lia|]. cbv zeta.
  destruct (Z.eqb_spec (rd msg 2) RSP_PARTITION_VALID) as [Heq|Hne].
  - rewrite Heq. cbn. destruct (5 <=? len); cbn;
      by rewrite ?orb_true_r, ?orb_false_r.
  - rewrite andb_false_l, orb_false_r. by repeat case_match.
Qed.

Lemma deliver_partition d answer :
  s_partitionValid (link (deliver handleMessage d (rx_buffer answer))) =
    s_partitionValid (link d) || is_partition_response (rx_buffer answer).
Proof.
  unfold deliver, is_partition_response.
  destruct (has_sync (rx_buffer answer)); [|by rewrite orb_false_r].
  rewrite handleMessage_partition by apply rx_totalLen_ge.
  pose proof (rd_rx_buffer_range answer 3).
  rewrite rx_totalLen_value by lia. cbn [andb]. do 2 f_equal.
  destruct (Z.leb_spec 5 (4 + Z.min (rd (rx_buffer answer) 3) 44)),
    (Z.leb_spec 1 (rd (rx_buffer answer) 3)); lia || done.
Qed.

Lemma polls_partition k m :
  linked m ->
  linked (polls k m) ∧
  spi_rx (board (polls k m)) = drop k (spi_rx (board m)) ∧
  s_partitionValid (link (client (polls k m))) =
    s_partitionValid (link (client m))
    || existsb is_partition_response (nth_rx (board m) <$> seq 0 k).
Proof.
  intros Hm. induction k as [|k (IHm & IHrx & IHv)].
  { cbn. by rewrite drop_0, orb_false_r. }
  change (polls (S k) m) with (FEHESP32.poll (polls k m)).
  destruct (poll_delivers (polls k m) IHm) as [Hc Hm'].
  destruct (poll_board (polls k m) (proj1 IHm)) as [Hb _].
  split; [done|]. unfold FEHESP32.poll in *. rewrite Hb, Hc.
  cbn [spi_rx]. split; [rewrite IHrx; apply tail_drop|].
  assert (nth_rx (board (polls k m)) 0 = nth_rx (board m) k) as ->.
  { unfold nth_rx. by rewrite IHrx, lookup_drop, Nat.add_0_r. }
  unfold nth_rx at 1. rewrite deliver_partition, IHv.
  rewrite seq_S, fmap_app, existsb_app. cbn [fmap list_fmap existsb Nat.add].
  by rewrite orb_false_r, orb_assoc.
Qed.

(** X19.  [validatePartition] discards what was known: after the call and
    [k] further polls, [isPartitionValid()] is true exactly when one of the
    [k + 1] buffers received since the call began is a partition-valid
    response - whatever the flag was before. *)
Theorem validatePartition_forgets_old_answer k m :
  linked m ->
  s_partitionValid (link (client (polls k (validatePartition m).2))) =
    existsb is_partition_response (nth_rx (board m) <$> seq 0 (S k)).
Proof.
  intros Hm. unfold validatePartition.
  set (m1 := on_driver _ m).
  assert (linked m1) as Hm1 by exact Hm.
  destruct (sendCommand_linked CMD_VALIDATE_PARTITION None 0 m1 Hm1)
    as (_ & Hm2 & _ & _ & Hrx & Hc).
  etrans; [exact (proj2 (proj2 (polls_partition k _ Hm2)))|].
  rewrite Hc. unfold nth_rx at 1. rewrite deliver_partition.
  cbn [seq fmap list_fmap existsb]. f_equal.
  rewrite <- fmap_S_seq, <- list_fmap_compose. f_equal.
  apply list_fmap_ext. intros i j _. cbn.
  unfold nth_rx. rewrite Hrx. by rewrite lookup_tail.
Qed.

Lemma validatePartition_forgets_old_answer_witness :
  s_partitionValid (link (client
    (polls 2 (validatePartition
                (FEHESP32.poll (ready [frame_partition_valid 1]))).2))) = false ∧
  s_partitionValid (link (client
    (polls 2 (validatePartition
                (ready [[]; []; frame_partition_valid 1])).2))) = true.
Proof.
  split.
  - rewrite (validatePartition_forgets_old_answer 2
               (FEHESP32.poll (ready [frame_partition_valid 1])));
      [reflexivity|split; reflexivity].
  - rewrite (validatePartition_forgets_old_answer 2
               (ready [[]; []; frame_partition_valid 1]));
      [reflexivity|split; reflexivity].
Defined.

(** ** [startBLELog] *)

(** [nameLen], the local [buf[17]] and the length passed on:
    [nameLen = strlen(deviceName); if (nameLen > 16) nameLen = 16;
     buf[0] = nameLen; memcpy(&buf[1], deviceName, nameLen);] *)
Definition startBLELog_buf (deviceName : list Z) : list Z * Z :=
  let nameLen := strlen8 deviceName in
  let nameLen := if 16 <? nameLen then 16 else nameLen in
  (memcpy 1 deviceName nameLen (<[0%nat := nameLen]> (replicate 17 0)),
   u8 (1 + nameLen)).

(** [bool FEHESP32::startBLELog(const char *deviceName)]; [None] is the null
    pointer.  The test [strlen(deviceName) > 0] is made on the full
    length. *)
Definition startBLELog (fuel : nat) (deviceName : option (list Z)) (m : Machine)
  : option (bool * Machine) :=
  let start (m : Machine) : option (bool * Machine) :=
    Some (ESP32.sendCommand CMD_BLE_START None 0 (on_board (delay 20) m)) in
  match deviceName with
  | Some name =>
      if 0 <? Z.of_nat (length name) then
        let '(buf, n) := startBLELog_buf name in
        let '(ok, m1) := ESP32.sendCommand CMD_BLE_SET_NAME (Some buf) n m in
        if negb ok then Some (false, m1)
        else
          match waitForAck fuel CMD_BLE_SET_NAME 5000 m1 with
          | Some (true, m2) => start m2
          | Some (false, m2) => Some (false, m2)
          | None => None
          end
      else start m
  | None => start m
  end.

Definition name_ROBOT : list Z := [0x52; 0x4F; 0x42; 0x4F; 0x54].

Lemma waitForAck_loop_frames fuel cmdId startTime timeout m b m' :
  linked m ->
  waitForAck_loop fuel cmdId startTime timeout m = Some (b, m') ->
  linked m' ∧
  ∃ j, spi_tx (board m') = spi_tx (board m) ++ replicate j (replicate 48 0).
Proof.
  revert m. induction fuel as [|fuel IH]; intros m Hm; cbn [waitForAck_loop].
  - case_match; [done|]. intros [= <- <-]. split; [done|].
    exists 0%nat. by rewrite app_nil_r.
  - case_match; last first.
    { intros [= <- <-]. split; [done|]. exists 0%nat. by rewrite app_nil_r. }
    destruct (poll_delivers m Hm) as [_ Hm1].
    destruct (poll_board m (proj1 Hm)) as [Hb _].
    case_match.
    + intros [= <- <-]. split; [done|]. exists 1%nat.
      unfold FEHESP32.poll. by rewrite Hb.
    + intros Hrun.
      destruct (IH (on_board (delay 10) (FEHESP32.poll m)) Hm1 Hrun)
        as (Hm' & j & Htx).
      split; [done|]. exists (S j). rewrite Htx. cbn [on_board board delay spi_tx].
      unfold FEHESP32.poll. rewrite Hb. cbn [spi_tx].
      by rewrite <- app_assoc.
Qed.

(** X20.  [startBLELog] with a device name sends the start command only once
    the set-name command has been acknowledged: it returns (the wait taking
    at most 501 rounds), it returns [true] exactly when one of the buffers
    polled during the 5 s after the set-name transfer is an ack for
    [CMD_BLE_SET_NAME], and what it clocks out is the set-name frame, then
    empty poll frames, then - only in the [true] case - the start frame.
    An ack that comes back within the set-name transfer itself is not
    counted. *)
Theorem startBLELog_waits_for_name_ack name m :
  linked m -> (0 < length name)%nat ->
  ∃ b m' j,
    startBLELog 501 (Some name) m = Some (b, m') ∧
    (b = true <->
     ∃ k : nat, 10 * Z.of_nat k < 5000 ∧
                is_ack_for CMD_BLE_SET_NAME (nth_rx (board m) (S k)) = true) ∧
    spi_tx (board m') =
      spi_tx (board m)
        ++ [tx_frame CMD_BLE_SET_NAME (Some (startBLELog_buf name).1)
                     (startBLELog_buf name).2]
        ++ replicate j (replicate 48 0)
        ++ (if b then [tx_frame CMD_BLE_START None 0] else []).
Proof.
  intros Hm Hname. unfold startBLELog.
  destruct (Z.ltb_spec 0 (Z.of_nat (length name))); [|lia].
  destruct (startBLELog_buf name) as [buf n] eqn:Hbuf. cbn [fst snd].
  destruct (sendCommand_linked CMD_BLE_SET_NAME (Some buf) n m Hm)
    as (Hok & Hm1 & Hclock1 & Htx1 & Hrx1 & _).
  destruct (ESP32.sendCommand CMD_BLE_SET_NAME (Some buf) n m) as [ok m1].
  cbn [fst snd] in *. subst ok. cbn [negb].
  unfold waitForAck.
  set (m0 := on_driver (on_link (set_lastAckedCmd 0)) m1).
  assert (linked m0) as Hm0 by exact Hm1.
  destruct (waitForAck_loop_spec 501 CMD_BLE_SET_NAME (clock (board m0)) 5000 0 m0)
    as (b & m2 & Hrun & Hiff & _);
    [exact Hm0|cbn; discriminate|lia|cbn; lia|lia|lia|].
  unfold millis. rewrite Hrun.
  destruct (waitForAck_loop_frames _ _ _ _ _ _ _ Hm0 Hrun) as (Hm2 & j & Htx2).
  assert (∀ k, nth_rx (board m0) k = nth_rx (board m) (S k)) as Hshift.
  { intros k. unfold nth_rx. cbn [m0 on_driver board]. rewrite Hrx1.
    by rewrite lookup_tail. }
  assert (b = true <->
          ∃ k : nat, 10 * Z.of_nat k < 5000 ∧
                     is_ack_for CMD_BLE_SET_NAME (nth_rx (board m) (S k)) = true)
    as Hiff'.
  { rewrite Hiff. split; intros (k & Hk & Hack); exists k;
      (split; [lia|]); [by rewrite <- Hshift|by rewrite Hshift]. }
  destruct b.
  - destruct (sendCommand_linked CMD_BLE_START None 0 (on_board (delay 20) m2) Hm2)
      as (Hok3 & _ & _ & Htx3 & _).
    destruct (ESP32.sendCommand CMD_BLE_START None 0 (on_board (delay 20) m2))
      as [ok3 m3]. cbn [fst snd] in *. subst ok3.
    exists true, m3, j. split; [done|]. split; [done|].
    rewrite Htx3. cbn [on_board board delay spi_tx].
    rewrite Htx2. cbn [m0 on_driver board]. rewrite Htx1.
    by rewrite <- !app_assoc.
  - exists false, m2, j. split; [done|]. split; [done|].
    rewrite Htx2. cbn [m0 on_driver board]. rewrite Htx1.
    by rewrite <- !app_assoc, app_nil_r.
Qed.

Lemma startBLELog_waits_for_name_ack_witness :
  ∃ m',
    startBLELog 501 (Some name_ROBOT)
      (ready [[]; []; frame_ack CMD_BLE_SET_NAME]) = Some (true, m').
Proof.
  destruct (startBLELog_waits_for_name_ack name_ROBOT
              (ready [[]; []; frame_ack CMD_BLE_SET_NAME]))
    as (b & m' & j & Hrun & Hiff & _).
  - split; reflexivity.
  - cbn. lia.
  - exists m'. rewrite Hrun. do 2 f_equal. apply Hiff. exists 1%nat.
    split; [lia|reflexivity].
Defined.

(** The acknowledgement clocked back during the set-name transfer itself is
    dropped by the slot reset; with a peer that stays silent afterwards the
    call gives up after 5 s and the start command is never sent. *)
Example startBLELog_early_ack_lost :
  (λ r, (r.1, length (spi_tx (board r.2)), clock (board r.2))) <$>
    startBLELog 501 (Some name_ROBOT) (ready [frame_ack CMD_BLE_SET_NAME]) =
    Some (false, 501%nat, 6500).
Proof. vm_compute. reflexivity. Qed.

(** ** [sendBLELog] *)

(** [bool FEHESP32::sendBLELog(const char *msg)]; [None] is the null
    pointer. *)
Definition sendBLELog (msg : option (list Z)) (m : Machine) : bool * Machine :=
  match msg with
  | None => (false, m)
  | Some text =>
      let len := strlen8 text in
      if (len =? 0) || (32 <? len) then (false, m)
      else ESP32.sendCommand CMD_BLE_SEND_LOG (Some text) len m
  end.

(** Text in 7-bit ASCII: no terminator inside, no byte with the top bit. *)
Definition ascii_text (s : list Z) : Prop := Forall (λ z, 0 < z < 128) s.

Definition text_hello : list Z := [0x68; 0x65; 0x6C; 0x6C; 0x6F].

(** X24.  [sendBLELog] refuses a null pointer, an empty message and one
    whose (narrowed) length exceeds 32, sending nothing; an ASCII message of
    1 to 32 characters goes out as [AA 55 42 len text...], zero-padded to 48
    bytes. *)
Theorem sendBLELog_frames_text text m :
  linked m -> ascii_text text ->
  sendBLELog None m = (false, m) ∧
  (strlen8 text = 0 ∨ 32 < strlen8 text -> sendBLELog (Some text) m = (false, m)) ∧
  ((0 < length text <= 32)%nat ->
   (sendBLELog (Some text) m).1 = true ∧
   spi_tx (board (sendBLELog (Some text) m).2) =
     spi_tx (board m) ++
       [[0xAA; 0x55; CMD_BLE_SEND_LOG; Z.of_nat (length text)] ++ text
          ++ replicate (44 - length text) 0]).
Proof.
  intros Hm Htext. split; [done|]. split.
  - intros Hbad. unfold sendBLELog.
    destruct (Z.eqb_spec (strlen8 text) 0), (Z.ltb_spec 32 (strlen8 text));
      cbn [orb]; try done. lia.
  - intros Hlen. unfold sendBLELog.
    rewrite strlen8_short by lia.
    destruct (Z.eqb_spec (Z.of_nat (length text)) 0); [lia|].
    destruct (Z.ltb_spec 32 (Z.of_nat (length text))); [lia|]. cbn [orb].
    destruct (sendCommand_linked CMD_BLE_SEND_LOG (Some text)
                (Z.of_nat (length text)) m Hm) as (Hok & _ & _ & Htx & _).
    split; [exact Hok|]. refine (eq_trans Htx _). do 2 f_equal.
    apply plain_frame; [lia|].
    unfold prebuilt. destruct text as [|c text]; [cbn in Hlen; lia|].
    apply Forall_cons in Htext as [Hc _].
    assert (rd (c :: text) 0 = c) as -> by reflexivity.
    destruct (Z.eqb_spec c UPDATER_PROTOCOL_SYNC_BYTE_1) as [Heq|_];
      [unfold UPDATER_PROTOCOL_SYNC_BYTE_1 in Heq; lia|].
    by rewrite andb_false_r.
Qed.

Lemma sendBLELog_frames_text_witness :
  spi_tx (board (sendBLELog (Some text_hello) (ready [])).2) =
    [[0xAA; 0x55; 0x42; 5; 0x68; 0x65; 0x6C; 0x6C; 0x6F] ++ replicate 39 0] ∧
  sendBLELog (Some (replicate 33 0x41)) (ready []) = (false, ready []).
Proof.
  destruct (sendBLELog_frames_text text_hello (ready []))
    as (_ & _ & Hsend);
    [split; reflexivity|repeat constructor; lia|].
  destruct (sendBLELog_frames_text (replicate 33 0x41) (ready []))
    as (_ & Hlong & _);
    [split; reflexivity|repeat constructor; lia|].
  split.
  - apply Hsend. cbn. lia.
  - apply Hlong. right. vm_compute. reflexivity.
Defined.

End FEHESP32Facts.

(* ===================================================================== *)
(** * FEHBuzzer.cpp *)
(* ===================================================================== *)

Module Buzzer.

Import Scheduler.
Local Open Scope Z_scope.

(** Timer 2 bit positions (avr/io.h): [bit(WGM21)], [bit(CS20)],
    [bit(OCIE2A)]; and [BUZZER_MASK = bit(5)]. *)
Definition bit_WGM21 : Z := 2.
Definition bit_CS20 : Z := 1.
Definition bit_OCIE2A : Z := 2.
Definition BUZZER_MASK : Z := 32.

Record Timer2 := mkTimer2 {
  TCCR2A : Z;
  TCCR2B : Z;
  OCR2A : Z;
  TIMSK2 : Z
}.

(** The scheduler's statics, Timer 2, and port G. *)
Record State := mkBuzzer {
  sched : Scheduler.State;
  timer2 : Timer2;
  DDRG : Z;
  PORTG : Z
}.

(** [(uint32_t) z] *)
Definition u32 (z : Z) : Z := z mod 2^32.

(** The divisor each value of the clock-select bits stands for on Timer 2. *)
Definition prescale (bits : Z) : Z :=
  if bits =? 1 then 1 else if bits =? 2 then 8 else if bits =? 3 then 32
  else if bits =? 4 then 64 else if bits =? 5 then 128
  else if bits =? 6 then 256 else 1024.

Section Buzzer.

(** The clock frequency the firmware is built for, and the address of the
    [buzzerOff] callback. *)
Variable F_CPU : Z.
Variable buzzerOff : callback_t.

(** The prescaler cascade of [Tone(int frequency)]: the pair
    [(prescalerBits, ocr)] it ends with.  The divisions are C's; [ocr] is a
    [uint32_t]. *)
Definition tone_divider (frequency : Z) : Z * Z :=
  let q := F_CPU ÷ frequency in
  let ocr := u32 (q ÷ 2 - 1) in
  let prescalerBits := 1 in
  if 255 <? ocr then
    let ocr := u32 (q ÷ 2 ÷ 8 - 1) in
    let prescalerBits := 2 in
    let '(ocr, prescalerBits) :=
      if 255 <? ocr then (u32 (q ÷ 2 ÷ 32 - 1), 3) else (ocr, prescalerBits) in
    if 255 <? ocr then
      let ocr := u32 (q ÷ 2 ÷ 64 - 1) in
      let prescalerBits := 4 in
      let '(ocr, prescalerBits) :=
        if 255 <? ocr then (u32 (q ÷ 2 ÷ 128 - 1), 5) else (ocr, prescalerBits) in
      if 255 <? ocr then
        let ocr := u32 (q ÷ 2 ÷ 256 - 1) in
        let prescalerBits := 6 in
        if 255 <? ocr then (7, u32 (q ÷ 2 ÷ 1024 - 1))
        else (prescalerBits, ocr)
      else (prescalerBits, ocr)
    else (prescalerBits, ocr)
  else (prescalerBits, ocr).

(** [void FEHBuzzer::Tone(int frequency)]; [OCR2A] is an 8-bit register. *)
Definition Tone (frequency : Z) (b : State) : State :=
  let s1 := cancelEvents buzzerOff (sched b) in
  let '(prescalerBits, ocr) := tone_divider frequency in
  mkBuzzer s1
           (mkTimer2 bit_WGM21
                     (Z.lor (Z.land bit_CS20 0xF8) prescalerBits)
                     (ocr mod 256)
                     bit_OCIE2A)
           (Z.lor (DDRG b) BUZZER_MASK) (PORTG b).

(** [void FEHBuzzer::Tone(int frequency, int milliseconds)]; the result of
    [scheduleEvent] is dropped. *)
Definition Tone_for (frequency milliseconds : Z) (b : State) : State :=
  let go (ms : Z) : State :=
    let b1 := Tone frequency b in
    mkBuzzer (scheduleEvent buzzerOff (schedulerMsToTicks ms) (sched b1)).2
             (timer2 b1) (DDRG b1) (PORTG b1) in
  if 4194 <? milliseconds then go 4194
  else if milliseconds <? 0 then b
  else go milliseconds.

(** [void FEHBuzzer::Off()] *)
Definition Off (b : State) : State :=
  mkBuzzer (cancelEvents buzzerOff (sched b))
           (mkTimer2 (TCCR2A (timer2 b)) (TCCR2B (timer2 b)) (OCR2A (timer2 b))
                     (Z.land (TIMSK2 (timer2 b)) (Z.lnot bit_OCIE2A)))
           (DDRG b) (Z.land (PORTG b) (Z.lnot BUZZER_MASK)).

(** [Beep()], [Buzz()], [Buzz(int milliseconds)] *)
Definition Beep (b : State) : State := Tone_for 1000 500 b.
Definition Buzz (b : State) : State := Tone 1000 b.
Definition Buzz_for (milliseconds : Z) (b : State) : State :=
  Tone_for 1000 milliseconds b.

End Buzzer.

(** A silent buzzer over the sample queue. *)
Definition quiet : State := mkBuzzer busy_state (mkTimer2 0 0 0 0) 0 0.

(** ** The prescaler cascade *)

Lemma quot_pos a b : 0 <= a -> 0 < b -> a ÷ b = a / b.
Proof. intros. apply Z.quot_div_nonneg; lia. Qed.

Ltac tone_quotient p :=
  match goal with
  | h : Z |- _ =>
      lazymatch goal with
      | |- context [h / p] =>
          pose proof (Z.mul_div_le h p ltac:(lia));
          pose proof (Z.mul_succ_div_gt h p ltac:(lia));
          let a := fresh "a" in set (a := h / p) in *; clearbody a
      end
  end.

(** X21.  For a clock of at least 2^16 Hz (below 2^32) and a positive
    frequency that fits an [int], [Tone] programs Timer 2 with the smallest
    prescaler of 1, 8, 32, 64, 128, 256, 1024 for which the compare value
    [F_CPU / frequency / 2 / prescaler - 1] fits the 8-bit register, and with
    exactly that value; only when none fits does it fall back to 1024. *)
Theorem tone_divider_smallest_prescaler F_CPU frequency :
  2^16 <= F_CPU < 2^32 -> 0 < frequency < 2^15 ->
  let bits := (tone_divider F_CPU frequency).1 in
  let ocr := (tone_divider F_CPU frequency).2 in
  1 <= bits <= 7 ∧
  ocr = F_CPU / frequency / 2 / prescale bits - 1 ∧
  0 <= ocr ∧
  (ocr <= 255 ∨ bits = 7) ∧
  Forall (λ p, p < prescale bits -> 255 < F_CPU / frequency / 2 / p - 1)
         [1; 8; 32; 64; 128; 256; 1024].
Proof.
  intros HF Hf. cbv zeta.
  assert (2 <= F_CPU / frequency < 2^32) as Hq.
  { split; [apply Z.div_le_lower_bound; lia|apply Z.div_lt_upper_bound; nia]. }
  unfold tone_divider. rewrite (quot_pos F_CPU frequency) by lia.
  set (q := F_CPU / frequency) in *. clearbody q.
  rewrite !quot_pos by (try lia; repeat (apply Z.div_pos; try lia)).
  rewrite !Forall_cons, Forall_nil, (Z.div_1_r (q / 2)).
  unfold u32. change (2^32) with 4294967296 in *.
  assert (1 <= q / 2 < 4294967296) as Hh by (Z.div_mod_to_equations; lia).
  set (h := q / 2) in *. clearbody h. clear q Hq HF Hf.
  tone_quotient 8. tone_quotient 32. tone_quotient 64. tone_quotient 128.
  tone_quotient 256. tone_quotient 1024.
  repeat (match goal with
          | |- context [Z.ltb 255 ?b] => destruct (Z.ltb_spec 255 b)
          end; cbv beta iota zeta; try (exfalso; Z.div_mod_to_equations; lia));
    cbn [fst snd];
    repeat match goal with
      | |- context [prescale ?b] =>
          let v := eval vm_compute in (prescale b) in
          change (prescale b) with v
      end;
    repeat split; intros; Z.div_mod_to_equations; lia.
Qed.

Lemma tone_divider_smallest_prescaler_witness :
  tone_divider 16000000 1000 = (3, 249) ∧
  255 < 16000000 / 1000 / 2 / 8 - 1.
Proof.
  destruct (tone_divider_smallest_prescaler 16000000 1000)
    as (_ & _ & _ & _ & Hsmaller); [lia|lia|].
  split; [reflexivity|].
  apply Forall_cons in Hsmaller as [_ Hsmaller].
  apply Forall_cons in Hsmaller as [H8 _].
  apply H8. reflexivity.
Defined.

(** ** The stop event *)

Lemma Tone_sched F_CPU buzzerOff frequency b :
  sched (Tone F_CPU buzzerOff frequency b) = cancelEvents buzzerOff (sched b).
Proof. unfold Tone. by destruct (tone_divider F_CPU frequency). Qed.

Lemma Tone_for_runs F_CPU buzzerOff frequency ms b :
  0 <= ms ->
  sched (Tone_for F_CPU buzzerOff frequency ms b) =
    (scheduleEvent buzzerOff (schedulerMsToTicks (Z.min ms 4194))
       (cancelEvents buzzerOff (sched b))).2 ∧
  timer2 (Tone_for F_CPU buzzerOff frequency ms b) =
    timer2 (Tone F_CPU buzzerOff frequency b).
Proof.
  intros Hms. unfold Tone_for.
  destruct (Z.ltb_spec 4194 ms).
  - rewrite Z.min_r by lia. cbn [sched timer2]. by rewrite Tone_sched.
  - destruct (Z.ltb_spec ms 0); [lia|].
    rewrite Z.min_l by lia. cbn [sched timer2]. by rewrite Tone_sched.
Qed.

(** X22.  [Tone(frequency, milliseconds)] with a non-negative duration
    leaves exactly one [buzzerOff] event in the queue - stop events of
    earlier tones are replaced, not added to - due after the duration capped
    at 4194 ms, beside the other events in their old order; unless eight
    other events are pending: then no stop event is queued at all (the
    refusal of [scheduleEvent] goes unnoticed) and the queue holds just the
    others.  Timer 2 is programmed as by [Tone(frequency)]. *)
Theorem Tone_for_queues_one_stop_event F_CPU buzzerOff frequency ms b :
  queue_inv (sched b) -> 0 <= ms ->
  let others := filter (λ e, callback e <> buzzerOff) (queue_now (sched b)) in
  let stop := mkEvent buzzerOff
                (adjust_ticks (schedulerMsToTicks (Z.min ms 4194))) in
  let b' := Tone_for F_CPU buzzerOff frequency ms b in
  ((length others < SCHEDULER_MAX_EVENTS)%nat ->
   pending (sched b') ≡ₚ stop :: others ∧
   filter (λ e, callback e = buzzerOff) (pending (sched b')) = [stop]) ∧
  ((length others = SCHEDULER_MAX_EVENTS)%nat -> pending (sched b') = others) ∧
  timer2 b' = timer2 (Tone F_CPU buzzerOff frequency b).
Proof.
  intros Hinv Hms others stop b'.
  destruct (Tone_for_runs F_CPU buzzerOff frequency ms b Hms) as [Hsched Htimer].
  pose proof Hinv as (Hlen & Hn & _).
  destruct (cancelEvents_spec buzzerOff (sched b) ltac:(lia))
    as (Hlen1 & Hn1 & Hpend1).
  fold (queue_now (sched b)) in Hpend1. fold others in Hpend1.
  set (s1 := cancelEvents buzzerOff (sched b)) in *.
  assert (numEventsPending s1 = length others) as Hcount.
  { rewrite <- Hpend1. symmetry. apply SchedulerFacts.pending_length. lia. }
  split; [|split; [|exact Htimer]].
  - intros Hroom.
    assert (pending (sched b') ≡ₚ stop :: others) as Hperm.
    { unfold b'. rewrite Hsched.
      rewrite scheduleEvent_perm by lia.
      fold (queue_now s1).
      assert (queue_now s1 = pending s1) as ->
        by (apply cancelEvents_queue_now; lia).
      by rewrite Hpend1. }
    split; [exact Hperm|].
    apply Permutation_singleton_r. rewrite Hperm.
    rewrite filter_cons_True by done. constructor.
    rewrite (SchedulerFacts.filter_none (λ e, callback e = buzzerOff)); [done|].
    apply Forall_forall. intros e He. unfold others in He.
    by apply list_elem_of_filter in He as [? _].
  - intros Hfull. unfold b'. rewrite Hsched.
    rewrite scheduleEvent_full by lia. exact Hpend1.
Qed.

Lemma Tone_for_queues_one_stop_event_witness :
  pending (sched (Tone_for 16000000 2%nat 1000 500 quiet)) =
    [mkEvent 1%nat 6; mkEvent 3%nat 36; mkEvent 2%nat 7811] ∧
  filter (λ e, callback e = 2%nat)
         (pending (sched (Tone_for 16000000 2%nat 1000 500 quiet))) =
    [mkEvent 2%nat 7811].
Proof.
  destruct (Tone_for_queues_one_stop_event 16000000 2%nat 1000 500 quiet)
    as (Hroom & _); [apply SchedulerFacts.busy_state_inv|lia|].
  destruct Hroom as [_ Hone]; [vm_compute; lia|].
  split; [reflexivity|exact Hone].
Defined.

(** With eight other events pending the stop event is lost and the tone is
    left sounding. *)
Example Tone_for_without_room :
  let b := mkBuzzer full_state (mkTimer2 0 0 0 0) 0 0 in
  pending (sched (Tone_for 16000000 9%nat 1000 500 b)) = queue_now full_state ∧
  TIMSK2 (timer2 (Tone_for 16000000 9%nat 1000 500 b)) = bit_OCIE2A.
Proof. split; reflexivity. Qed.

End Buzzer.

(* ===================================================================== *)
(** * FEHRCS.cpp: course data from the wire to the RCS object *)
(* ===================================================================== *)

Module RCS.

Import Protocol.
Import ESP32.
Import ESP32Facts.
Import FEHESP32.
Import FEHESP32Facts.
Local Open Scope Z_scope.

(** The fields of [class FEHRCS] that [handleRCSData] writes. *)
Record Course := mkCourse {
  _correctLever : Z;
  _leverFlipped : Z;
  _dualSliderStatus : Z;
  _time : Z;
  hasLever : bool
}.

(** [void FEHRCS::handleRCSData(const uint8_t *data, uint8_t len)] *)
Definition handleRCSData (data : list Z) (len : Z) (r : Course) : Course :=
  if 5 <=? len
  then mkCourse (rd data 0) (rd data 1) (rd data 2) (rd data 3) true
  else r.

(** [isLeverFlipped()], [isWindowOpen()] once initialised. *)
Definition isLeverFlipped (r : Course) : Z :=
  if _leverFlipped r =? 1 then 1 else 0.
Definition isWindowOpen (r : Course) : Z :=
  if _dualSliderStatus r =? 2 then 1 else 0.

(** The RCS object after the callback calls the driver has made, [fn] being
    the address [handleRCSData] was registered under. *)
Definition replay (fn : nat) (calls : list Effect) (r : Course) : Course :=
  foldl (λ r e, match e with
                | RcsCallback f data len =>
                    if decide (f = fn) then handleRCSData data len r else r
                | _ => r
                end) r calls.

Definition frame_rcs_data (payload : list Z) : list Z :=
  [0xAA; 0x55; NOTIFY_RCS_DATA; Z.of_nat (length payload)] ++ payload.

(** [FEHESP32::setRCSCallback] on a machine. *)
Definition setRCSCallback (cb : option nat) (m : Machine) : Machine :=
  on_driver (on_link (set_rcsCallback cb)) m.

Lemma data_bytes_rd msg n i :
  (i < Z.to_nat n)%nat -> rd (data_bytes msg n) i = rd msg (4 + i).
Proof.
  intros Hi. unfold data_bytes, rd at 1.
  rewrite list_lookup_fmap, lookup_seq_lt by done. reflexivity.
Qed.

(** The payload cells a received buffer has: the 44 behind the header. *)
Definition payload_cells (rx : list Z) : list Z := take 44 (drop 4 rx).

(** X23.  An RCS data frame read by [poll], with a callback registered:
    the callback is called exactly when the frame's length byte [n] is at
    least 1, and it is handed [n] itself - the raw length byte, not the
    length the transport clamped to 44 - with the data starting at cell 4:
    the first [min(n, 44)] bytes it is given are the buffer's payload cells.
    The driver's own statics do not change.  [handleRCSData] in turn takes
    lever, lever state, slider state and time from payload cells 0 to 3 when
    [n >= 5] and leaves the RCS object alone for a shorter packet. *)
Theorem rcs_data_reaches_course fn m r :
  linked m ->
  s_rcsCallback (link (client m)) = Some fn ->
  has_sync (nth_rx (board m) 0) = true ->
  rd (nth_rx (board m) 0) 2 = NOTIFY_RCS_DATA ->
  let rx := nth_rx (board m) 0 in
  let n := rd rx 3 in
  ∃ calls,
    trace (client (FEHESP32.poll m)) = trace (client m) ++ calls ∧
    link (client (FEHESP32.poll m)) = link (client m) ∧
    (n < 1 -> calls = []) ∧
    (1 <= n ->
     ∃ data, calls = [RcsCallback fn data n] ∧
             take (Z.to_nat (Z.min n 44)) data =
               take (Z.to_nat (Z.min n 44)) (payload_cells rx)) ∧
    replay fn calls r =
      (if 5 <=? n
       then mkCourse (rd (payload_cells rx) 0) (rd (payload_cells rx) 1)
                     (rd (payload_cells rx) 2) (rd (payload_cells rx) 3) true
       else r).
Proof.
  intros Hm Hfn Hsync Hcmd. cbv zeta.
  destruct (poll_delivers m Hm) as [Hc _].
  pose proof (rd_rx_buffer_range (default [] (spi_rx (board m) !! 0%nat)) 3)
    as Hn. fold (nth_rx (board m) 0) in Hn.
  assert (length (nth_rx (board m) 0) = 48%nat) as Hlen
    by apply rx_buffer_length.
  set (rx := nth_rx (board m) 0) in *. set (n := rd rx 3) in *.
  assert (client (FEHESP32.poll m) =
          if 1 <=? n then emit (RcsCallback fn (data_bytes rx n) n) (client m)
          else client m) as ->.
  { rewrite Hc. unfold deliver. rewrite Hsync.
    unfold handleMessage. rewrite Hcmd, Hfn.
    rewrite rx_totalLen_value by (fold n; lia). fold n.
    destruct (Z.ltb_spec (4 + Z.min n 44) 4); [lia|]. cbn.
    by destruct (Z.ltb_spec 4 (4 + Z.min n 44)), (Z.leb_spec 1 n); try lia. }
  assert (∀ i, (i < 44)%nat -> rd (payload_cells rx) i = rd rx (4 + i)) as Hcell.
  { intros i Hi. unfold rd, payload_cells.
    by rewrite lookup_take_lt, lookup_drop by lia. }
  destruct (Z.leb_spec 1 n) as [Hpos|Hzero].
  - exists [RcsCallback fn (data_bytes rx n) n].
    split; [done|]. split; [done|]. split; [lia|]. split.
    + intros _. exists (data_bytes rx n). split; [done|].
      apply list_eq. intros i.
      destruct (decide (i < Z.to_nat (Z.min n 44))%nat) as [Hi|Hi].
      * rewrite !lookup_take_lt by lia. unfold data_bytes, payload_cells.
        rewrite list_lookup_fmap, lookup_seq_lt by lia.
        rewrite lookup_take_lt, lookup_drop by lia. cbn.
        unfold data_at, rd.
        destruct (rx !! (4 + i)%nat) as [z|] eqn:Hz; [done|].
        apply lookup_ge_None in Hz. lia.
      * by rewrite !lookup_take_ge by lia.
    + unfold replay. cbn [foldl]. rewrite decide_True by done.
      unfold handleRCSData. destruct (Z.leb_spec 5 n); [|done].
      by rewrite !data_bytes_rd, !Hcell by lia.
  - exists []. split; [by rewrite app_nil_r|]. split; [done|].
    split; [done|]. split; [lia|].
    by destruct (Z.leb_spec 5 n); [lia|].
Qed.

Lemma rcs_data_reaches_course_witness :
  replay 7 (trace (client (FEHESP32.poll
                             (setRCSCallback (Some 7%nat)
                                (ready [frame_rcs_data [2; 1; 2; 90; 0]])))))
         (mkCourse 0 0 0 0 false) = mkCourse 2 1 2 90 true.
Proof.
  destruct (rcs_data_reaches_course 7
              (setRCSCallback (Some 7%nat) (ready [frame_rcs_data [2; 1; 2; 90; 0]]))
              (mkCourse 0 0 0 0 false))
    as (calls & Htrace & _ & _ & _ & Hreplay);
    [split; reflexivity|reflexivity|reflexivity|reflexivity|].
  rewrite Htrace. exact Hreplay.
Defined.

(** A length byte beyond what the 48-byte buffer can hold still reaches the
    callback unclamped. *)
Example rcs_callback_gets_raw_length :
  (λ e, match e with RcsCallback f _ len => Some (f, len) | _ => None end) <$>
    trace (client (FEHESP32.poll
                     (setRCSCallback (Some 7%nat)
                        (ready [[0xAA; 0x55; NOTIFY_RCS_DATA; 200; 1; 2; 3]])))) =
    [Some (7%nat, 200)] ∧
  rx_totalLen (rx_buffer [0xAA; 0x55; NOTIFY_RCS_DATA; 200; 1; 2; 3]) = 48.
Proof. split; reflexivity. Qed.

End RCS.

(* ===================================================================== *)
(** * FEHInternal.cpp: waiting for the co-processor *)
(* ===================================================================== *)

Module Internal.

Import Protocol.
Import ESP32.
Import ESP32Facts.
Import FEHESP32.
Import FEHESP32Facts.
Local Open Scope Z_scope.

(** [ver.major != 0 || ver.minor != 0 || ver.patch != 0] *)
Definition version_known (v : ESP32Version) : bool :=
  negb (major v =? 0) || negb (minor v =? 0) || negb (patch v =? 0).

(** The loop of [waitForESP32Ready]:
    [while (millis() - t0 < timeout_ms)
       { poll(); ping(); ver = getVersion(); if (known) return true; delay(10); }
     return false;]
    [None] when the fuel ends with the loop still live. *)
Fixpoint waitForESP32Ready_loop (fuel : nat) (t0 timeout_ms : Z) (m : Machine)
  : option (bool * Machine) :=
  if (millis (board m) - t0) mod 2^32 <? timeout_ms then
    match fuel with
    | O => None
    | S fuel' =>
        let m1 := FEHESP32.poll m in
        let m2 := (FEHESP32.ping m1).2 in
        let ver := s_version (link (client m2)) in
        if version_known ver then Some (true, m2)
        else waitForESP32Ready_loop fuel' t0 timeout_ms (on_board (delay 10) m2)
    end
  else Some (false, m).

(** [bool waitForESP32Ready(unsigned long timeout_ms)] *)
Definition waitForESP32Ready (fuel : nat) (timeout_ms : Z) (m : Machine)
  : option (bool * Machine) :=
  waitForESP32Ready_loop fuel (millis (board m)) timeout_ms m.













(** With a silent peer the wait runs its full time: 100 rounds, two
    transfers each. *)
Example waitForESP32Ready_times_out :
  (λ r, (r.1, length (spi_tx (board r.2)), clock (board r.2))) <$>
    waitForESP32Ready 101 1000 (ready []) = Some (false, 200%nat, 2500).
Proof. vm_compute. reflexivity. Qed.

End Internal.
